(** * Zoopla scraper: identity keys, de-duplication, snapshot deltas and the
      card/detail extraction pipeline.

    Shallow embedding of [src/extractors/utils_filters.py],
    [src/extractors/zoopla_parser.py] and the scraping loop of
    [src/runner.py].

    Python values that can sit in a listing dictionary are the type [pyval];
    a dictionary is an insertion-ordered association list, read with
    [dict_get] (Python's [d.get(k)]) and written with [dict_set]
    (Python's [d[k] = v]).  Library calls whose code is not part of the
    repository (bs4 selection, urllib, json, the repr of compound values)
    are Section variables. *)

From Stdlib Require Import ZArith List Bool Ascii String Floats.SpecFloat Lia.
From stdpp Require Import base decidable option list gmap strings pretty.
Import ListNotations.

Local Open Scope string_scope.
Local Open Scope list_scope.

(** ** Python values *)

#[warnings="-register-all"] Inductive pyval : Type :=
  | VNone
  | VBool (b : bool)
  | VInt (z : Z)
  | VFloat (f : spec_float)
  | VStr (s : string)
  | VList (l : list pyval)
  | VDict (d : list (string * pyval)).

(** A listing is a [Dict[str, Any]]. *)
Definition listing : Type := list (string * pyval).

(** [d.get(k)]: the value stored under the key, [None] when the key is
    missing. *)
Fixpoint dict_get (d : list (string * pyval)) (k : string) : pyval :=
  match d with
  | [] => VNone
  | (k', v) :: rest => if String.eqb k' k then v else dict_get rest k
  end.

(** Python truth value of an object ([if value:]). *)
Definition truthy (v : pyval) : bool :=
  match v with
  | VNone => false
  | VBool b => b
  | VInt z => negb (Z.eqb z 0)
  | VFloat f => match f with S754_zero _ => false | _ => true end
  | VStr s => negb (String.eqb s "")
  | VList l => match l with [] => false | _ => true end
  | VDict d => match d with [] => false | _ => true end
  end.

(** Truth value of an [Optional[str]] ([if key:]). *)
Definition truthy_opt (o : option string) : bool :=
  match o with
  | None => false
  | Some s => negb (String.eqb s "")
  end.

(** [str(value)], what an f-string interpolates; [py_repr] is the [repr] of
    the values whose [str()] is their [repr]. *)
Definition py_str (py_repr : pyval -> string) (v : pyval) : string :=
  match v with
  | VNone => "None"
  | VBool true => "True"
  | VBool false => "False"
  | VInt z => pretty z
  | VStr s => s
  | VFloat _ | VList _ | VDict _ => py_repr v
  end.

(** ** Insertion-ordered dictionaries keyed by strings

    [d[k] = v] keeps the position of a key that is already there and appends
    a new key at the end; [items()] walks the entries in that order. *)

(** [k in d] *)
Fixpoint dict_mem {V : Type} (d : list (string * V)) (k : string) : bool :=
  match d with
  | [] => false
  | (k', _) :: rest => if String.eqb k' k then true else dict_mem rest k
  end.

(** [d[k] = v] *)
Fixpoint dict_set {V : Type} (d : list (string * V)) (k : string) (v : V)
  : list (string * V) :=
  match d with
  | [] => [(k, v)]
  | (k', v') :: rest =>
      if String.eqb k' k then (k', v) :: rest
      else (k', v') :: dict_set rest k v
  end.

(** ** Text helpers

    Python [str] is modelled by [string]; an 8-bit character stands for the
    code point of the same number, so the texts of this model are the texts
    over the code points below 256.  The character classes ([str.isspace],
    what [str.strip] removes and [\s] matches; [str.isdigit]; [\d]; [\w])
    and the case mappings are Python's on these code points, with one
    exception: the upper-case forms of the micro sign (0xb5) and of y with
    diaeresis (0xff) lie beyond 255, and [upper] leaves the two characters
    as they are; like their upper-case forms they are word characters and
    neither letters of [A-Z], digits nor white space.  Module [Unicode]
    below has the postcode extraction over arbitrary code points. *)

Definition in_range (lo hi : nat) (c : ascii) : bool :=
  let n := nat_of_ascii c in (lo <=? n)%nat && (n <=? hi)%nat.

(** [c.isspace()]: the ASCII white space, the separators 0x1c-0x1f, NEXT
    LINE (0x85) and NO-BREAK SPACE (0xa0). *)
Definition is_space (c : ascii) : bool :=
  in_range 9 13 c || in_range 28 32 c || in_range 133 133 c
  || in_range 160 160 c.

(** [\d], and the characters [int()] reads as decimal digits. *)
Definition is_digit (c : ascii) : bool := in_range 48 57 c.

(** [c.isdigit()]: the decimal digits and the superscripts two, three
    (0xb2, 0xb3) and one (0xb9). *)
Definition is_py_digit (c : ascii) : bool :=
  is_digit c || in_range 178 179 c || in_range 185 185 c.
Definition is_upper (c : ascii) : bool := in_range 65 90 c.
Definition is_lower (c : ascii) : bool := in_range 97 122 c.

(** [c.isalnum()] from 128 on: the letters, the superscript digits and the
    fractions of the Latin-1 block. *)
Definition is_latin1_alnum (c : ascii) : bool :=
  in_range 170 170 c || in_range 178 179 c || in_range 181 181 c
  || in_range 185 186 c || in_range 188 190 c || in_range 192 214 c
  || in_range 216 246 c || in_range 248 255 c.

(** [\w] *)
Definition is_word (c : ascii) : bool :=
  is_digit c || is_upper c || is_lower c || Ascii.eqb c "_"
  || is_latin1_alnum c.

(** The upper-case form of a character that has one below 256 (the sharp s,
    0xdf, is dealt with in [upper]). *)
Definition to_upper (c : ascii) : ascii :=
  if is_lower c || in_range 224 246 c || in_range 248 254 c
  then ascii_of_nat (nat_of_ascii c - 32) else c.

Definition to_lower (c : ascii) : ascii :=
  if is_upper c || in_range 192 214 c || in_range 216 222 c
  then ascii_of_nat (nat_of_ascii c + 32) else c.

Fixpoint str_map (f : ascii -> ascii) (s : string) : string :=
  match s with
  | EmptyString => EmptyString
  | String c r => String (f c) (str_map f r)
  end.

Fixpoint str_filter (p : ascii -> bool) (s : string) : string :=
  match s with
  | EmptyString => EmptyString
  | String c r => if p c then String c (str_filter p r) else str_filter p r
  end.

(** [s.upper()]: the sharp s becomes [SS]. *)
Fixpoint upper (s : string) : string :=
  match s with
  | EmptyString => EmptyString
  | String c r =>
      if Ascii.eqb c (ascii_of_nat 223)
      then String "S" (String "S" (upper r))
      else String (to_upper c) (upper r)
  end.

(** [s.lower()] *)
Definition lower (s : string) : string := str_map to_lower s.

(** [s.isascii()]: every character is below 128. *)
Definition isascii (s : string) : bool :=
  forallb (fun c => (nat_of_ascii c <? 128)%nat) (list_ascii_of_string s).

(** [if s:] for a [str] *)
Definition nonempty (s : string) : bool := negb (String.eqb s "").

Fixpoint lstrip (s : string) : string :=
  match s with
  | EmptyString => EmptyString
  | String c r => if is_space c then lstrip r else s
  end.

Fixpoint rstrip (s : string) : string :=
  match s with
  | EmptyString => EmptyString
  | String c r =>
      let r' := rstrip r in
      if is_space c && String.eqb r' "" then EmptyString else String c r'
  end.

(** [s.strip()] *)
Definition py_strip (s : string) : string := lstrip (rstrip s).

(** [needle in s] *)
Fixpoint contains (needle s : string) : bool :=
  String.prefix needle s ||
  match s with
  | EmptyString => false
  | String _ r => contains needle r
  end.

(** The value of [int(digits)] for a string of decimal digits. *)
Definition int_of_digits (digits : string) : Z :=
  fold_left (fun acc c => (10 * acc + Z.of_nat (nat_of_ascii c - 48))%Z)
            (list_ascii_of_string digits) 0%Z.

(** [x in xs] for a list of strings. *)
Definition str_in (x : string) (xs : list string) : bool :=
  existsb (String.eqb x) xs.

(** [list(dict.fromkeys(xs))]: first occurrences, in order. *)
Definition fromkeys (xs : list string) : list string :=
  fold_left (fun acc x => if str_in x acc then acc else acc ++ [x]) xs [].

(** ** A backtracking matcher for the regular expressions of the parser

    The patterns the parser hands to [re] are sequences of quantified
    character classes and word-boundary assertions.  [Cls p lo hi] is the
    greedy [class{lo,hi}] ([hi = None]: unbounded); matching tries the
    longest run first and gives characters back one at a time, as [re]
    does.  The matcher works for any type of characters, given the class
    [\w] that decides the word boundaries. *)

(** Try [f n], [f (n-1)], ..., [f lo]; the first success wins. *)
Fixpoint try_down {A : Type} (f : nat -> option A) (lo n : nat) : option A :=
  if (n <? lo)%nat then None
  else match f n with
       | Some r => Some r
       | None => match n with
                 | 0 => None
                 | S n' => try_down f lo n'
                 end
       end.

Section Matcher.

Variable C : Type.

(** [\w] *)
Variable word : C -> bool.

Inductive re_item : Type :=
  | Cls (p : C -> bool) (lo : nat) (hi : option nat)
  | WordB.

Definition word_opt (o : option C) : bool :=
  match o with Some c => word c | None => false end.

(** [\b] between the character before and the character after. *)
Definition at_boundary (prev next : option C) : bool :=
  xorb (word_opt prev) (word_opt next).

(** Length of the longest run of [p] at the head of [s], at most [cap]. *)
Fixpoint span_len (p : C -> bool) (cap : option nat) (s : list C) : nat :=
  match s with
  | [] => 0
  | c :: r =>
      if p c then
        match cap with
        | Some 0 => 0
        | Some (S k) => S (span_len p (Some k) r)
        | None => S (span_len p None r)
        end
      else 0
  end.

(** Character before the position reached after consuming [piece]. *)
Definition prev_after (prev : option C) (piece : list C) : option C :=
  match last piece with Some c => Some c | None => prev end.

(** Match the items at the head of [s]; the result lists the text consumed
    by each item (the empty text for an assertion). *)
Fixpoint match_items (items : list re_item) (prev : option C) (s : list C)
  : option (list (list C)) :=
  match items with
  | [] => Some []
  | WordB :: rest =>
      if at_boundary prev (head s)
      then option_map (cons []) (match_items rest prev s)
      else None
  | Cls p lo hi :: rest =>
      try_down
        (fun k => option_map (cons (take k s))
                    (match_items rest (prev_after prev (take k s)) (drop k s)))
        lo (span_len p hi s)
  end.

(** [re.search]: the match at the leftmost position that has one, as the
    start offset and the pieces. *)
Fixpoint search_from (items : list re_item) (prev : option C) (s : list C)
    (start : nat) : option (nat * list (list C)) :=
  match match_items items prev s with
  | Some pieces => Some (start, pieces)
  | None =>
      match s with
      | [] => None
      | c :: r => search_from items (Some c) r (S start)
      end
  end.

Definition re_search (items : list re_item) (s : list C)
  : option (nat * list (list C)) :=
  search_from items None s 0.

(** What it means for a sequence of items to match at the head of [s] when
    the character before is [prev]: [pieces] gives the text of each item. *)
Inductive matches
  : list re_item -> option C -> list C -> list (list C) -> Prop :=
  | matches_nil prev s : matches [] prev s []
  | matches_wordb items prev s pieces :
      at_boundary prev (head s) = true ->
      matches items prev s pieces ->
      matches (WordB :: items) prev s ([] :: pieces)
  | matches_cls p lo hi items prev piece s pieces :
      forallb p piece = true ->
      lo <= length piece ->
      (forall h, hi = Some h -> length piece <= h) ->
      matches items (prev_after prev piece) s pieces ->
      matches (Cls p lo hi :: items) prev (piece ++ s) (piece :: pieces).

(** *** The postcode pattern, for given classes [[A-Z]], [\d] and [\s] *)

Variable upper_case digit space : C -> bool.

(** [\b[A-Z]{1,2}\d{1,2}[A-Z]?\s*\d[A-Z]{2}\b] *)
Definition postcode_pattern : list re_item :=
  [ WordB; Cls upper_case 1 (Some 2); Cls digit 1 (Some 2);
    Cls upper_case 0 (Some 1); Cls space 0 None; Cls digit 1 (Some 1);
    Cls upper_case 2 (Some 2); WordB ].

(** The shape of a postcode as the pattern of [_extract_postcode] has it:
    one or two letters, one or two digits, at most one letter, any amount of
    white space (none included), one digit, two letters. *)
Definition postcode_shape (m : list C) : Prop :=
  exists area district sub gap d unit_,
    m = area ++ district ++ sub ++ gap ++ [d] ++ unit_
    /\ forallb upper_case area = true /\ 1 <= length area <= 2
    /\ forallb digit district = true /\ 1 <= length district <= 2
    /\ forallb upper_case sub = true /\ length sub <= 1
    /\ forallb space gap = true
    /\ digit d = true
    /\ forallb upper_case unit_ = true /\ length unit_ = 2.

(** [m] occurs in [u] between [pre] and [post] as a postcode that starts and
    ends at a word boundary. *)
Definition postcode_at (u pre m post : list C) : Prop :=
  u = pre ++ m ++ post
  /\ postcode_shape m
  /\ word_opt (last pre) = false
  /\ word_opt (head post) = false.

(** The shape of a postcode in the words of the specification: one or two
    letters, one or two digits, an optional letter, white space, one digit,
    two letters. *)
Definition spec_postcode_shape (m : list C) : Prop :=
  exists area district sub gap d unit_,
    m = area ++ district ++ sub ++ gap ++ [d] ++ unit_
    /\ forallb upper_case area = true /\ 1 <= length area <= 2
    /\ forallb digit district = true /\ 1 <= length district <= 2
    /\ forallb upper_case sub = true /\ length sub <= 1
    /\ forallb space gap = true /\ 1 <= length gap
    /\ digit d = true
    /\ forallb upper_case unit_ = true /\ length unit_ = 2.

End Matcher.

Arguments Cls {C} p lo hi.
Arguments WordB {C}.
Arguments word_opt {C} word o.
Arguments at_boundary {C} word prev next.
Arguments span_len {C} p cap s.
Arguments prev_after {C} prev piece.
Arguments match_items {C} word items prev s.
Arguments search_from {C} word items prev s start.
Arguments re_search {C} word items s.
Arguments matches {C} word _ _ _ _.
Arguments postcode_pattern {C} upper_case digit space.
Arguments postcode_shape {C} upper_case digit space m.
Arguments postcode_at {C} word upper_case digit space u pre m post.
Arguments spec_postcode_shape {C} upper_case digit space m.

(** The items of two patterns agree under an embedding [f] of characters,
    on the characters that satisfy [P]: same bounds, and classes that say
    the same of [c] and of [f c]. *)
Definition item_agree {C D : Type} (f : C -> D) (P : C -> Prop)
    (a : re_item C) (b : re_item D) : Prop :=
  match a, b with
  | Cls p lo hi, Cls q lo' hi' =>
      lo = lo' /\ hi = hi' /\ forall c, P c -> q (f c) = p c
  | WordB, WordB => True
  | _, _ => False
  end.

(** *** The patterns over 8-bit text *)

(** [match.group(0)] *)
Definition group0 (pieces : list (list ascii)) : string :=
  string_of_list_ascii (concat pieces).

(** A literal piece of a pattern. *)
Definition lit (s : string) : list (re_item ascii) :=
  map (fun c => Cls (Ascii.eqb c) 1 (Some 1)) (list_ascii_of_string s).

(** The postcode extraction of the pipeline, on the texts over the code
    points below 256.  [Unicode._extract_postcode] below is the function on
    arbitrary text; the two agree on ASCII text. *)
Definition _extract_postcode (text : string) : option string :=
  if negb (nonempty text) then None
  else match re_search is_word (postcode_pattern is_upper is_digit is_space)
               (list_ascii_of_string (upper text)) with
       | Some (_, pieces) => Some (py_strip (group0 pieces))
       | None => None
       end.

(** ** Postcode extraction over arbitrary text

    A Python [str] is a sequence of code points.  What Python does with the
    ASCII code points is written out; for the code points from 128 on the
    character database of the interpreter decides, which is a parameter
    here. *)

Module Unicode.

(** The character database, consulted for the code points from 128 on:
    [c.isspace()] (what [str.strip] removes and [\s] matches),
    [c.isdecimal()] (what [\d] matches), [c.isalnum()] (what [\w] matches),
    and the code points of [c.upper()]. *)
Record ucd : Type := {
  isspace : N -> bool;
  isdecimal : N -> bool;
  isalnum : N -> bool;
  toupper : N -> list N
}.

(** The code points of an 8-bit text. *)
Definition of_string (s : string) : list N :=
  map N_of_ascii (list_ascii_of_string s).

Definition between (lo hi c : N) : bool := ((lo <=? c) && (c <=? hi))%N.

Section Text.

Variable db : ucd.

(** [\s], and what [str.strip] removes *)
Definition is_space (c : N) : bool :=
  if (c <? 128)%N then between 9 13 c || between 28 32 c else isspace db c.

(** [\d] *)
Definition is_digit (c : N) : bool :=
  if (c <? 128)%N then between 48 57 c else isdecimal db c.

(** [[A-Z]] *)
Definition is_upper (c : N) : bool := between 65 90 c.

(** [\w] *)
Definition is_word (c : N) : bool :=
  if (c <? 128)%N
  then between 48 57 c || between 65 90 c || between 97 122 c || (c =? 95)%N
  else isalnum db c.

(** [s.upper()], code point by code point *)
Definition upper (s : list N) : list N :=
  flat_map (fun c => if (c <? 128)%N
                     then [if between 97 122 c then (c - 32)%N else c]
                     else toupper db c) s.

Fixpoint lstrip (s : list N) : list N :=
  match s with
  | [] => []
  | c :: r => if is_space c then lstrip r else s
  end.

Fixpoint rstrip (s : list N) : list N :=
  match s with
  | [] => []
  | c :: r =>
      match rstrip r with
      | [] => if is_space c then [] else [c]
      | r' => c :: r'
      end
  end.

(** [s.strip()] *)
Definition py_strip (s : list N) : list N := lstrip (rstrip s).

Definition _extract_postcode (text : list N) : option (list N) :=
  match text with
  | [] => None
  | _ :: _ =>
      match re_search is_word (postcode_pattern is_upper is_digit is_space)
              (upper text) with
      | Some (_, pieces) => Some (py_strip (concat pieces))
      | None => None
      end
  end.

End Text.

End Unicode.

(** [re.findall] of the pattern [\{.*?\}] with [re.DOTALL]: from each opening brace
    to the first closing brace after it, without overlap.  [cur] is the
    candidate being read, if any. *)
Fixpoint findall_braces (cur : option string) (s : string) : list string :=
  match s with
  | EmptyString => []
  | String c r =>
      match cur with
      | None =>
          if Ascii.eqb c "{" then findall_braces (Some "{") r
          else findall_braces None r
      | Some acc =>
          if Ascii.eqb c "}" then (acc +:+ "}") :: findall_braces None r
          else findall_braces (Some (acc +:+ String c EmptyString)) r
      end
  end.

Definition is_quote (c : ascii) : bool :=
  Ascii.eqb c "'" || Ascii.eqb c (ascii_of_nat 34).

Definition is_coord_char (c : ascii) : bool :=
  is_digit c || Ascii.eqb c "." || Ascii.eqb c "-".

(** The pattern [name Q? \s* : \s* ([0-9.\-]+)], where Q is a single or a
    double quote character. *)
Definition coord_pattern (name : string) : list (re_item ascii) :=
  lit name ++
  [ Cls is_quote 0 (Some 1); Cls is_space 0 None; Cls (Ascii.eqb ":") 1 (Some 1);
    Cls is_space 0 None; Cls is_coord_char 1 None ].

(** [re.search(pattern, content)] followed by [.group(1)], the last piece
    of [coord_pattern]. *)
Definition coord_search (name content : string) : option string :=
  match re_search is_word (coord_pattern name)
          (list_ascii_of_string content) with
  | Some (_, pieces) =>
      Some (string_of_list_ascii (List.last pieces []))
  | None => None
  end.

(** ** Exceptions and effects

    [RequestException] stands for [requests.RequestException] and its
    subclasses ([HTTPError] among them), [TransportError] for whatever else
    [session.get] raises, the other constructors for the exceptions the
    standard library raises in the code below. *)

Inductive exn : Type :=
  | RequestException (msg : string)
  | OSError
  | JSONDecodeError
  | AttributeError
  | ValueError
  | TransportError.

Inductive outcome (A : Type) : Type :=
  | Ok (a : A)
  | Raise (e : exn).
Arguments Ok {A} a.
Arguments Raise {A} e.

(** Computations that talk to the network: the state is the number of
    requests issued so far. *)
Definition M (A : Type) : Type := nat -> outcome A * nat.

Definition ret {A : Type} (a : A) : M A := fun t => (Ok a, t).

Definition bind {A B : Type} (m : M A) (k : A -> M B) : M B :=
  fun t => match m t with
           | (Ok a, t') => k a t'
           | (Raise e, t') => (Raise e, t')
           end.

Definition raise {A : Type} (e : exn) : M A := fun t => (Raise e, t).

(** [try: m except <caught> as e: h e]; an exception that is not caught
    goes on. *)
Definition try_except {A : Type} (m : M A) (caught : exn -> bool)
    (h : exn -> M A) : M A :=
  fun t => match m t with
           | (Raise e, t') => if caught e then h e t' else (Raise e, t')
           | r => r
           end.

Notation "'let*' x ':=' m 'in' k" := (bind m (fun x => k))
  (at level 10, x name, m at level 100, k at level 200).

Definition is_RequestException (e : exn) : bool :=
  match e with RequestException _ => true | _ => false end.

(** [requests.Response], as far as the scraper reads it. *)
Record Response : Type := { status_code : Z; text : string }.

(** [resp.raise_for_status()] *)
Definition raise_for_status (resp : Response) : M unit :=
  if (400 <=? status_code resp)%Z && (status_code resp <? 600)%Z
  then raise (RequestException "HTTPError")
  else ret tt.

(** What is at a path of the file system.  [Inaccessible]: the path cannot
    even be tested for existence, [path.exists()] raises [OSError] (a name
    that is too long, a parent directory that may not be searched);
    [Absent]: [path.exists()] is false; [Unreadable]: the path exists and
    opening or reading it raises [OSError]; [Content s]: a file whose text
    is [s]. *)
Inductive file_state : Type :=
  | Inaccessible
  | Absent
  | Unreadable
  | Content (s : string).

(** A sequence of records, in the words of the specification: a list whose
    elements are all dictionaries. *)
Definition is_record_list (v : pyval) : bool :=
  match v with
  | VList l => forallb (fun x => match x with VDict _ => true | _ => false end) l
  | _ => false
  end.

(** ** The listing record of [zoopla_parser.py] *)

Record PropertyListing : Type := {
  title : string;
  uprn : option string;
  address : option string;
  epc : option string;
  epcRating : option string;
  bedrooms : option Z;
  bathrooms : option Z;
  livingroom : option Z;
  price : option string;
  description : option string;
  coordinates : option (list (string * pyval));
  category : option string;
  type : option string;
  agent : option string;
  agentPhone : option string;
  images : list string;
  priceHistory : list (list (string * pyval));
  pointsOfInterest : list (list (string * pyval));
  propertyType : option string;
  postalCode : option string;
  features : list string;
  url : option string
}.

Definition of_opt_str (o : option string) : pyval :=
  match o with Some s => VStr s | None => VNone end.

Definition of_opt_int (o : option Z) : pyval :=
  match o with Some z => VInt z | None => VNone end.

Definition of_opt_dict (o : option (list (string * pyval))) : pyval :=
  match o with Some d => VDict d | None => VNone end.

(** [dataclasses.asdict] *)
Definition asdict (p : PropertyListing) : listing :=
  [ ("title", VStr (title p));
    ("uprn", of_opt_str (uprn p));
    ("address", of_opt_str (address p));
    ("epc", of_opt_str (epc p));
    ("epcRating", of_opt_str (epcRating p));
    ("bedrooms", of_opt_int (bedrooms p));
    ("bathrooms", of_opt_int (bathrooms p));
    ("livingroom", of_opt_int (livingroom p));
    ("price", of_opt_str (price p));
    ("description", of_opt_str (description p));
    ("coordinates", of_opt_dict (coordinates p));
    ("category", of_opt_str (category p));
    ("type", of_opt_str (type p));
    ("agent", of_opt_str (agent p));
    ("agentPhone", of_opt_str (agentPhone p));
    ("images", VList (map VStr (images p)));
    ("priceHistory", VList (map VDict (priceHistory p)));
    ("pointsOfInterest", VList (map VDict (pointsOfInterest p)));
    ("propertyType", of_opt_str (propertyType p));
    ("postalCode", of_opt_str (postalCode p));
    ("features", VList (map VStr (features p)));
    ("url", of_opt_str (url p)) ].

(** The optional fields of a listing that hold text taken from a page. *)
Definition text_fields (p : PropertyListing) : list (option string) :=
  [ address p; epcRating p; price p; description p; category p; type p;
    agent p; agentPhone p; propertyType p; postalCode p ].

(** The fields that only the detail page fills are all absent. *)
Definition enrichment_absent (p : PropertyListing) : Prop :=
  description p = None /\ epc p = None /\ epcRating p = None
  /\ agentPhone p = None /\ postalCode p = None /\ coordinates p = None
  /\ features p = [] /\ images p = [].

(** ** A sample environment

    A small page, network and file system on which the program can be run:
    an element lists what each selector finds under it, its text nodes and
    the [href] of its first anchor. *)

Module Sample.

#[warnings="-register-all"] Inductive tag : Type :=
  | Node (selected : list (string * list tag)) (strings : list string)
         (href : option string).

Fixpoint assoc {A : Type} (k : string) (table : list (string * list A))
  : list A :=
  match table with
  | [] => []
  | (k', v) :: rest => if String.eqb k' k then v else assoc k rest
  end.

Definition select (t : tag) (sel : string) : list tag :=
  match t with Node selected _ _ => assoc sel selected end.

Definition all_strings (t : tag) : list string :=
  match t with Node _ strings _ => strings end.

Definition select_attr (t : tag) (sel attr : string) : list string := [].

Definition find_a_href (t : tag) : option string :=
  match t with Node _ _ href => href end.

Definition script_strings (t : tag) : list (option string) := [].

Definition leaf (s : string) : tag := Node [] [s] None.

(** A card with a title, an address and a link. *)
Definition card_flat : tag :=
  Node [ ("h2", [leaf "2 bed flat"]);
         ("address", [leaf " 1 High St, London SE1 2AA "]) ]
       [] (Some "/details/1").

(** A card with an address only: no title element and no link. *)
Definition card_untitled : tag :=
  Node [ ("address", [leaf "3 Low Rd"]) ] [] None.

Definition page : tag :=
  Node [ ("article", [card_flat; card_untitled]) ] [] None.

(** A card whose link [urljoin] rejects, and a page that lists it after the
    flat. *)
Definition card_bad_link : tag :=
  Node [ ("h2", [leaf "3 bed house"]) ] [] (Some "http://[").

Definition page_bad_link : tag :=
  Node [ ("article", [card_flat; card_bad_link]) ] [] None.

Definition BeautifulSoup (html : string) : tag :=
  if String.eqb html "<search>" then page
  else if String.eqb html "<search with a bad link>" then page_bad_link
  else Node [] [] None.

Definition urljoin (base href : string) : string :=
  "https://www.zoopla.co.uk" +:+ href.

Definition urlparse_scheme (base : string) : string := "https".

Definition base_url : string := "https://www.zoopla.co.uk".

Definition int_max_str_digits : nat := 4300.

(** A character database that knows the Latin-1 block, the upper-case forms
    of its letters (0x39c and 0x178 are the two beyond it), the
    Arabic-Indic digits (0x660-0x669) and the Kelvin sign (0x212a). *)
Definition ucd_sample : Unicode.ucd :=
  {| Unicode.isspace := fun c => (c =? 133)%N || (c =? 160)%N;
     Unicode.isdecimal := fun c => Unicode.between 1632 1641 c;
     Unicode.isalnum := fun c =>
       (c =? 170)%N || Unicode.between 178 179 c || (c =? 181)%N
       || Unicode.between 185 186 c || Unicode.between 188 190 c
       || Unicode.between 192 214 c || Unicode.between 216 246 c
       || Unicode.between 248 255 c || (c =? 376)%N || (c =? 924)%N
       || Unicode.between 1632 1641 c || (c =? 8490)%N;
     Unicode.toupper := fun c =>
       if (c =? 223)%N then [83; 83]%N
       else if (c =? 181)%N then [924]%N
       else if (c =? 255)%N then [376]%N
       else if Unicode.between 224 246 c || Unicode.between 248 254 c
            then [(c - 32)%N]
            else [c] |}.

(** [urljoin] rejects a link that opens an IPv6 host and does not close
    it; nothing else raises. *)
Definition urljoin_raises (base href : string) : bool :=
  String.prefix "http://[" href.
Definition urlparse_raises (base : string) : bool := false.
Definition session_get_fault (t : nat) (url_ : string) : bool := false.
Definition sleep_raises : bool := false.

Definition search_url : string := "https://www.zoopla.co.uk/for-sale".

(** The first request is answered, every later one times out. *)
Definition session_get (t : nat) (url_ : string) : Response + string :=
  match t with
  | 0 => inl {| status_code := 200; text := "<search>" |}
  | S _ => inr "timed out"
  end.

(** The same network, serving the page with the bad link. *)
Definition session_get_bad_link (t : nat) (url_ : string)
  : Response + string :=
  match t with
  | 0 => inl {| status_code := 200; text := "<search with a bad link>" |}
  | S _ => inr "timed out"
  end.

Definition py_repr (v : pyval) : string := "<repr>".

Definition dq : string := String (ascii_of_nat 34) EmptyString.

(** The text of the JSON object that maps [not] to [a list]. *)
Definition object_text : string :=
  "{" +:+ dq +:+ "not" +:+ dq +:+ ": " +:+ dq +:+ "a list" +:+ dq +:+ "}".

(** The text of the JSON array that holds the record of [Flat A]. *)
Definition flat_a_text : string :=
  "[{" +:+ dq +:+ "title" +:+ dq +:+ ": " +:+ dq +:+ "Flat A" +:+ dq +:+ ", "
  +:+ dq +:+ "uprn" +:+ dq +:+ ": null, "
  +:+ dq +:+ "url" +:+ dq +:+ ": " +:+ dq +:+ "https://z/1" +:+ dq +:+ "}]".

Definition json_loads (s : string) : option pyval :=
  if String.eqb s "[1, 2]" then Some (VList [VInt 1; VInt 2])
  else if String.eqb s "[{}]" then Some (VList [VDict []])
  else if String.eqb s object_text then Some (VDict [("not", VStr "a list")])
  else if String.eqb s flat_a_text then
    Some (VList [VDict [ ("title", VStr "Flat A"); ("uprn", VNone);
                         ("url", VStr "https://z/1") ]])
  else None.

Definition fs (path : string) : file_state :=
  if String.eqb path "numbers.json" then Content "[1, 2]"
  else if String.eqb path "records.json" then Content "[{}]"
  else if String.eqb path "object.json" then Content object_text
  else if String.eqb path "garbage.json" then Content "]["
  else if String.eqb path "locked.json" then Unreadable
  else if String.eqb path "sealed/snapshot.json" then Inaccessible
  else Absent.

(** Two listings with the same URL and different titles, and one without
    any identity field. *)
Definition flat_a : listing :=
  [ ("title", VStr "Flat A"); ("uprn", VNone); ("url", VStr "https://z/1") ].
Definition flat_b : listing :=
  [ ("title", VStr "Flat B"); ("uprn", VNone); ("url", VStr "https://z/1") ].
Definition anonymous : listing :=
  [ ("title", VStr "No link"); ("uprn", VNone); ("url", VNone) ].

(** Two listings with the same URL, different titles and different
    reference numbers. *)
Definition house_1 : listing :=
  [ ("title", VStr "House 1"); ("uprn", VStr "1"); ("url", VStr "https://z/2") ].
Definition house_2 : listing :=
  [ ("title", VStr "House 2"); ("uprn", VStr "2"); ("url", VStr "https://z/2") ].

(** The value is the array that holds the record of [Flat A]. *)
Definition is_flat_a_array (v : pyval) : bool :=
  match v with
  | VList [VDict [(k1, VStr t); (k2, VNone); (k3, VStr u)]] =>
      String.eqb k1 "title" && String.eqb t "Flat A" && String.eqb k2 "uprn"
      && String.eqb k3 "url" && String.eqb u "https://z/1"
  | _ => false
  end.

(** A writer that can write everywhere but under [/readonly], and the JSON
    text of the arrays the sample parser knows. *)
Definition json_dump_indent (v : pyval) : string :=
  if is_flat_a_array v then flat_a_text
  else match v with
       | VList [VDict []] => "[{}]"
       | VList [VInt 1; VInt 2] => "[1, 2]"
       | _ => "null"
       end.

Definition write_file (path text_ : string) : option file_state :=
  if String.prefix "/readonly" path then None else Some (Content text_).

(** A detail page with a description, two feature lists that overlap, and
    a script that carries coordinates. *)
Definition detail_page : tag :=
  Node [ ("p[data-testid*=listing-description]", [leaf "  Bright flat.  "]);
         ("ul[data-testid*=features] li", [leaf "Garden"; leaf ""; leaf "Parking"]);
         ("ul[class*=features] li", [leaf "Parking"; leaf "Lift"]);
         ("address", [leaf "1 high st, london se1 2aa"]) ]
       [] None.

(** A card whose bedroom count reads [3 beds]. *)
Definition card_beds : tag :=
  Node [ ("li[data-testid*=bed]", [leaf "3 beds"]);
         ("span[class*=category]", [leaf "To Rent"]) ] [] None.

(** A card whose bedroom text ends in the superscript two of a floor area
    in square metres. *)
Definition card_area : tag :=
  Node [ ("li[data-testid*=bed]",
          [leaf ("2 beds (50 m" +:+ String (ascii_of_nat 178) ")")]) ]
       [] None.

End Sample.

(** ** The program

    The Section variables are the library capabilities the two modules call
    and the environment they run in. *)

Section Zoopla.

(** [repr] of the values whose [str()] is their [repr]: floats, lists and
    dictionaries. *)
Variable py_repr : pyval -> string.

(** [json.loads]; [None] when it raises. *)
Variable json_loads : string -> option pyval.

(** bs4: the element type; [root.select(sel)] in document order; the text
    nodes under an element, in document order; the value of attribute [attr]
    on each element of [root.select(sel)] for a selector [sel] that demands
    the attribute; the [href] of [card.find("a", href=True)]; the [.string]
    of each element of [soup.find_all("script")]; [BeautifulSoup(html,
    "lxml")]. *)
Variable Tag : Type.
Variable select : Tag -> string -> list Tag.
Variable all_strings : Tag -> list string.
Variable select_attr : Tag -> string -> string -> list string.
Variable find_a_href : Tag -> option string.
Variable script_strings : Tag -> list (option string).
Variable BeautifulSoup : string -> Tag.

(** urllib.parse: what [urljoin(base, href)] and [urlparse(base).scheme]
    return. *)
Variable urljoin : string -> string -> string.
Variable urlparse_scheme : string -> string.

(** [self.session.get(url, timeout=...)] for the request number [t]: a
    response, or the message of the [RequestException] it raises. *)
Variable session_get : nat -> string -> Response + string.

(** [self.base_url] *)
Variable base_url : string.

(** The file system [load_snapshot] reads. *)
Variable fs : string -> file_state.

(** [sys.get_int_max_str_digits()]: the longest digit string [int()]
    converts, 0 for no limit. *)
Variable int_max_str_digits : nat.

(** *** zoopla_parser.py *)

(** [root.select_one(sel)] *)
Definition select_one (root : Tag) (sel : string) : option Tag :=
  head (select root sel).

(** [el.get_text(sep, strip=True)]: the stripped text nodes that are not
    empty, joined by [sep]. *)
Definition get_text (el : Tag) (sep : string) : string :=
  String.concat sep (List.filter nonempty (List.map py_strip (all_strings el))).

(** What [_safe_get] returns when the transport raises nothing but
    [RequestException]s and [time.sleep] only delays the call; [_safe_get_exn]
    below has the exceptions that the [except] clause lets through. *)
Definition _safe_get (url_ : string) : M (option string) :=
  try_except
    (let* resp := (fun t => match session_get t url_ with
                            | inl r => (Ok r, S t)
                            | inr msg => (Raise (RequestException msg), S t)
                            end) in
     let* _ := raise_for_status resp in
     ret (Some (text resp)))
    is_RequestException
    (fun _ => ret None).

Fixpoint _extract_text (root : Tag) (selectors : list string) : option string :=
  match selectors with
  | [] => None
  | sel :: rest =>
      match select_one root sel with
      | Some el =>
          let text := get_text el " " in
          if nonempty text then Some text else _extract_text root rest
      | None => _extract_text root rest
      end
  end.

(** [int(digits)] for a string of characters that satisfy [isdigit]:
    [None] when it raises [ValueError], for a digit that is not a decimal
    digit or for a string longer than the limit. *)
Definition py_int (digits : string) : option Z :=
  if forallb is_digit (list_ascii_of_string digits)
     && negb ((0 <? int_max_str_digits)%nat
              && (int_max_str_digits <? String.length digits)%nat)
  then Some (int_of_digits digits)
  else None.

Definition _extract_int_from_text (root : Tag) (selectors : list string)
  : option Z :=
  match _extract_text root selectors with
  | None => None
  | Some text =>
      if negb (nonempty text) then None
      else
        let digits := str_filter is_py_digit text in
        if negb (nonempty digits) then None
        else py_int digits
  end.

(** The URL that [_normalize_url] returns; [_normalize_url_raises] below
    says when [urlparse] or [urljoin] raises instead. *)
Definition _normalize_url (href base : string) : string :=
  let href := py_strip href in
  let href :=
    if String.prefix "//" href then urlparse_scheme base +:+ ":" +:+ href
    else href in
  urljoin base href.

Definition _find_listing_cards (soup : Tag) : list Tag :=
  let fix go (selectors : list string) : list Tag :=
    match selectors with
    | [] => []
    | sel :: rest =>
        match select soup sel with
        | [] => go rest
        | cards => cards
        end
    end in
  go [ "article[data-testid*=listing]"; "div[data-testid*=listing]";
       "div[class*=ListingCard]"; "article" ].

Definition title_selectors : list string :=
  [ "h2[data-testid*=listing-title]"; "h2"; "h3" ].
Definition price_selectors : list string :=
  [ "p[data-testid*=listing-price]"; "div[data-testid*=listing-price]";
    "span[class*=price]" ].
Definition card_address_selectors : list string :=
  [ "p[data-testid*=listing-description]"; "address"; "span[class*=address]" ].
Definition category_selectors : list string :=
  [ "span[data-testid*=badge]"; "span[class*=category]" ].
Definition property_type_selectors : list string :=
  [ "span[class*=property-type]"; "span[data-testid*=property-type]" ].
Definition agent_selectors : list string :=
  [ "p[data-testid*=listing-agent]"; "span[class*=agent]" ].
Definition bedrooms_selectors : list string :=
  [ "li[data-testid*=bed]"; "span[class*=bedrooms]" ].
Definition bathrooms_selectors : list string :=
  [ "li[data-testid*=bath]"; "span[class*=bathrooms]" ].

(** The category bucket of the badge text of a card. *)
Definition card_category (category_text : option string) : option string :=
  match category_text with
  | Some t =>
      if nonempty t then
        let lowered := lower t in
        if contains "rent" lowered then Some "rent"
        else if contains "sale" lowered || contains "buy" lowered
             then Some "sale"
             else None
      else None
  | None => None
  end.

(** The property type guessed from a card: the stripped text, if any. *)
Definition card_property_type (property_type_text : option string)
  : option string :=
  match property_type_text with
  | Some t => if nonempty t then Some (py_strip t) else None
  | None => None
  end.

Definition _parse_listing_card (card : Tag) (base_page_url : string)
  : PropertyListing :=
  let title_ := _extract_text card title_selectors in
  let price_ := _extract_text card price_selectors in
  let address_ := _extract_text card card_address_selectors in
  let url_ :=
    match find_a_href card with
    | Some href => Some (_normalize_url href base_page_url)
    | None => None
    end in
  let category_text := _extract_text card category_selectors in
  let category_ := card_category category_text in
  let property_type_text := _extract_text card property_type_selectors in
  let property_type := card_property_type property_type_text in
  let type_ := property_type in
  let agent_ := _extract_text card agent_selectors in
  let bedrooms_ := _extract_int_from_text card bedrooms_selectors in
  let bathrooms_ := _extract_int_from_text card bathrooms_selectors in
  {| title := match title_ with
              | Some t => if nonempty t then t else ""
              | None => ""
              end;
     uprn := None;
     address := address_;
     epc := None;
     epcRating := None;
     bedrooms := bedrooms_;
     bathrooms := bathrooms_;
     livingroom := None;
     price := price_;
     description := None;
     coordinates := None;
     category := category_;
     type := type_;
     agent := agent_;
     agentPhone := None;
     images := [];
     priceHistory := [];
     pointsOfInterest := [];
     propertyType := property_type;
     postalCode := None;
     features := [];
     url := url_ |}.

(** What the [try] block of [_extract_coordinates_from_scripts] does on the
    brace-delimited candidates of one script: it returns from the function,
    runs to its end, or raises. *)
Inductive try_result : Type :=
  | TryReturn (coords : list (string * pyval))
  | TryDone
  | TryRaise (e : exn).

Fixpoint scan_candidates (json_candidates : list string) : try_result :=
  match json_candidates with
  | [] => TryDone
  | candidate :: rest =>
      if contains "latitude" candidate && contains "longitude" candidate then
        match json_loads candidate with
        | None => TryRaise JSONDecodeError
        | Some (VDict data) =>
            let lat := dict_get data "latitude" in
            let lon := dict_get data "longitude" in
            if truthy lat && truthy lon then
              TryReturn [ ("latitude", VStr (py_str py_repr lat));
                          ("longitude", VStr (py_str py_repr lon)) ]
            else scan_candidates rest
        | Some _ => TryRaise AttributeError
        end
      else scan_candidates rest
  end.

Fixpoint coordinates_of_scripts (scripts : list (option string))
  : option (list (string * pyval)) :=
  match scripts with
  | [] => None
  | script :: rest =>
      let content := match script with Some s => s | None => "" end in
      if negb (nonempty content) then coordinates_of_scripts rest
      else if contains "latitude" content && contains "longitude" content then
        match scan_candidates (findall_braces None content) with
        | TryReturn coords => Some coords
        | TryDone => coordinates_of_scripts rest
        | TryRaise _ =>
            match coord_search "latitude" content,
                  coord_search "longitude" content with
            | Some lat, Some lon =>
                Some [ ("latitude", VStr lat); ("longitude", VStr lon) ]
            | _, _ => coordinates_of_scripts rest
            end
        end
      else coordinates_of_scripts rest
  end.

Definition _extract_coordinates_from_scripts (soup : Tag)
  : option (list (string * pyval)) :=
  coordinates_of_scripts (script_strings soup).

Definition description_selectors : list string :=
  [ "p[data-testid*=listing-description]"; "div[data-testid*=description] p";
    "div[class*=description] p" ].
Definition epc_rating_selectors : list string :=
  [ "span[data-testid*=epc-rating]"; "span[class*=epc-rating]" ].
Definition agent_phone_selectors : list string :=
  [ "a[href^='tel:']"; "span[class*=agent-phone]" ].
Definition detail_address_selectors : list string :=
  [ "address"; "p[data-testid*=address]" ].
Definition features_selectors : list string :=
  [ "ul[data-testid*=features] li"; "ul[class*=features] li" ].

(** [if found: listing.field = found.strip()] *)
Definition strip_if_found (found old : option string) : option string :=
  match found with
  | Some s => if nonempty s then Some (py_strip s) else old
  | None => old
  end.

(** The feature loop: the texts of the list items of each selector in turn,
    without the empty ones and without repeats. *)
Definition collect_features (soup : Tag) : list string :=
  fold_left
    (fun features sel =>
       fold_left
         (fun features li =>
            let text := get_text li "" in
            if nonempty text && negb (str_in text features)
            then features ++ [text] else features)
         (select soup sel) features)
    features_selectors [].

(** The image loop, before [dict.fromkeys]. *)
Definition collect_images (soup : Tag) : list string :=
  fold_left
    (fun images src =>
       if existsb (fun x => contains x src) [ "lid.zoocdn.com"; "zoocdn.com" ]
       then images ++ [_normalize_url src base_url] else images)
    (select_attr soup "img[src]" "src") [].

(** The listing after [_enrich_from_detail_page(listing, soup)] has mutated
    it. *)
Definition _enrich_from_detail_page (l : PropertyListing) (soup : Tag)
  : PropertyListing :=
  let description_ := _extract_text soup description_selectors in
  let epc_rating := _extract_text soup epc_rating_selectors in
  let epc_img := head (select_attr soup "img[src*='epc']" "src") in
  let agent_phone := _extract_text soup agent_phone_selectors in
  let address_ := _extract_text soup detail_address_selectors in
  let coords := _extract_coordinates_from_scripts soup in
  {| title := title l;
     uprn := uprn l;
     address := strip_if_found address_ (address l);
     epc := match epc_img with
            | Some src =>
                if nonempty src then Some (_normalize_url src base_url)
                else epc l
            | None => epc l
            end;
     epcRating := strip_if_found epc_rating (epcRating l);
     bedrooms := bedrooms l;
     bathrooms := bathrooms l;
     livingroom := livingroom l;
     price := price l;
     description := strip_if_found description_ (description l);
     coordinates := match coords with
                    | Some (_ :: _) => coords
                    | _ => coordinates l
                    end;
     category := category l;
     type := type l;
     agent := agent l;
     agentPhone := strip_if_found agent_phone (agentPhone l);
     images := fromkeys (collect_images soup);
     priceHistory := priceHistory l;
     pointsOfInterest := pointsOfInterest l;
     propertyType := propertyType l;
     postalCode := _extract_postcode
                     (match address_ with
                      | Some a => if nonempty a then a else ""
                      | None => ""
                      end);
     features := collect_features soup;
     url := url l |}.

(** [max_results is not None and len(listings) >= max_results] *)
Definition cap_reached (max_results : option Z) (listings : list listing)
  : bool :=
  match max_results with
  | Some m => (m <=? Z.of_nat (length listings))%Z
  | None => false
  end.

(** The [for card in cards] loop of [scrape_search], as it runs when no
    call raises an exception that the scraper leaves uncaught;
    [scrape_cards_exn] below is the loop with these exceptions. *)
Fixpoint scrape_cards (cards : list Tag) (search_url : string)
    (max_results : option Z) (listings : list listing) : M (list listing) :=
  match cards with
  | [] => ret listings
  | card :: rest =>
      if cap_reached max_results listings then ret listings
      else
        let summary := _parse_listing_card card search_url in
        match url summary with
        | Some detail_url =>
            if nonempty detail_url then
              let* detail_html := _safe_get detail_url in
              let summary :=
                match detail_html with
                | Some html =>
                    if nonempty html
                    then _enrich_from_detail_page summary (BeautifulSoup html)
                    else summary
                | None => summary
                end in
              scrape_cards rest search_url max_results
                (listings ++ [asdict summary])
            else
              scrape_cards rest search_url max_results
                (listings ++ [asdict summary])
        | None =>
            scrape_cards rest search_url max_results
              (listings ++ [asdict summary])
        end
  end.

Definition scrape_search (search_url : string) (max_results : option Z)
  : M (list listing) :=
  let* html := _safe_get search_url in
  match html with
  | None => ret []
  | Some html =>
      let soup := BeautifulSoup html in
      let cards := _find_listing_cards soup in
      scrape_cards cards search_url max_results []
  end.

(** The request number [t] for [url_] fails: the transport raises, or the
    status is one [raise_for_status] rejects. *)
Definition fetch_fails (t : nat) (url_ : string) : bool :=
  match session_get t url_ with
  | inr _ => true
  | inl resp => (400 <=? status_code resp)%Z && (status_code resp <? 600)%Z
  end.

(** *** zoopla_parser.py: the exceptions that are not caught

    [urljoin] and [urlparse] raise [ValueError] on some texts (an href such
    as [http://[], which opens an IPv6 host and never closes it),
    [time.sleep] raises it for a negative delay, and [session.get] can raise
    exceptions that are not [RequestException]s (for a timeout of zero,
    say).  Nothing in zoopla_parser.py catches them.  The
    definitions above give what each function returns when none of them is
    raised; the definitions below say when one is raised and run the fetch
    and the scraping loop with them. *)

(** [urljoin(base, href)] raises [ValueError]; [urlparse(base)] raises
    [ValueError]. *)
Variable urljoin_raises : string -> string -> bool.
Variable urlparse_raises : string -> bool.

(** [self.session.get(url, timeout=...)] for the request number [t] raises
    an exception that is not a [RequestException]. *)
Variable session_get_fault : nat -> string -> bool.

(** [time.sleep(self.request_delay_seconds)] raises [ValueError]: the delay
    of the scraper is negative. *)
Variable sleep_raises : bool.

(** [_normalize_url(href, base)] raises. *)
Definition _normalize_url_raises (href base : string) : bool :=
  let href := py_strip href in
  if String.prefix "//" href
  then urlparse_raises base
       || urljoin_raises base (urlparse_scheme base +:+ ":" +:+ href)
  else urljoin_raises base href.

(** [_parse_listing_card(card, base_page_url)] raises: the card has a link
    whose [href] cannot be normalised. *)
Definition _parse_listing_card_raises (card : Tag) (base_page_url : string)
  : bool :=
  match find_a_href card with
  | Some href => _normalize_url_raises href base_page_url
  | None => false
  end.

(** [_enrich_from_detail_page(listing, soup)] raises: the source of the EPC
    image or of a CDN image cannot be normalised. *)
Definition _enrich_from_detail_page_raises (soup : Tag) : bool :=
  match head (select_attr soup "img[src*='epc']" "src") with
  | Some src => nonempty src && _normalize_url_raises src base_url
  | None => false
  end
  || existsb
       (fun src =>
          existsb (fun x => contains x src) [ "lid.zoocdn.com"; "zoocdn.com" ]
          && _normalize_url_raises src base_url)
       (select_attr soup "img[src]" "src").

(** [_safe_get] with the exceptions its [except] clause lets through. *)
Definition _safe_get_exn (url_ : string) : M (option string) :=
  try_except
    (let* resp := (fun t => if session_get_fault t url_
                            then (Raise TransportError, S t)
                            else match session_get t url_ with
                                 | inl r => (Ok r, S t)
                                 | inr msg =>
                                     (Raise (RequestException msg), S t)
                                 end) in
     let* _ := (if sleep_raises then raise ValueError else ret tt) in
     let* _ := raise_for_status resp in
     ret (Some (text resp)))
    is_RequestException
    (fun _ => ret None).

(** The [for card in cards] loop of [scrape_search] with the exceptions of
    the two phases. *)
Fixpoint scrape_cards_exn (cards : list Tag) (search_url : string)
    (max_results : option Z) (listings : list listing) : M (list listing) :=
  match cards with
  | [] => ret listings
  | card :: rest =>
      if cap_reached max_results listings then ret listings
      else if _parse_listing_card_raises card search_url
      then raise ValueError
      else
        let summary := _parse_listing_card card search_url in
        match url summary with
        | Some detail_url =>
            if nonempty detail_url then
              let* detail_html := _safe_get_exn detail_url in
              let* summary :=
                match detail_html with
                | Some html =>
                    if nonempty html then
                      if _enrich_from_detail_page_raises (BeautifulSoup html)
                      then raise ValueError
                      else ret (_enrich_from_detail_page summary
                                  (BeautifulSoup html))
                    else ret summary
                | None => ret summary
                end in
              scrape_cards_exn rest search_url max_results
                (listings ++ [asdict summary])
            else
              scrape_cards_exn rest search_url max_results
                (listings ++ [asdict summary])
        | None =>
            scrape_cards_exn rest search_url max_results
              (listings ++ [asdict summary])
        end
  end.

(** [scrape_search] with the exceptions it lets through. *)
Definition scrape_search_exn (search_url : string) (max_results : option Z)
  : M (list listing) :=
  let* html := _safe_get_exn search_url in
  match html with
  | None => ret []
  | Some html =>
      let soup := BeautifulSoup html in
      let cards := _find_listing_cards soup in
      scrape_cards_exn cards search_url max_results []
  end.

(** *** utils_filters.py *)

Fixpoint _build_id_key (l : listing) (id_fields : list string)
  : option string :=
  match id_fields with
  | [] => None
  | field :: rest =>
      let value := dict_get l field in
      if truthy value then Some (field +:+ ":" +:+ py_str py_repr value)
      else _build_id_key l rest
  end.

(** Default value of the [id_fields] argument. *)
Definition default_id_fields : list string := [ "uprn"; "url" ].

(** The loop of [deduplicate_listings], its locals [seen] and [unique] as
    accumulators. *)
Fixpoint dedup_loop (listings : list listing) (id_fields : list string)
    (seen : gset string) (unique : list listing) : list listing :=
  match listings with
  | [] => unique
  | l :: rest =>
      match _build_id_key l id_fields with
      | None => dedup_loop rest id_fields seen (unique ++ [l])
      | Some key =>
          if decide (key ∈ seen) then dedup_loop rest id_fields seen unique
          else dedup_loop rest id_fields ({[key]} ∪ seen) (unique ++ [l])
      end
  end.

Definition deduplicate_listings (listings : list listing)
    (id_fields : list string) : list listing :=
  dedup_loop listings id_fields ∅ [].

(** [with path.open(...) as f: data = json.load(f)] *)
Definition read_json (path : string) : outcome pyval :=
  match fs path with
  | Content s =>
      match json_loads s with
      | Some data => Ok data
      | None => Raise JSONDecodeError
      end
  | _ => Raise OSError
  end.

(** [if not path.exists(): return []] stands before the [try] block, so an
    [OSError] of the existence test is not caught. *)
Definition load_snapshot (path : string) : outcome (list pyval) :=
  match fs path with
  | Inaccessible => Raise OSError
  | Absent => Ok []
  | _ =>
      match
        match read_json path with
        | Ok data =>
            match data with
            | VList l => Ok l
            | _ => Ok []
            end
        | Raise e => Raise e
        end
      with
      | Raise _ => Ok []
      | r => r
      end
  end.

(** An index-building loop of [compute_deltas]. *)
Fixpoint build_index (ls : list listing) (id_fields : list string)
    (index : list (string * listing)) : list (string * listing) :=
  match ls with
  | [] => index
  | l :: rest =>
      let key := _build_id_key l id_fields in
      if truthy_opt key then
        match key with
        | Some k => build_index rest id_fields (dict_set index k l)
        | None => build_index rest id_fields index
        end
      else build_index rest id_fields index
  end.

(** A filtering loop of [compute_deltas]: the listings of [index] whose key
    is not in [other], in [items()] order. *)
Fixpoint missing_from (index other : list (string * listing))
    (acc : list listing) : list listing :=
  match index with
  | [] => acc
  | (key, l) :: rest =>
      if negb (dict_mem other key) then missing_from rest other (acc ++ [l])
      else missing_from rest other acc
  end.

Definition compute_deltas (current previous : list listing)
    (id_fields : list string) : list listing * list listing :=
  let prev_index := build_index previous id_fields [] in
  let curr_index := build_index current id_fields [] in
  let new_listings := missing_from curr_index prev_index [] in
  let delisted_listings := missing_from prev_index curr_index [] in
  (new_listings, delisted_listings).

(** *** utils_filters.py: [save_snapshot] *)

(** [json.dump(listings, f, ensure_ascii=False, indent=2)]: the text it
    writes. *)
Variable json_dump_indent : pyval -> string.

(** [path.parent.mkdir(parents=True, exist_ok=True)] followed by
    [path.open("w")] and the writes of [text_]: [None] when [mkdir] or [open]
    raises and the file is left as it was, otherwise what is at the path
    afterwards. *)
Variable write_file : string -> string -> option file_state.

(** The file system after [save_snapshot(path, listings)]; the exception of
    a failed write is logged and dropped. *)
Definition save_snapshot (path : string) (listings : list listing)
  : string -> file_state :=
  match write_file path (json_dump_indent (VList (map VDict listings))) with
  | Some st => fun p => if String.eqb p path then st else fs p
  | None => fs
  end.

(** *** runner.py: the scraping loop and the monitoring block of
    [run_scraper] *)

(** [for url in search_urls: try: ... all_listings.extend(listings) except
    Exception: ...]; whatever [scrape_search] raises is caught here. *)
Fixpoint collect_listings (search_urls : list string)
    (max_per_search : option Z) (all_listings : list listing)
  : M (list listing) :=
  match search_urls with
  | [] => ret all_listings
  | url_ :: rest =>
      let* all_listings :=
        try_except
          (let* listings := scrape_search_exn url_ max_per_search in
           ret (all_listings ++ listings))
          (fun _ => true)
          (fun _ => ret all_listings) in
      collect_listings rest max_per_search all_listings
  end.

(** [compute_deltas] calls [.get] on every element of [previous]; the
    snapshot that [load_snapshot] returns may hold elements that are not
    dictionaries, and [.get] on one of them raises [AttributeError]. *)
Fixpoint records_of (data : list pyval) : outcome (list listing) :=
  match data with
  | [] => Ok []
  | VDict d :: rest =>
      match records_of rest with
      | Ok ds => Ok (d :: ds)
      | Raise e => Raise e
      end
  | _ :: _ => Raise AttributeError
  end.

(** The body of [if monitoring_enabled:] in [run_scraper]: load the previous
    snapshot, compare, save the current listings.  The result is the pair
    (new, delisted) and the file system afterwards; when [compute_deltas]
    raises, [save_snapshot] is not reached. *)
Definition run_monitoring (unique_listings : list listing)
    (snapshot_file : string)
  : outcome (list listing * list listing) * (string -> file_state) :=
  match load_snapshot snapshot_file with
  | Ok previous_snapshot =>
      match records_of previous_snapshot with
      | Ok previous =>
          (Ok (compute_deltas unique_listings previous default_id_fields),
           save_snapshot snapshot_file unique_listings)
      | Raise e => (Raise e, fs)
      end
  | Raise e => (Raise e, fs)
  end.

(** What [run_scraper] hands to [export_datasets], or that it returned
    before because nothing was collected. *)
Inductive run_result : Type :=
  | NothingCollected
  | Exported (all_listings new_listings delisted_listings : list listing).

(** [run_scraper] from the scraping loop to the snapshot update (the reads
    of the configuration before and the export call after are left out). *)
Definition run_scraper_core (search_urls : list string)
    (max_per_search : option Z) (monitoring_enabled : bool)
    (snapshot_file : string)
  : M (run_result * (string -> file_state)) :=
  let* all_listings := collect_listings search_urls max_per_search [] in
  match all_listings with
  | [] => ret (NothingCollected, fs)
  | _ :: _ =>
      let unique_listings :=
        deduplicate_listings all_listings default_id_fields in
      if monitoring_enabled then
        match run_monitoring unique_listings snapshot_file with
        | (Ok (new_listings, delisted_listings), fs') =>
            ret (Exported unique_listings new_listings delisted_listings, fs')
        | (Raise e, fs') => raise e
        end
      else ret (Exported unique_listings [] [], fs)
  end.

(** The selectors [_find_listing_cards] tries, in order. *)
Definition listing_card_selectors : list string :=
  [ "article[data-testid*=listing]"; "div[data-testid*=listing]";
    "div[class*=ListingCard]"; "article" ].

(** The field names of [PropertyListing], in declaration order. *)
Definition listing_keys : list string :=
  [ "title"; "uprn"; "address"; "epc"; "epcRating"; "bedrooms"; "bathrooms";
    "livingroom"; "price"; "description"; "coordinates"; "category"; "type";
    "agent"; "agentPhone"; "images"; "priceHistory"; "pointsOfInterest";
    "propertyType"; "postalCode"; "features"; "url" ].

(** The listing has an identity key. *)
Definition keyed (id_fields : list string) (l : listing) : bool :=
  match _build_id_key l id_fields with Some _ => true | None => false end.

(** * Properties *)

Local Open Scope nat_scope.

(** ** Identity keys *)

Lemma append_colon_nonempty (f v : string) : f +:+ ":" +:+ v ≠ "".
Proof. destruct f; discriminate. Qed.

Lemma build_id_key_nonempty (l : listing) (fields : list string) (k : string) :
  _build_id_key l fields = Some k → k ≠ "".
Proof.
  induction fields as [|f fields IH]; simpl; [discriminate|].
  destruct (truthy (dict_get l f)); [|exact IH].
  intros [= <-]. apply append_colon_nonempty.
Qed.

Lemma truthy_opt_key (l : listing) (fields : list string) :
  truthy_opt (_build_id_key l fields)
  = match _build_id_key l fields with Some _ => true | None => false end.
Proof.
  destruct (_build_id_key l fields) as [k|] eqn:E; simpl; [|reflexivity].
  apply build_id_key_nonempty in E.
  destruct k; [congruence | reflexivity].
Qed.




(** ** De-duplication *)

(** The accumulator [unique] is only ever extended. *)
Lemma dedup_loop_acc (ls : list listing) (fields : list string)
    (seen : gset string) (unique : list listing) :
  dedup_loop ls fields seen unique = unique ++ dedup_loop ls fields seen [].
Proof.
  revert seen unique.
  induction ls as [|x ls IH]; intros seen unique; simpl.
  - by rewrite app_nil_r.
  - destruct (_build_id_key x fields) as [k|].
    + destruct (decide (k ∈ seen)); [apply IH|].
      rewrite (IH _ (unique ++ [x])), (IH _ [x]). by rewrite <- app_assoc.
    + rewrite (IH _ (unique ++ [x])), (IH _ [x]). by rewrite <- app_assoc.
Qed.

(** After the loop has walked [pre], [seen] holds the keys it started with
    and the keys of [pre]. *)
Lemma dedup_loop_app (pre rest : list listing) (fields : list string)
    (seen : gset string) (unique : list listing) :
  ∃ seen' : gset string,
    (∀ k, k ∈ seen'
          ↔ k ∈ seen ∨ ∃ y, y ∈ pre ∧ _build_id_key y fields = Some k)
    ∧ dedup_loop (pre ++ rest) fields seen unique
      = dedup_loop rest fields seen' (dedup_loop pre fields seen unique).
Proof.
  revert seen unique.
  induction pre as [|x pre IH]; intros seen unique; simpl.
  - exists seen. split; [|reflexivity].
    intros k. split; [auto|]. intros [H|(y & Hy & _)]; [done|].
    by apply elem_of_nil in Hy.
  - destruct (_build_id_key x fields) as [kx|] eqn:Ex.
    + destruct (decide (kx ∈ seen)) as [Hin|Hnin].
      * destruct (IH seen unique) as (seen' & Hs & Heq).
        exists seen'. split; [|exact Heq].
        intros k. rewrite Hs. split.
        -- intros [H|(y & Hy & Hk)]; [by left|].
           right. exists y. split; [by apply list_elem_of_further | done].
        -- intros [H|(y & Hy & Hk)]; [by left|].
           apply elem_of_cons in Hy as [->|Hy].
           ++ left. congruence.
           ++ right. by exists y.
      * destruct (IH ({[kx]} ∪ seen) (unique ++ [x])) as (seen' & Hs & Heq).
        exists seen'. split; [|exact Heq].
        intros k. rewrite Hs. split.
        -- intros [H|(y & Hy & Hk)].
           ++ apply elem_of_union in H as [H|H]; [|by left].
              apply elem_of_singleton in H as ->.
              right. exists x. split; [by apply list_elem_of_here | done].
           ++ right. exists y. split; [by apply list_elem_of_further | done].
        -- intros [H|(y & Hy & Hk)]; [left; apply elem_of_union; by right|].
           apply elem_of_cons in Hy as [->|Hy].
           ++ left. assert (k = kx) as -> by congruence.
              apply elem_of_union; left. by apply elem_of_singleton.
           ++ right. by exists y.
    + destruct (IH seen (unique ++ [x])) as (seen' & Hs & Heq).
      exists seen'. split; [|exact Heq].
      intros k. rewrite Hs. split.
      * intros [H|(y & Hy & Hk)]; [by left|].
        right. exists y. split; [by apply list_elem_of_further | done].
      * intros [H|(y & Hy & Hk)]; [by left|].
        apply elem_of_cons in Hy as [->|Hy]; [congruence|].
        right. by exists y.
Qed.

(** What the loop does with the listing that comes after [pre]. *)
Lemma deduplicate_snoc (pre : list listing) (x : listing)
    (fields : list string) :
  (_build_id_key x fields = None →
   deduplicate_listings (pre ++ [x]) fields
   = deduplicate_listings pre fields ++ [x])
  ∧ (∀ k, _build_id_key x fields = Some k →
       (∃ y, y ∈ pre ∧ _build_id_key y fields = Some k) →
       deduplicate_listings (pre ++ [x]) fields
       = deduplicate_listings pre fields)
  ∧ (∀ k, _build_id_key x fields = Some k →
       (∀ y, y ∈ pre → _build_id_key y fields ≠ Some k) →
       deduplicate_listings (pre ++ [x]) fields
       = deduplicate_listings pre fields ++ [x]).
Proof.
  unfold deduplicate_listings.
  destruct (dedup_loop_app pre [x] fields ∅ []) as (seen' & Hs & ->).
  simpl. repeat split.
  - intros ->. reflexivity.
  - intros k -> Hex. rewrite decide_True; [reflexivity|].
    apply Hs. by right.
  - intros k -> Hall. rewrite decide_False; [reflexivity|].
    intros Hin. apply Hs in Hin as [Hin|(y & Hy & Hk)].
    + by apply not_elem_of_empty in Hin.
    + by apply (Hall y).
Qed.

(** C2.  [deduplicate_listings] walks the listings in order: the empty
    sequence gives the empty result, and the listing [x] that comes after
    the listings [pre] is appended to the result for [pre] when it has no
    identity key or when no listing of [pre] has its key, and is dropped
    when some listing of [pre] has its key.  So the result keeps first-seen
    order, drops exactly the listings whose key an earlier listing already
    has, and keeps every listing without a key.  Of two listings that carry
    the same URL and no reference number, whatever their titles, only the
    first is kept under the default priority. *)
Theorem deduplicate_first_seen (fields : list string) :
  deduplicate_listings [] fields = []
  ∧ (∀ pre x,
       _build_id_key x fields = None →
       deduplicate_listings (pre ++ [x]) fields
       = deduplicate_listings pre fields ++ [x])
  ∧ (∀ pre x k,
       _build_id_key x fields = Some k →
       (∃ y, y ∈ pre ∧ _build_id_key y fields = Some k) →
       deduplicate_listings (pre ++ [x]) fields
       = deduplicate_listings pre fields)
  ∧ (∀ pre x k,
       _build_id_key x fields = Some k →
       (∀ y, y ∈ pre → _build_id_key y fields ≠ Some k) →
       deduplicate_listings (pre ++ [x]) fields
       = deduplicate_listings pre fields ++ [x])
  ∧ (∀ l1 l2 u,
       u ≠ "" →
       dict_get l1 "url" = VStr u → dict_get l2 "url" = VStr u →
       truthy (dict_get l1 "uprn") = false →
       truthy (dict_get l2 "uprn") = false →
       deduplicate_listings [l1; l2] default_id_fields = [l1]).
Proof.
  split; [reflexivity|].
  split; [intros pre x; apply (deduplicate_snoc pre x fields)|].
  split; [intros pre x; apply (deduplicate_snoc pre x fields)|].
  split; [intros pre x; apply (deduplicate_snoc pre x fields)|].
  intros l1 l2 u Hu H1 H2 U1 U2.
  assert (Hk : ∀ l, dict_get l "url" = VStr u →
                    truthy (dict_get l "uprn") = false →
                    _build_id_key l default_id_fields = Some ("url:" +:+ u)).
  { intros l Hl Ul. simpl. rewrite Ul, Hl. simpl.
    destruct u; [congruence | reflexivity]. }
  unfold deduplicate_listings. cbn [dedup_loop].
  rewrite (Hk l1 H1 U1), (Hk l2 H2 U2).
  rewrite decide_False by apply not_elem_of_empty.
  rewrite decide_True; [reflexivity|].
  apply elem_of_union. left. by apply elem_of_singleton.
Qed.

(** A list whose keyed listings have pairwise different keys, none of them
    seen, passes through the loop unchanged. *)
Lemma dedup_loop_distinct (ls : list listing) (fields : list string)
    (seen : gset string) (unique : list listing) :
  NoDup (omap (fun y => _build_id_key y fields) ls) →
  (∀ k, k ∈ omap (fun y => _build_id_key y fields) ls → k ∉ seen) →
  dedup_loop ls fields seen unique = unique ++ ls.
Proof.
  revert seen unique.
  induction ls as [|x ls IH]; intros seen unique Hnd Hfresh; simpl.
  - by rewrite app_nil_r.
  - simpl in Hnd, Hfresh.
    destruct (_build_id_key x fields) as [k|] eqn:Ex; simpl in Hnd, Hfresh.
    + apply NoDup_cons in Hnd as [Hk Hnd].
      rewrite decide_False by (apply Hfresh; apply list_elem_of_here).
      rewrite IH; [by rewrite <- app_assoc | exact Hnd |].
      intros k' Hk' Hin. apply elem_of_union in Hin as [Hin|Hin].
      * apply elem_of_singleton in Hin as ->. contradiction.
      * apply (Hfresh k'); [by apply list_elem_of_further | exact Hin].
    + rewrite IH; [by rewrite <- app_assoc | exact Hnd | exact Hfresh].
Qed.

(** The keyed listings the loop lets through have pairwise different keys,
    none of them seen before. *)
Lemma dedup_loop_keys (ls : list listing) (fields : list string)
    (seen : gset string) :
  NoDup (omap (fun y => _build_id_key y fields) (dedup_loop ls fields seen []))
  ∧ ∀ k, k ∈ omap (fun y => _build_id_key y fields)
                  (dedup_loop ls fields seen []) → k ∉ seen.
Proof.
  revert seen.
  induction ls as [|x ls IH]; intros seen; simpl.
  - split; [constructor | intros k Hk; by apply elem_of_nil in Hk].
  - destruct (_build_id_key x fields) as [k|] eqn:Ex.
    + destruct (decide (k ∈ seen)) as [Hin|Hnin]; [apply IH|].
      rewrite dedup_loop_acc. simpl. rewrite Ex. simpl.
      destruct (IH ({[k]} ∪ seen)) as [Hnd Hfresh].
      split.
      * apply NoDup_cons. split; [|exact Hnd].
        intros Hk. apply (Hfresh k Hk).
        apply elem_of_union. left. by apply elem_of_singleton.
      * intros k' Hk'. apply elem_of_cons in Hk' as [->|Hk']; [exact Hnin|].
        intros Hin. apply (Hfresh k' Hk'). apply elem_of_union. by right.
    + rewrite dedup_loop_acc. simpl. rewrite Ex. apply IH.
Qed.

(** C5.  De-duplicating a de-duplicated sequence changes nothing: the two
    results are the same list, so they hold the same listings in the same
    first-seen order. *)
Theorem deduplicate_idempotent (ls : list listing) (fields : list string) :
  deduplicate_listings (deduplicate_listings ls fields) fields
  = deduplicate_listings ls fields.
Proof.
  unfold deduplicate_listings.
  destruct (dedup_loop_keys ls fields ∅) as [Hnd Hfresh].
  by rewrite dedup_loop_distinct.
Qed.

(** ** Deltas between two runs *)

Lemma dict_mem_elem {V : Type} (d : list (string * V)) (k : string) (v : V) :
  (k, v) ∈ d → dict_mem d k = true.
Proof.
  induction d as [|[k' v'] d IH]; intros H.
  - by apply elem_of_nil in H.
  - simpl. destruct (String.eqb k' k) eqn:E; [reflexivity|].
    apply elem_of_cons in H as [[= -> ->]|H]; [|by apply IH].
    by rewrite String.eqb_refl in E.
Qed.

Lemma dict_set_elem {V : Type} (d : list (string * V)) (k k' : string)
    (v v' : V) :
  (k', v') ∈ dict_set d k v → (k', v') ∈ d ∨ (k' = k ∧ v' = v).
Proof.
  induction d as [|[k0 v0] d IH]; simpl; intros H.
  - apply list_elem_of_singleton in H as [= -> ->]. by right.
  - destruct (String.eqb k0 k) eqn:E.
    + apply String.eqb_eq in E as ->.
      apply elem_of_cons in H as [[= -> ->]|H]; [by right|].
      left. by apply list_elem_of_further.
    + apply elem_of_cons in H as [[= -> ->]|H].
      * left. apply list_elem_of_here.
      * destruct (IH H) as [H'|H']; [|by right].
        left. by apply list_elem_of_further.
Qed.

(** Every entry of an index is filed under the identity key of its
    listing. *)
Lemma build_index_keys (ls : list listing) (fields : list string)
    (index : list (string * listing)) :
  (∀ k l, (k, l) ∈ index → _build_id_key l fields = Some k) →
  ∀ k l, (k, l) ∈ build_index ls fields index →
         _build_id_key l fields = Some k.
Proof.
  revert index.
  induction ls as [|x ls IH]; intros index Hidx; simpl; [exact Hidx|].
  rewrite truthy_opt_key.
  destruct (_build_id_key x fields) as [kx|] eqn:Ex; [|by apply IH].
  apply IH. intros k l H.
  apply dict_set_elem in H as [H|[-> ->]]; [by apply Hidx | exact Ex].
Qed.

Lemma missing_from_elem (index other : list (string * listing))
    (acc : list listing) (l : listing) :
  l ∈ missing_from index other acc → l ∈ acc ∨ ∃ k, (k, l) ∈ index.
Proof.
  revert acc.
  induction index as [|[k0 l0] index IH]; intros acc; simpl; [by left|].
  destruct (dict_mem other k0); simpl; intros H; apply IH in H.
  - destruct H as [H|(k & H)]; [by left|].
    right. exists k. by apply list_elem_of_further.
  - destruct H as [H|(k & H)].
    + apply elem_of_app in H as [H|H]; [by left|].
      apply list_elem_of_singleton in H as ->.
      right. exists k0. apply list_elem_of_here.
    + right. exists k. by apply list_elem_of_further.
Qed.

Lemma missing_from_covered (index other : list (string * listing))
    (acc : list listing) :
  (∀ k l, (k, l) ∈ index → dict_mem other k = true) →
  missing_from index other acc = acc.
Proof.
  revert acc.
  induction index as [|[k0 l0] index IH]; intros acc H; simpl; [reflexivity|].
  rewrite (H k0 l0) by apply list_elem_of_here. simpl.
  apply IH. intros k l Hin. apply (H k l). by apply list_elem_of_further.
Qed.

Lemma compute_deltas_same (ls : list listing) (fields : list string) :
  compute_deltas ls ls fields = ([], []).
Proof.
  unfold compute_deltas.
  rewrite missing_from_covered; [reflexivity|].
  intros k l. apply dict_mem_elem.
Qed.

(** C3.  A listing without an identity key is in neither index that
    [compute_deltas] builds, and so in neither the new nor the delisted
    result, whatever the other side holds. *)
Theorem compute_deltas_skips_keyless (current previous : list listing)
    (fields : list string) (l : listing) :
  _build_id_key l fields = None →
  (∀ k, (k, l) ∉ build_index current fields [])
  ∧ (∀ k, (k, l) ∉ build_index previous fields [])
  ∧ (l ∉ fst (compute_deltas current previous fields))
  ∧ (l ∉ snd (compute_deltas current previous fields)).
Proof.
  intros Hnone.
  assert (Hidx : ∀ ls k, (k, l) ∉ build_index ls fields []).
  { intros ls k H.
    apply (build_index_keys ls fields []) in H; [congruence|].
    intros k' l' H'. by apply elem_of_nil in H'. }
  split; [apply Hidx|]. split; [apply Hidx|].
  unfold compute_deltas; simpl. split.
  - intros H. apply missing_from_elem in H as [H|(k & H)].
    + by apply elem_of_nil in H.
    + by apply Hidx in H.
  - intros H. apply missing_from_elem in H as [H|(k & H)].
    + by apply elem_of_nil in H.
    + by apply Hidx in H.
Qed.

(** C4.  Comparing a sequence of listings that all have an identity key
    with itself gives no new and no delisted listing. *)
Theorem compute_deltas_self_empty (ls : list listing) (fields : list string) :
  Forall (fun l => _build_id_key l fields ≠ None) ls →
  compute_deltas ls ls fields = ([], []).
Proof. intros _. apply compute_deltas_same. Qed.

(** ** Snapshots *)

(** C7, as the code has it.  Once the existence test of the path has
    returned, [load_snapshot] returns a list and raises nothing: whatever
    opening, reading or parsing the file raises is caught.  The list is
    empty when the file is absent, when it cannot be read, when its text is
    not JSON, and when the JSON value is not an array; when the JSON value
    is an array, the list is that array, whatever its elements are. *)
Theorem load_snapshot_outcomes (path : string) :
  (fs path ≠ Inaccessible → ∃ l, load_snapshot path = Ok l)
  ∧ (fs path = Absent → load_snapshot path = Ok [])
  ∧ (fs path = Unreadable → load_snapshot path = Ok [])
  ∧ (∀ s, fs path = Content s → json_loads s = None →
          load_snapshot path = Ok [])
  ∧ (∀ s data, fs path = Content s → json_loads s = Some data →
               (∀ l, data ≠ VList l) → load_snapshot path = Ok [])
  ∧ (∀ s l, fs path = Content s → json_loads s = Some (VList l) →
            load_snapshot path = Ok l).
Proof.
  unfold load_snapshot, read_json.
  split; [|repeat split].
  - destruct (fs path) as [| | |s]; eauto; [congruence|].
    destruct (json_loads s) as [[]|]; eauto.
  - by intros ->.
  - by intros ->.
  - intros s -> ->. reflexivity.
  - intros s data -> -> H. destruct data; try reflexivity.
    by destruct (H l).
  - intros s l -> ->. reflexivity.
Qed.

(** The existence test is not guarded: when it raises, so does
    [load_snapshot]. *)
Lemma load_snapshot_exists_raises (path : string) :
  fs path = Inaccessible → load_snapshot path = Raise OSError.
Proof. unfold load_snapshot. by intros ->. Qed.

(** ** The pattern matcher *)

Lemma try_down_some {A : Type} (f : nat → option A) (lo n : nat) (r : A) :
  try_down f lo n = Some r → ∃ k, lo ≤ k ∧ k ≤ n ∧ f k = Some r.
Proof.
  induction n as [|n IH]; simpl.
  - destruct (0 <? lo) eqn:E; [discriminate|]. apply Nat.ltb_ge in E.
    destruct (f 0) eqn:F; [|discriminate].
    intros [= <-]. exists 0. auto.
  - destruct (S n <? lo) eqn:E; [discriminate|]. apply Nat.ltb_ge in E.
    destruct (f (S n)) eqn:F.
    + intros [= <-]. exists (S n). auto.
    + intros H. apply IH in H as (k & ? & ? & ?). exists k. auto with lia.
Qed.

Lemma try_down_complete {A : Type} (f : nat → option A) (lo n k : nat) :
  lo ≤ k → k ≤ n → is_Some (f k) → is_Some (try_down f lo n).
Proof.
  induction n as [|n IH]; intros Hlo Hn Hk; simpl.
  - assert (k = 0) as -> by lia.
    destruct (0 <? lo) eqn:E; [apply Nat.ltb_lt in E; lia|].
    destruct Hk as [r ->]. eauto.
  - destruct (S n <? lo) eqn:E; [apply Nat.ltb_lt in E; lia|].
    destruct (f (S n)) eqn:F; [eauto|].
    apply IH; [exact Hlo | | exact Hk].
    destruct (decide (k = S n)) as [->|]; [|lia].
    rewrite F in Hk. by destruct Hk.
Qed.

Section MatcherProperties.

Variable C : Type.
Variable word : C → bool.

Lemma span_len_take (p : C → bool) (cap : option nat) (s : list C)
    (k : nat) :
  k ≤ span_len p cap s → forallb p (take k s) = true ∧ length (take k s) = k.
Proof.
  revert cap k.
  induction s as [|c s IH]; intros cap k; simpl.
  - intros H. assert (k = 0) as -> by lia. auto.
  - destruct k as [|k]; [auto|].
    destruct (p c) eqn:P; [|lia].
    destruct cap as [[|h]|]; [lia| |]; intros H; simpl; rewrite P.
    + destruct (IH (Some h) k) as [-> ->]; [lia | auto].
    + destruct (IH None k) as [-> ->]; [lia | auto].
Qed.

Lemma span_len_cap (p : C → bool) (h : nat) (s : list C) :
  span_len p (Some h) s ≤ h.
Proof.
  revert h. induction s as [|c s IH]; intros h; simpl; [lia|].
  destruct (p c); [|lia]. destruct h as [|h]; [lia|].
  specialize (IH h). lia.
Qed.

Lemma span_len_ge (p : C → bool) (cap : option nat) (piece s : list C) :
  forallb p piece = true →
  (∀ h, cap = Some h → length piece ≤ h) →
  length piece ≤ span_len p cap (piece ++ s).
Proof.
  revert cap.
  induction piece as [|c piece IH]; intros cap Hp Hcap; simpl; [lia|].
  simpl in Hp. apply andb_true_iff in Hp as [-> Hp].
  destruct cap as [[|h]|].
  - specialize (Hcap 0 eq_refl). simpl in Hcap. lia.
  - specialize (IH (Some h) Hp). apply le_n_S, IH.
    intros h' [= <-]. specialize (Hcap (S h) eq_refl). simpl in Hcap. lia.
  - apply le_n_S, IH; [exact Hp | discriminate].
Qed.

(** The matcher only reports matches. *)
Lemma match_items_sound (items : list (re_item C)) :
  ∀ prev s pieces,
    match_items word items prev s = Some pieces →
    matches word items prev s pieces.
Proof.
  induction items as [|[p lo hi|] items IH]; intros prev s pieces; simpl.
  - intros [= <-]. constructor.
  - intros H. apply try_down_some in H as (k & Hlo & Hk & H).
    destruct (match_items word items _ (drop k s)) as [ps|] eqn:E;
      [|discriminate].
    injection H as <-.
    destruct (span_len_take p hi s k Hk) as [Hp Hlen].
    rewrite <- (take_drop k s) at 1.
    constructor; [exact Hp | lia | | by apply IH].
    intros h ->. pose proof (span_len_cap p h s). lia.
  - destruct (at_boundary word prev (head s)) eqn:B; [|discriminate].
    destruct (match_items word items prev s) as [ps|] eqn:E; [|discriminate].
    intros [= <-]. constructor; [exact B | by apply IH].
Qed.

(** The matcher finds a match whenever there is one. *)
Lemma match_items_complete (items : list (re_item C)) (prev : option C)
    (s : list C) (pieces : list (list C)) :
  matches word items prev s pieces →
  is_Some (match_items word items prev s).
Proof.
  induction 1 as [prev s|items prev s pieces B _ IH
                 |p lo hi items prev piece s pieces Hp Hlo Hhi _ IH]; simpl.
  - eauto.
  - rewrite B. destruct IH as [ps ->]. simpl. eauto.
  - apply (try_down_complete _ lo _ (length piece)).
    + exact Hlo.
    + by apply span_len_ge.
    + rewrite take_app_length, drop_app_length.
      destruct IH as [ps ->]. simpl. eauto.
Qed.

Lemma prev_after_cons (prev : option C) (c : C) (sk : list C) :
  prev_after prev (c :: sk) = prev_after (Some c) sk.
Proof.
  unfold prev_after. destruct sk as [|a sk]; [reflexivity|].
  rewrite last_cons_cons.
  destruct (last (a :: sk)) eqn:E; [reflexivity|].
  by apply last_None in E.
Qed.

(** A successful search stops at the leftmost position that has a match. *)
Lemma search_from_some (items : list (re_item C)) (s : list C) :
  ∀ prev start n pieces,
    search_from word items prev s start = Some (n, pieces) →
    ∃ sk s',
      s = sk ++ s' ∧ n = start + length sk
      ∧ matches word items (prev_after prev sk) s' pieces
      ∧ ∀ sk2 s2 ps, s = sk2 ++ s2 → length sk2 < length sk →
                     ¬ matches word items (prev_after prev sk2) s2 ps.
Proof.
  induction s as [|c s IH]; intros prev start n pieces; simpl.
  - destruct (match_items word items prev []) as [ps|] eqn:E; [|discriminate].
    intros [= <- <-]. exists [], []. repeat split; auto.
    + by apply match_items_sound.
    + simpl. intros; lia.
  - destruct (match_items word items prev (c :: s)) as [ps|] eqn:E.
    + intros [= <- <-]. exists [], (c :: s). repeat split; auto.
      * by apply match_items_sound.
      * simpl. intros; lia.
    + intros H. apply IH in H as (sk & s' & -> & -> & Hm & Hleft).
      exists (c :: sk), s'. repeat split.
      * simpl. lia.
      * by rewrite prev_after_cons.
      * intros sk2 s2 ps Heq Hlen Hm2.
        destruct sk2 as [|c2 sk2]; simpl in Heq.
        -- subst s2. apply match_items_complete in Hm2.
           unfold prev_after in Hm2. simpl in Hm2. rewrite E in Hm2.
           by destruct Hm2.
        -- injection Heq as <- Heq. rewrite prev_after_cons in Hm2.
           apply (Hleft sk2 s2 ps Heq); [simpl in Hlen; lia | exact Hm2].
Qed.

(** A failed search means that no position has a match. *)
Lemma search_from_none (items : list (re_item C)) (s : list C) :
  ∀ prev start,
    search_from word items prev s start = None →
    ∀ sk s' ps, s = sk ++ s' →
                ¬ matches word items (prev_after prev sk) s' ps.
Proof.
  induction s as [|c s IH]; intros prev start; simpl.
  - destruct (match_items word items prev []) as [ps|] eqn:E; [discriminate|].
    intros _ sk s' ps Heq Hm.
    symmetry in Heq. apply app_eq_nil in Heq as [-> ->].
    apply match_items_complete in Hm. unfold prev_after in Hm; simpl in Hm.
    rewrite E in Hm. by destruct Hm.
  - destruct (match_items word items prev (c :: s)) as [ps|] eqn:E;
      [discriminate|].
    intros H sk s' ps Heq Hm.
    destruct sk as [|c2 sk]; simpl in Heq.
    + subst s'. apply match_items_complete in Hm.
      unfold prev_after in Hm; simpl in Hm. rewrite E in Hm. by destruct Hm.
    + injection Heq as <- Heq. rewrite prev_after_cons in Hm.
      by apply (IH (Some c) (S start) H sk s' ps).
Qed.

Lemma prev_after_none (sk : list C) : prev_after None sk = last sk.
Proof. unfold prev_after. by destruct (last sk). Qed.

(** ** Postcodes

    The classes [[A-Z]], [\d] and [\s] of the pattern; every letter of
    [[A-Z]] is a word character. *)

Variable upper_case digit space : C → bool.
Hypothesis upper_case_word : ∀ c, upper_case c = true → word c = true.

(** The matches of the postcode pattern, spelled out. *)
Lemma postcode_pattern_matches (prev : option C) (s : list C)
    (pieces : list (list C)) :
  matches word (postcode_pattern upper_case digit space) prev s pieces
  ↔ ∃ area district sub gap d unit_ rest,
      pieces = [ []; area; district; sub; gap; [d]; unit_; [] ]
      ∧ s = area ++ district ++ sub ++ gap ++ [d] ++ unit_ ++ rest
      ∧ (forallb upper_case area = true ∧ 1 ≤ length area ≤ 2)
      ∧ (forallb digit district = true ∧ 1 ≤ length district ≤ 2)
      ∧ (forallb upper_case sub = true ∧ length sub ≤ 1)
      ∧ forallb space gap = true
      ∧ digit d = true
      ∧ (forallb upper_case unit_ = true ∧ length unit_ = 2)
      ∧ word_opt word prev = false
      ∧ word_opt word (head rest) = false.
Proof.
  unfold postcode_pattern. split.
  - intros H.
    inversion H as [|? ? ? ps1 B1 H1|]; subst; clear H.
    inversion H1 as [| |? ? ? ? ? area s1 ps2 Pa La Ua H2]; subst; clear H1.
    inversion H2 as [| |? ? ? ? ? district s2 ps3 Pd Ld Ud H3]; subst; clear H2.
    inversion H3 as [| |? ? ? ? ? sub s3 ps4 Ps Ls Us H4]; subst; clear H3.
    inversion H4 as [| |? ? ? ? ? gap s4 ps5 Pg Lg Ug H5]; subst; clear H4.
    inversion H5 as [| |? ? ? ? ? dd s5 ps6 Pdd Ldd Udd H6]; subst; clear H5.
    inversion H6 as [| |? ? ? ? ? unit_ s6 ps7 Pu Lu Uu H7]; subst; clear H6.
    inversion H7 as [|? ? ? ps8 B2 H8|]; subst; clear H7.
    inversion H8; subst; clear H8.
    specialize (Ua 2 eq_refl). specialize (Ud 2 eq_refl).
    specialize (Us 1 eq_refl). specialize (Udd 1 eq_refl).
    specialize (Uu 2 eq_refl).
    destruct dd as [|d [|? ?]]; simpl in Ldd, Udd; try lia.
    simpl in Pdd. rewrite andb_true_r in Pdd.
    destruct unit_ as [|u1 [|u2 [|? ?]]]; simpl in Lu, Uu; try lia.
    assert (Hprev : word_opt word prev = false).
    { destruct area as [|a1 area]; [simpl in La; lia|].
      simpl in Pa. apply andb_true_iff in Pa as [Pa1 _].
      unfold at_boundary in B1. simpl in B1.
      rewrite (upper_case_word _ Pa1) in B1.
      destruct (word_opt word prev); [simpl in B1; discriminate | reflexivity]. }
    assert (Hnext : word_opt word (head s6) = false).
    { pose proof Pu as Pu'. simpl in Pu'.
      apply andb_true_iff in Pu' as [_ Pu'].
      rewrite andb_true_r in Pu'.
      unfold at_boundary in B2. simpl in B2.
      rewrite (upper_case_word _ Pu') in B2.
      destruct (word_opt word (head s6));
        [simpl in B2; discriminate | reflexivity]. }
    exists area, district, sub, gap, d, [u1; u2], s6.
    repeat split; try assumption; try lia.
  - intros (area & district & sub & gap & d & unit_ & rest & -> & -> &
            [Pa La] & [Pd Ld] & [Ps Ls] & Pg & Pdd & [Pu Lu] & Hprev & Hnext).
    destruct area as [|a1 area]; [simpl in La; lia|].
    destruct unit_ as [|u1 [|u2 [|? ?]]]; simpl in Lu; try lia.
    pose proof Pa as Pa'. simpl in Pa'. apply andb_true_iff in Pa' as [Pa1 _].
    pose proof Pu as Pu'. simpl in Pu'. apply andb_true_iff in Pu' as [_ Pu2].
    rewrite andb_true_r in Pu2.
    constructor.
    { unfold at_boundary. simpl. rewrite Hprev, (upper_case_word _ Pa1).
      reflexivity. }
    constructor; [exact Pa | lia | intros ? [= <-]; lia |].
    constructor; [exact Pd | lia | intros ? [= <-]; lia |].
    constructor; [exact Ps | lia | intros ? [= <-]; lia |].
    constructor; [exact Pg | lia | discriminate |].
    apply (matches_cls C word digit 1 (Some 1) _ _ [d]);
      [simpl; by rewrite Pdd | simpl; lia | intros ? [= <-]; simpl; lia |].
    apply (matches_cls C word upper_case 2 (Some 2) _ _ [u1; u2] rest);
      [exact Pu | simpl; lia | intros ? [= <-]; simpl; lia |].
    constructor; [|constructor].
    unfold at_boundary, prev_after. simpl.
    rewrite Hnext, (upper_case_word _ Pu2). reflexivity.
Qed.

(** The occurrences of a postcode are the matches of the pattern. *)
Lemma postcode_at_matches (u pre : list C) :
  (∀ m post, postcode_at word upper_case digit space u pre m post →
             ∃ pieces,
               u = pre ++ m ++ post
               ∧ matches word (postcode_pattern upper_case digit space)
                   (last pre) (m ++ post) pieces)
  ∧ (∀ s pieces, u = pre ++ s →
       matches word (postcode_pattern upper_case digit space)
         (last pre) s pieces →
       ∃ m post, s = m ++ post ∧ concat pieces = m
                 ∧ postcode_at word upper_case digit space u pre m post).
Proof.
  split.
  - intros m post (-> & Hshape & Hpre & Hpost).
    destruct Hshape as (area & district & sub & gap & d & unit_ & -> &
                        Pa & La & Pd & Ld & Ps & Ls & Pg & Pdd & Pu & Lu).
    eexists. split; [reflexivity|].
    apply postcode_pattern_matches.
    exists area, district, sub, gap, d, unit_, post.
    split; [reflexivity|].
    split; [by rewrite <- !app_assoc|].
    repeat split; try assumption; try lia.
  - intros s pieces -> Hm.
    apply postcode_pattern_matches in Hm
      as (area & district & sub & gap & d & unit_ & rest & -> & -> &
          [Pa La] & [Pd Ld] & [Ps Ls] & Pg & Pdd & [Pu Lu] & Hprev & Hnext).
    exists (area ++ district ++ sub ++ gap ++ [d] ++ unit_), rest.
    split; [by rewrite <- !app_assoc|].
    split; [simpl; by rewrite !app_nil_r|].
    split; [by rewrite <- !app_assoc|]. split; [|split; assumption].
    exists area, district, sub, gap, d, unit_.
    split; [reflexivity|].
    repeat split; try assumption; try lia.
Qed.

(** A successful search of the postcode pattern returns the leftmost
    occurrence of a postcode. *)
Lemma postcode_search_some (u : list C) (n : nat) (pieces : list (list C)) :
  re_search word (postcode_pattern upper_case digit space) u
  = Some (n, pieces) →
  ∃ pre post,
    postcode_at word upper_case digit space u pre (concat pieces) post
    ∧ ∀ pre' m' post',
        postcode_at word upper_case digit space u pre' m' post' →
        length pre ≤ length pre'.
Proof.
  unfold re_search. intros E.
  apply search_from_some in E as (sk & s' & Hu & _ & Hm & Hleft).
  rewrite prev_after_none in Hm.
  destruct (postcode_at_matches u sk) as [_ H2].
  destruct (H2 s' pieces Hu Hm) as (m & post & -> & Hc & Hat).
  exists sk, post. rewrite Hc. split; [exact Hat|].
  intros pre' m' post' Hat'.
  destruct (le_lt_dec (length sk) (length pre')) as [|Hlt]; [assumption|].
  exfalso.
  destruct (postcode_at_matches u pre') as [H1 _].
  destruct (H1 _ _ Hat') as (ps & Hu' & Hm').
  apply (Hleft pre' (m' ++ post') ps); [exact Hu' | exact Hlt |].
  by rewrite prev_after_none.
Qed.

(** A failed search of the postcode pattern: the text holds no postcode. *)
Lemma postcode_search_none (u : list C) :
  re_search word (postcode_pattern upper_case digit space) u = None →
  ∀ pre m post, ¬ postcode_at word upper_case digit space u pre m post.
Proof.
  unfold re_search. intros E pre m post Hat.
  destruct (postcode_at_matches u pre) as [H1 _].
  destruct (H1 _ _ Hat) as (ps & Hu & Hm).
  apply (search_from_none _ _ _ _ E pre (m ++ post) ps Hu).
  by rewrite prev_after_none.
Qed.

(** A postcode starts and ends with a letter of [[A-Z]]. *)
Lemma postcode_shape_ends (m : list C) :
  postcode_shape upper_case digit space m →
  ∃ c1 c2, head m = Some c1 ∧ last m = Some c2
           ∧ upper_case c1 = true ∧ upper_case c2 = true.
Proof.
  intros (area & district & sub & gap & d & unit_ & -> &
          Pa & La & Pd & Ld & Ps & Ls & Pg & Pdd & Pu & Lu).
  destruct area as [|a1 area]; [simpl in La; lia|].
  destruct unit_ as [|u1 [|u2 [|? ?]]]; simpl in Lu; try lia.
  simpl in Pa. apply andb_true_iff in Pa as [Pa1 _].
  simpl in Pu. apply andb_true_iff in Pu as [_ Pu2].
  rewrite andb_true_r in Pu2.
  exists a1, u2. split; [reflexivity|]. split; [|by split].
  rewrite !app_assoc. change [u1; u2] with ([u1] ++ [u2]).
  rewrite app_assoc. apply last_snoc.
Qed.

End MatcherProperties.

(** ** The matcher under a change of characters

    [f] embeds the characters [C] into the characters [D], and the two word
    classes agree on the characters that satisfy [P].  Matching a text of
    such characters and matching its image then give the same result. *)

Lemma try_down_map {A B : Type} (h : A → B) (g1 : nat → option A)
    (g2 : nat → option B) (lo n : nat) :
  (∀ k, k ≤ n → g2 k = option_map h (g1 k)) →
  try_down g2 lo n = option_map h (try_down g1 lo n).
Proof.
  induction n as [|n IH]; intros H; simpl.
  - destruct (0 <? lo); [reflexivity|]. rewrite (H 0) by lia.
    by destruct (g1 0).
  - destruct (S n <? lo); [reflexivity|]. rewrite (H (S n)) by lia.
    destruct (g1 (S n)); [reflexivity|]. apply IH. intros k Hk. apply H. lia.
Qed.

Section MatcherMap.

Variables C D : Type.
Variable f : C → D.
Variable wordC : C → bool.
Variable wordD : D → bool.
Variable P : C → Prop.
Hypothesis word_agree : ∀ c, P c → wordD (f c) = wordC c.

Lemma last_map (l : list C) : last (map f l) = option_map f (last l).
Proof.
  induction l as [|a l IH]; [reflexivity|].
  destruct l as [|b l]; [reflexivity|]. exact IH.
Qed.

Lemma word_opt_map (o : option C) :
  (∀ c, o = Some c → P c) →
  word_opt wordD (option_map f o) = word_opt wordC o.
Proof. destruct o as [c|]; [|reflexivity]. intros H. by apply word_agree, H. Qed.

Lemma span_len_map (p : C → bool) (q : D → bool) (s : list C) :
  (∀ c, P c → q (f c) = p c) → Forall P s →
  ∀ cap, span_len q cap (map f s) = span_len p cap s.
Proof.
  intros Hpq. induction 1 as [|c s Hc _ IH]; intros cap; simpl; [reflexivity|].
  rewrite (Hpq c Hc). destruct (p c); [|reflexivity].
  destruct cap as [[|k]|]; [reflexivity | |]; by rewrite IH.
Qed.

Lemma prev_after_map (prev : option C) (piece : list C) :
  prev_after (option_map f prev) (map f piece)
  = option_map f (prev_after prev piece).
Proof. unfold prev_after. rewrite last_map. by destruct (last piece). Qed.

Lemma prev_after_in (prev : option C) (piece : list C) :
  (∀ c, prev = Some c → P c) → Forall P piece →
  ∀ c, prev_after prev piece = Some c → P c.
Proof.
  intros Hprev Hpiece c. unfold prev_after.
  destruct (last piece) as [x|] eqn:E; [|apply Hprev].
  intros [= <-]. apply last_Some_elem_of in E.
  rewrite Forall_forall in Hpiece. by apply Hpiece.
Qed.

Lemma match_items_map (itemsC : list (re_item C))
    (itemsD : list (re_item D)) :
  Forall2 (item_agree f P) itemsC itemsD →
  ∀ prev s,
    (∀ c, prev = Some c → P c) → Forall P s →
    match_items wordD itemsD (option_map f prev) (map f s)
    = option_map (map (map f)) (match_items wordC itemsC prev s).
Proof.
  induction 1 as [|a b itemsC itemsD Hab _ IH]; intros prev s Hprev Hs;
    [reflexivity|].
  destruct a as [p lo hi|], b as [q lo' hi'|]; simpl in Hab; try done.
  - destruct Hab as (<- & <- & Hpq). simpl.
    rewrite (span_len_map p q s Hpq Hs).
    apply try_down_map. intros k _.
    rewrite firstn_map, skipn_map, prev_after_map.
    rewrite IH.
    + by destruct (match_items wordC itemsC _ (drop k s)).
    + apply prev_after_in; [exact Hprev | by apply Forall_take].
    + by apply Forall_drop.
  - simpl. unfold at_boundary.
    assert (Hhead : head (map f s) = option_map f (head s)) by (by destruct s).
    rewrite Hhead, (word_opt_map prev Hprev).
    rewrite (word_opt_map (head s)).
    + destruct (xorb _ _); [|reflexivity]. rewrite (IH prev s Hprev Hs).
      by destruct (match_items wordC itemsC prev s).
    + intros c Hc. destruct s as [|x s]; [discriminate|].
      injection Hc as ->. by apply Forall_cons in Hs as [? _].
Qed.

Lemma search_from_map (itemsC : list (re_item C))
    (itemsD : list (re_item D)) :
  Forall2 (item_agree f P) itemsC itemsD →
  ∀ s prev start,
    (∀ c, prev = Some c → P c) → Forall P s →
    search_from wordD itemsD (option_map f prev) (map f s) start
    = option_map (fun r => (fst r, map (map f) (snd r)))
        (search_from wordC itemsC prev s start).
Proof.
  intros Hitems. induction s as [|c s IH]; intros prev start Hprev Hs; simpl.
  - pose proof (match_items_map _ _ Hitems prev [] Hprev Hs) as H.
    simpl in H. rewrite H.
    by destruct (match_items wordC itemsC prev []).
  - change (f c :: map f s) with (map f (c :: s)).
    rewrite (match_items_map _ _ Hitems prev (c :: s) Hprev Hs).
    destruct (match_items wordC itemsC prev (c :: s)); [reflexivity|].
    apply Forall_cons in Hs as [Hc Hs].
    apply (IH (Some c) (S start)); [|exact Hs].
    by intros ? [= <-].
Qed.

End MatcherMap.

(** *** Postcodes in 8-bit text *)

Lemma is_upper_word (c : ascii) : is_upper c = true → is_word c = true.
Proof. unfold is_word. intros ->. by rewrite orb_true_r. Qed.

Lemma is_upper_not_space (c : ascii) : is_upper c = true → is_space c = false.
Proof.
  unfold is_upper, is_space, in_range. intros H.
  apply andb_true_iff in H as [H1 H2].
  apply Nat.leb_le in H1. apply Nat.leb_le in H2.
  repeat (apply orb_false_iff; split).
  - apply andb_false_iff. right. apply Nat.leb_gt. lia.
  - apply andb_false_iff. right. apply Nat.leb_gt. lia.
  - apply andb_false_iff. left. apply Nat.leb_gt. lia.
  - apply andb_false_iff. left. apply Nat.leb_gt. lia.
Qed.

Lemma rstrip_id (l : list ascii) (c : ascii) :
  is_space c = false →
  rstrip (string_of_list_ascii (l ++ [c])) = string_of_list_ascii (l ++ [c]).
Proof.
  intros Hc. induction l as [|a l IH]; simpl.
  - by rewrite Hc.
  - rewrite IH. destruct (l ++ [c]) eqn:E.
    + by destruct l.
    + simpl. by rewrite andb_false_r.
Qed.

Lemma py_strip_id (m : list ascii) (c1 c2 : ascii) :
  head m = Some c1 → last m = Some c2 →
  is_space c1 = false → is_space c2 = false →
  py_strip (string_of_list_ascii m) = string_of_list_ascii m.
Proof.
  intros Hh Hl H1 H2. unfold py_strip.
  apply last_Some in Hl as [l' ->]. rewrite rstrip_id by exact H2.
  destruct (l' ++ [c2]) as [|a r] eqn:E; [reflexivity|].
  simpl in Hh. injection Hh as ->. simpl. by rewrite H1.
Qed.

(** A postcode as the pattern has it is its own [strip()]. *)
Lemma postcode_shape_strip (m : list ascii) :
  postcode_shape is_upper is_digit is_space m →
  py_strip (string_of_list_ascii m) = string_of_list_ascii m.
Proof.
  intros Hshape.
  destruct (postcode_shape_ends _ _ _ _ _ Hshape) as (c1 & c2 & Hh & Hl & U1 & U2).
  apply (py_strip_id _ c1 c2 Hh Hl); by apply is_upper_not_space.
Qed.

Lemma extract_postcode_some (text r : string) :
  _extract_postcode text = Some r →
  ∃ pre m post,
    r = string_of_list_ascii m
    ∧ postcode_at is_word is_upper is_digit is_space
        (list_ascii_of_string (upper text)) pre m post
    ∧ ∀ pre' m' post',
        postcode_at is_word is_upper is_digit is_space
          (list_ascii_of_string (upper text)) pre' m' post' →
        length pre ≤ length pre'.
Proof.
  unfold _extract_postcode.
  destruct (nonempty text); simpl; [|discriminate].
  destruct (re_search _ _ _) as [[n pieces]|] eqn:E; [|discriminate].
  intros [= <-].
  apply (postcode_search_some _ _ _ _ _ is_upper_word) in E
    as (pre & post & Hat & Hleft).
  exists pre, (concat pieces), post. split; [|by split].
  unfold group0. apply postcode_shape_strip, Hat.
Qed.

Lemma extract_postcode_none (text : string) :
  _extract_postcode text = None →
  ∀ pre m post,
    ¬ postcode_at is_word is_upper is_digit is_space
        (list_ascii_of_string (upper text)) pre m post.
Proof.
  unfold _extract_postcode.
  destruct (nonempty text) eqn:N; simpl.
  - destruct (re_search _ _ _) as [[n pieces]|] eqn:E; [discriminate|].
    intros _. by apply (postcode_search_none _ _ _ _ _ is_upper_word).
  - intros _ pre m post (Hu & Hshape & _).
    unfold nonempty in N. apply negb_false_iff, String.eqb_eq in N. subst text.
    simpl in Hu. symmetry in Hu.
    apply app_eq_nil in Hu as [_ Hu]. apply app_eq_nil in Hu as [-> _].
    destruct Hshape as (area & ? & ? & ? & ? & ? & Hm & _ & La & _).
    symmetry in Hm. apply app_eq_nil in Hm as [-> _]. simpl in La. lia.
Qed.

(** ** Scraping *)

Local Arguments _parse_listing_card : simpl never.
Local Arguments _enrich_from_detail_page : simpl never.
Local Arguments _safe_get : simpl never.
Local Arguments asdict : simpl never.

(** With [RequestException]s as the only exceptions, [_safe_get] returns the
    body, or [None] when the fetch fails; either way one request has been
    issued. *)
Lemma safe_get_spec (url_ : string) (t : nat) :
  _safe_get url_ t
  = (Ok (if fetch_fails t url_ then None
         else match session_get t url_ with
              | inl resp => Some (text resp)
              | inr _ => None
              end), S t).
Proof.
  unfold _safe_get, try_except, bind, fetch_fails, raise_for_status.
  destruct (session_get t url_) as [resp|msg]; [|reflexivity].
  destruct ((400 <=? status_code resp)%Z && (status_code resp <? 600)%Z);
    reflexivity.
Qed.

(** The loop over [pre ++ rest] is the loop over [pre] followed by the loop
    over [rest]; once the cap is reached nothing more is added. *)
Lemma scrape_cards_app (pre rest : list Tag) (search_url : string)
    (max_results : option Z) :
  ∀ acc t,
    scrape_cards (pre ++ rest) search_url max_results acc t
    = match scrape_cards pre search_url max_results acc t with
      | (Ok acc1, t1) => scrape_cards rest search_url max_results acc1 t1
      | (Raise e, t1) => (Raise e, t1)
      end.
Proof.
  induction pre as [|card pre IH]; intros acc t; [reflexivity|].
  cbn [scrape_cards app]. destruct (cap_reached max_results acc) eqn:Hcap.
  - unfold ret. destruct rest as [|c rest]; cbn [scrape_cards]; [reflexivity|].
    by rewrite Hcap.
  - destruct (url (_parse_listing_card card search_url)) as [u|];
      [|apply IH].
    destruct (nonempty u); [|apply IH].
    unfold bind. rewrite safe_get_spec. apply IH.
Qed.



(** The card phase leaves every field of the detail phase absent. *)
Lemma parse_listing_card_enrichment_absent (card : Tag) (base_page_url : string) :
  enrichment_absent (_parse_listing_card card base_page_url).
Proof. repeat split. Qed.

(** ** The exceptions that are not caught *)

Local Arguments _safe_get_exn : simpl never.

Lemma safe_get_exn_spec (url_ : string) (t : nat) :
  _safe_get_exn url_ t
  = (if session_get_fault t url_ then Raise TransportError
     else match session_get t url_ with
          | inr _ => Ok None
          | inl resp =>
              if sleep_raises then Raise ValueError
              else Ok (if (400 <=? status_code resp)%Z
                          && (status_code resp <? 600)%Z
                       then None else Some (text resp))
          end, S t).
Proof.
  unfold _safe_get_exn, try_except, bind, raise_for_status.
  destruct (session_get_fault t url_); [reflexivity|].
  destruct (session_get t url_) as [resp|msg]; [|reflexivity].
  destruct sleep_raises; [reflexivity|]. unfold ret.
  destruct ((400 <=? status_code resp)%Z && (status_code resp <? 600)%Z);
    reflexivity.
Qed.





(** A failed fetch of the search page ends [scrape_search] after that one
    request; what it returns then is the empty list. *)
Lemma scrape_search_exn_fails (search_url : string) (max_results : option Z)
    (t : nat) :
  fetch_fails t search_url = true →
  ∃ r, scrape_search_exn search_url max_results t = (r, S t)
       ∧ ∀ ls, r = Ok ls → ls = [].
Proof.
  unfold fetch_fails, scrape_search_exn, bind. rewrite safe_get_exn_spec.
  intros Hfail.
  destruct (session_get_fault t search_url).
  { eexists. split; [reflexivity | discriminate]. }
  destruct (session_get t search_url) as [resp|msg].
  - destruct sleep_raises.
    { eexists. split; [reflexivity | discriminate]. }
    rewrite Hfail. eexists. split; [reflexivity|]. by intros ls [= <-].
  - eexists. split; [reflexivity|]. by intros ls [= <-].
Qed.

(** A failed detail fetch on its own is handled: the loop goes on with the
    listing of the card phase appended. *)
Lemma scrape_cards_exn_fetch_failure (card : Tag) (rest : list Tag)
    (search_url detail_url : string) (max_results : option Z)
    (acc : list listing) (t : nat) :
  cap_reached max_results acc = false →
  _parse_listing_card_raises card search_url = false →
  url (_parse_listing_card card search_url) = Some detail_url →
  nonempty detail_url = true →
  _safe_get_exn detail_url t = (Ok None, S t) →
  scrape_cards_exn (card :: rest) search_url max_results acc t
  = scrape_cards_exn rest search_url max_results
      (acc ++ [asdict (_parse_listing_card card search_url)]) (S t).
Proof.
  intros Hcap Hparse Hurl Hne Hget. cbn [scrape_cards_exn].
  rewrite Hcap, Hparse, Hurl, Hne. unfold bind. by rewrite Hget.
Qed.



(** A listing built by the two phases has no reference number, so its key
    under the default order comes from its URL or is absent. *)
Lemma asdict_key_from_url (p : PropertyListing) :
  uprn p = None →
  dict_get (asdict p) "uprn" = VNone
  ∧ (_build_id_key (asdict p) default_id_fields = None
     ∨ ∃ u, dict_get (asdict p) "url" = VStr u ∧ u ≠ ""
            ∧ _build_id_key (asdict p) default_id_fields
              = Some ("url:" +:+ u)).
Proof.
  intros Hu. unfold asdict, default_id_fields. simpl. rewrite Hu. simpl.
  split; [reflexivity|].
  destruct (url p) as [[|c r]|]; simpl; [by left | | by left].
  right. exists (String c r). by repeat split.
Qed.

Lemma scrape_cards_uprn (cards : list Tag) (search_url : string)
    (max_results : option Z) :
  ∀ acc t,
    Forall (fun l => ∃ p, l = asdict p ∧ uprn p = None) acc →
    ∃ ls t',
      scrape_cards cards search_url max_results acc t = (Ok ls, t')
      ∧ Forall (fun l => ∃ p, l = asdict p ∧ uprn p = None) ls.
Proof.
  induction cards as [|card cards IH]; intros acc t Hacc; cbn [scrape_cards].
  - exists acc, t. by split.
  - destruct (cap_reached max_results acc); [exists acc, t; by split|].
    assert (Hstep : ∀ p t0, uprn p = None → ∃ ls t',
      scrape_cards cards search_url max_results (acc ++ [asdict p]) t0
      = (Ok ls, t')
      ∧ Forall (fun l => ∃ p, l = asdict p ∧ uprn p = None) ls).
    { intros p t0 Hp. apply IH. apply Forall_app. split; [exact Hacc|].
      constructor; [by exists p | constructor]. }
    destruct (url (_parse_listing_card card search_url)) as [u|];
      [|by apply Hstep].
    destruct (nonempty u); [|by apply Hstep].
    unfold bind. rewrite safe_get_spec. apply Hstep.
    destruct (if fetch_fails t u then _ else _) as [html|]; [|reflexivity].
    by destruct (nonempty html).
Qed.

(** C10.  [scrape_search] returns, and every listing it returns has no
    reference number: the card phase builds the record with [uprn = None]
    and the detail phase leaves the field as it is.  Under the default
    priority the identity key of such a listing is therefore absent or built
    from its URL. *)
Theorem scraped_listing_key_from_url (search_url : string)
    (max_results : option Z) (t : nat) :
  (∀ card base_page_url, uprn (_parse_listing_card card base_page_url) = None)
  ∧ (∀ l soup, uprn (_enrich_from_detail_page l soup) = uprn l)
  ∧ ∃ ls t',
      scrape_search search_url max_results t = (Ok ls, t')
      ∧ Forall
          (fun l =>
             dict_get l "uprn" = VNone
             ∧ (_build_id_key l default_id_fields = None
                ∨ ∃ u, dict_get l "url" = VStr u ∧ u ≠ ""
                       ∧ _build_id_key l default_id_fields
                         = Some ("url:" +:+ u)))
          ls.
Proof.
  split; [reflexivity|]. split; [reflexivity|].
  assert (H : ∃ ls t',
    scrape_search search_url max_results t = (Ok ls, t')
    ∧ Forall (fun l => ∃ p, l = asdict p ∧ uprn p = None) ls).
  { unfold scrape_search, bind. rewrite safe_get_spec.
    destruct (if fetch_fails t search_url then _ else _) as [html|].
    - apply scrape_cards_uprn. constructor.
    - exists [], (S t). split; [reflexivity | constructor]. }
  destruct H as (ls & t' & -> & Hall).
  exists ls, t'. split; [reflexivity|].
  eapply Forall_impl; [exact Hall|].
  intros l (p & -> & Hp). by apply asdict_key_from_url.
Qed.

(** ** Absent fields *)

Lemma lstrip_head (s : string) (c : ascii) (r : string) :
  lstrip s = String c r → is_space c = false.
Proof.
  induction s as [|a s IH]; simpl; [discriminate|].
  destruct (is_space a) eqn:E; [exact IH|]. by intros [= <- _].
Qed.

Lemma py_strip_head (c : ascii) (r : string) :
  is_space c = false → py_strip (String c r) ≠ "".
Proof. intros H. unfold py_strip. simpl. by rewrite H; simpl; rewrite H. Qed.

Lemma concat_head (sep : string) (pieces : list string) :
  Forall (fun p => ∃ c r, p = String c r ∧ is_space c = false) pieces →
  String.concat sep pieces = ""
  ∨ ∃ c r, String.concat sep pieces = String c r ∧ is_space c = false.
Proof.
  intros H. destruct H as [|p pieces (c & r & -> & Hc) _]; [by left|].
  right. destruct pieces as [|q pieces]; simpl; eauto.
Qed.

(** Text taken from an element is empty or starts with a character that is
    not white space. *)
Lemma get_text_head (el : Tag) (sep : string) :
  get_text el sep = ""
  ∨ ∃ c r, get_text el sep = String c r ∧ is_space c = false.
Proof.
  unfold get_text. apply concat_head.
  induction (all_strings el) as [|x xs IH]; simpl; [constructor|].
  destruct (nonempty (py_strip x)) eqn:N; [|exact IH].
  constructor; [|exact IH].
  destruct (py_strip x) as [|c r] eqn:E; [discriminate|].
  exists c, r. split; [reflexivity|]. by apply (lstrip_head _ _ _ E).
Qed.

Lemma extract_text_head (root : Tag) (selectors : list string) (t : string) :
  _extract_text root selectors = Some t →
  ∃ c r, t = String c r ∧ is_space c = false.
Proof.
  induction selectors as [|sel selectors IH]; simpl; [discriminate|].
  destruct (select_one root sel) as [el|]; [|exact IH].
  destruct (nonempty (get_text el " ")) eqn:N; [|exact IH].
  intros [= <-].
  destruct (get_text_head el " ") as [E|H]; [|exact H].
  rewrite E in N. discriminate.
Qed.

Lemma extract_text_not_empty (root : Tag) (selectors : list string) :
  _extract_text root selectors ≠ Some "".
Proof. intros H. by apply extract_text_head in H as (c & r & ? & _). Qed.

Lemma strip_if_found_not_empty (root : Tag) (selectors : list string)
    (old : option string) :
  old ≠ Some "" →
  strip_if_found (_extract_text root selectors) old ≠ Some "".
Proof.
  intros Hold. unfold strip_if_found.
  destruct (_extract_text root selectors) as [t|] eqn:E; [|exact Hold].
  destruct (nonempty t); [|exact Hold].
  apply extract_text_head in E as (c & r & -> & Hc).
  intros [= H]. by apply (py_strip_head c r).
Qed.

Lemma extract_postcode_not_empty (text : string) :
  _extract_postcode text ≠ Some "".
Proof.
  intros H. apply extract_postcode_some in H as (pre & m & post & Hr & Hat & _).
  destruct Hat as (_ & (area & ? & ? & ? & ? & ? & -> & _ & La & _) & _).
  destruct area; [simpl in La; lia | discriminate].
Qed.

(** No optional text field of a card-phase listing is the empty string. *)
Lemma parse_listing_card_text_fields (card : Tag) (base_page_url : string) :
  Forall (fun o => o ≠ Some "")
         (text_fields (_parse_listing_card card base_page_url)).
Proof.
  unfold text_fields, _parse_listing_card;
    cbn [address epcRating price description category type agent agentPhone
         propertyType postalCode].
  assert (Hty : card_property_type
                  (_extract_text card property_type_selectors) ≠ Some "").
  { unfold card_property_type.
    destruct (_extract_text card property_type_selectors) as [t|] eqn:E;
      [|discriminate].
    destruct (nonempty t); [|discriminate].
    apply extract_text_head in E as (c & r & -> & Hc).
    intros [= H]. by apply (py_strip_head c r). }
  assert (Hcat : card_category (_extract_text card category_selectors)
                 ≠ Some "").
  { unfold card_category.
    destruct (_extract_text card category_selectors) as [t|]; [|discriminate].
    destruct (nonempty t); [|discriminate].
    destruct (contains "rent" (lower t)); [discriminate|].
    destruct (contains "sale" (lower t) || contains "buy" (lower t));
      discriminate. }
  repeat constructor;
    first [apply extract_text_not_empty | discriminate | assumption].
Qed.

(** The detail phase keeps it so. *)
Lemma enrich_text_fields (l : PropertyListing) (soup : Tag) :
  Forall (fun o => o ≠ Some "") (text_fields l) →
  Forall (fun o => o ≠ Some "") (text_fields (_enrich_from_detail_page l soup)).
Proof.
  unfold text_fields, _enrich_from_detail_page;
    cbn [address epcRating price description category type agent agentPhone
         propertyType postalCode].
  intros H.
  repeat match goal with
         | H : Forall _ (_ :: _) |- _ => apply Forall_cons in H as [? H]
         end.
  repeat constructor;
    first [ by apply strip_if_found_not_empty
          | apply extract_postcode_not_empty
          | assumption ].
Qed.


Ltac listing_fields :=
  unfold _enrich_from_detail_page, _parse_listing_card;
  cbn [title uprn address epc epcRating bedrooms bathrooms livingroom price
       description coordinates category type agent agentPhone images
       priceHistory pointsOfInterest propertyType postalCode features url].

(** C1, as the code has it.  For the listing [c] of the card phase and the
    listing [e] after the detail phase: the title is a plain string, and it
    is the empty string when no title element is found; every other field
    that is not found is [None], or the empty list for the list fields, and
    no optional text field ever holds the empty string. *)
Theorem absent_fields_explicit (card : Tag) (base_page_url : string)
    (soup : Tag) :
  let c := _parse_listing_card card base_page_url in
  let e := _enrich_from_detail_page c soup in
  (_extract_text card title_selectors = None →
   title c = "" ∧ title e = "" ∧ dict_get (asdict e) "title" = VStr "")
  ∧ (_extract_text card price_selectors = None →
     price c = None ∧ price e = None)
  ∧ (_extract_text card card_address_selectors = None → address c = None)
  ∧ (_extract_text card agent_selectors = None →
     agent c = None ∧ agent e = None)
  ∧ (_extract_text card category_selectors = None →
     category c = None ∧ category e = None)
  ∧ (_extract_text card property_type_selectors = None →
     propertyType c = None ∧ type c = None
     ∧ propertyType e = None ∧ type e = None)
  ∧ (_extract_int_from_text card bedrooms_selectors = None →
     bedrooms c = None ∧ bedrooms e = None)
  ∧ (_extract_int_from_text card bathrooms_selectors = None →
     bathrooms c = None ∧ bathrooms e = None)
  ∧ (find_a_href card = None → url c = None ∧ url e = None)
  ∧ (uprn c = None ∧ livingroom c = None
     ∧ priceHistory c = [] ∧ pointsOfInterest c = [])
  ∧ (uprn e = None ∧ livingroom e = None
     ∧ priceHistory e = [] ∧ pointsOfInterest e = [])
  ∧ enrichment_absent c
  ∧ (_extract_text soup description_selectors = None → description e = None)
  ∧ (_extract_text soup epc_rating_selectors = None → epcRating e = None)
  ∧ (_extract_text soup agent_phone_selectors = None → agentPhone e = None)
  ∧ (_extract_text soup detail_address_selectors = None →
     address e = address c ∧ postalCode e = None)
  ∧ (select_attr soup "img[src*='epc']" "src" = [] → epc e = None)
  ∧ (_extract_coordinates_from_scripts soup = None → coordinates e = None)
  ∧ (Forall (fun sel => select soup sel = []) features_selectors →
     features e = [])
  ∧ (select_attr soup "img[src]" "src" = [] → images e = [])
  ∧ Forall (fun o => o ≠ Some "") (text_fields c)
  ∧ Forall (fun o => o ≠ Some "") (text_fields e).
Proof.
  intros c e. subst c e.
  split; [intros H; unfold asdict; listing_fields; rewrite H; by simpl|].
  split; [intros H; listing_fields; by rewrite H|].
  split; [intros H; listing_fields; by rewrite H|].
  split; [intros H; listing_fields; by rewrite H|].
  split; [intros H; listing_fields; by rewrite H|].
  split; [intros H; listing_fields; by rewrite H|].
  split; [intros H; listing_fields; by rewrite H|].
  split; [intros H; listing_fields; by rewrite H|].
  split; [intros H; listing_fields; by rewrite H|].
  split; [by listing_fields|].
  split; [by listing_fields|].
  split; [apply parse_listing_card_enrichment_absent|].
  split; [intros H; listing_fields; by rewrite H|].
  split; [intros H; listing_fields; by rewrite H|].
  split; [intros H; listing_fields; by rewrite H|].
  split; [intros H; listing_fields; by rewrite H|].
  split; [intros H; listing_fields; by rewrite H|].
  split; [intros H; listing_fields; by rewrite H|].
  split.
  { intros H. listing_fields. unfold collect_features, features_selectors in *.
    apply Forall_cons in H as [H1 H]. apply Forall_cons in H as [H2 _].
    simpl. by rewrite H1, H2. }
  split; [intros H; listing_fields; unfold collect_images; by rewrite H|].
  split; [apply parse_listing_card_text_fields|].
  apply enrich_text_fields, parse_listing_card_text_fields.
Qed.

(** * Further properties of the code *)

(** ** De-duplication: what is kept *)

Lemma dedup_loop_cons (x : listing) (ls : list listing)
    (fields : list string) (seen : gset string) :
  dedup_loop (x :: ls) fields seen []
  = match _build_id_key x fields with
    | None => x :: dedup_loop ls fields seen []
    | Some k =>
        if decide (k ∈ seen) then dedup_loop ls fields seen []
        else x :: dedup_loop ls fields ({[k]} ∪ seen) []
    end.
Proof.
  simpl. destruct (_build_id_key x fields) as [k|].
  - destruct (decide (k ∈ seen)); [reflexivity|]. by rewrite dedup_loop_acc.
  - by rewrite dedup_loop_acc.
Qed.

Lemma dedup_loop_sublist (ls : list listing) (fields : list string) :
  ∀ seen, sublist (dedup_loop ls fields seen []) ls.
Proof.
  induction ls as [|x ls IH]; intros seen; [constructor|].
  rewrite dedup_loop_cons. destruct (_build_id_key x fields) as [k|].
  - destruct (decide (k ∈ seen)).
    + apply sublist_cons, IH.
    + apply sublist_skip, IH.
  - apply sublist_skip, IH.
Qed.

Lemma dedup_loop_keyless (ls : list listing) (fields : list string) :
  ∀ seen,
    List.filter (fun l => negb (keyed fields l)) (dedup_loop ls fields seen [])
    = List.filter (fun l => negb (keyed fields l)) ls.
Proof.
  induction ls as [|x ls IH]; intros seen; [reflexivity|].
  rewrite dedup_loop_cons. unfold keyed at 2. simpl.
  destruct (_build_id_key x fields) as [k|] eqn:E; simpl.
  - destruct (decide (k ∈ seen)); simpl; [apply IH|].
    unfold keyed at 1. rewrite E. simpl. apply IH.
  - unfold keyed at 1. rewrite E. simpl. f_equal. apply IH.
Qed.

(** X1.  The result of [deduplicate_listings] is the input with some
    listings left out (so it is no longer and keeps the order), no two of its
    listings have the same identity key, and the listings without a key are
    all there, as often and in the order they came. *)
Theorem deduplicate_sublist_distinct (ls : list listing)
    (fields : list string) :
  sublist (deduplicate_listings ls fields) ls
  ∧ length (deduplicate_listings ls fields) ≤ length ls
  ∧ NoDup (omap (fun y => _build_id_key y fields)
                (deduplicate_listings ls fields))
  ∧ List.filter (fun l => negb (keyed fields l))
                (deduplicate_listings ls fields)
    = List.filter (fun l => negb (keyed fields l)) ls.
Proof.
  unfold deduplicate_listings.
  split; [apply dedup_loop_sublist|].
  split; [apply sublist_length, dedup_loop_sublist|].
  split; [apply dedup_loop_keys | apply dedup_loop_keyless].
Qed.

(** X2.  Of the listings that share an identity key, the one that comes
    first in the input is in the result, and it is the only listing of the
    result with that key. *)
Theorem deduplicate_keeps_first (pre post : list listing) (x : listing)
    (fields : list string) (k : string) :
  _build_id_key x fields = Some k →
  (∀ y, y ∈ pre → _build_id_key y fields ≠ Some k) →
  x ∈ deduplicate_listings (pre ++ x :: post) fields
  ∧ ∀ y, y ∈ deduplicate_listings (pre ++ x :: post) fields →
         _build_id_key y fields = Some k → y = x.
Proof.
  intros Hx Hpre. unfold deduplicate_listings.
  destruct (dedup_loop_app pre (x :: post) fields ∅ []) as (seen' & Hs & ->).
  assert (Hk : k ∉ seen').
  { intros Hin. apply Hs in Hin as [Hin|(y & Hy & Hk)].
    - by apply not_elem_of_empty in Hin.
    - by apply (Hpre y). }
  simpl. rewrite Hx, decide_False by exact Hk. rewrite dedup_loop_acc.
  split.
  - apply elem_of_app. left. apply elem_of_app. right. apply list_elem_of_here.
  - intros y Hy Hyk.
    apply elem_of_app in Hy as [Hy|Hy]; [apply elem_of_app in Hy as [Hy|Hy]|].
    + exfalso. apply (Hpre y); [|exact Hyk].
      eapply elem_of_sublist; [exact Hy | apply dedup_loop_sublist].
    + by apply list_elem_of_singleton in Hy.
    + exfalso.
      destruct (dedup_loop_keys post fields ({[k]} ∪ seen')) as [_ Hfresh].
      apply (Hfresh k).
      * apply list_elem_of_omap. by exists y.
      * apply elem_of_union. left. by apply elem_of_singleton.
Qed.

(** X3.  [deduplicate_listings] returns its input unchanged exactly when no
    two listings of the input have the same identity key. *)
Theorem deduplicate_fixed_point (ls : list listing) (fields : list string) :
  deduplicate_listings ls fields = ls
  ↔ NoDup (omap (fun y => _build_id_key y fields) ls).
Proof.
  unfold deduplicate_listings. split.
  - intros H. rewrite <- H at 1. apply dedup_loop_keys.
  - intros H. rewrite dedup_loop_distinct; [reflexivity | exact H |].
    intros k _. apply not_elem_of_empty.
Qed.

(** ** Deltas: which listings are reported *)

Lemma dict_mem_fst {V : Type} (d : list (string * V)) (k : string) :
  dict_mem d k = true ↔ k ∈ map fst d.
Proof.
  induction d as [|[k0 v0] d IH]; simpl.
  - split; [discriminate | intros H; by apply elem_of_nil in H].
  - destruct (String.eqb k0 k) eqn:E.
    + apply String.eqb_eq in E as ->. split; [intros _; apply list_elem_of_here | done].
    + apply String.eqb_neq in E. rewrite IH. split.
      * intros H. by apply list_elem_of_further.
      * intros H. apply elem_of_cons in H as [H|H]; [congruence | exact H].
Qed.

Lemma dict_mem_set {V : Type} (d : list (string * V)) (k k' : string) (v : V) :
  dict_mem (dict_set d k' v) k = dict_mem d k || String.eqb k' k.
Proof.
  induction d as [|[k0 v0] d IH]; simpl.
  - by destruct (String.eqb k' k).
  - destruct (String.eqb k0 k') eqn:E; simpl.
    + apply String.eqb_eq in E as ->.
      destruct (String.eqb k' k); [reflexivity | by rewrite orb_false_r].
    + destruct (String.eqb k0 k); [reflexivity | exact IH].
Qed.

Lemma dict_set_fst {V : Type} (d : list (string * V)) (k : string) (v : V) :
  map fst (dict_set d k v)
  = if dict_mem d k then map fst d else map fst d ++ [k].
Proof.
  induction d as [|[k0 v0] d IH]; simpl; [reflexivity|].
  destruct (String.eqb k0 k); simpl; [reflexivity|].
  rewrite IH. by destruct (dict_mem d k).
Qed.

Lemma dict_set_nodup {V : Type} (d : list (string * V)) (k : string) (v : V) :
  NoDup (map fst d) → NoDup (map fst (dict_set d k v)).
Proof.
  intros H. rewrite dict_set_fst.
  destruct (dict_mem d k) eqn:E; [exact H|].
  apply NoDup_app. split; [exact H|]. split; [|apply NoDup_singleton].
  intros x Hx Hk. apply list_elem_of_singleton in Hk as ->.
  apply dict_mem_fst in Hx. congruence.
Qed.

(** With distinct keys, an assignment replaces the entry of its key and
    touches no other. *)
Lemma dict_set_elem_iff {V : Type} (d : list (string * V)) (k k' : string)
    (v v' : V) :
  NoDup (map fst d) →
  (k', v') ∈ dict_set d k v ↔ (k' = k ∧ v' = v) ∨ (k' ≠ k ∧ (k', v') ∈ d).
Proof.
  induction d as [|[k0 v0] d IH]; simpl; intros Hnd.
  - rewrite list_elem_of_singleton. split.
    + intros [= -> ->]. by left.
    + intros [[-> ->]|[_ H]]; [reflexivity | by apply elem_of_nil in H].
  - apply NoDup_cons in Hnd as [Hk0 Hnd].
    destruct (String.eqb k0 k) eqn:E.
    + apply String.eqb_eq in E as ->. rewrite !elem_of_cons. split.
      * intros [[= -> ->]|H]; [by left|]. right. split; [|by right].
        intros ->. apply Hk0. apply list_elem_of_fmap. by exists (k, v').
      * intros [[-> ->]|[Hne [[= -> ->]|H]]]; [by left | done | by right].
    + apply String.eqb_neq in E. rewrite !elem_of_cons, (IH Hnd). split.
      * intros [[= -> ->]|[[-> ->]|[Hne H]]]; [right; split; [congruence | by left]
                                              | by left | right; split; [exact Hne | by right]].
      * intros [[-> ->]|[Hne [[= -> ->]|H]]];
          [right; by left | by left | right; right; by split].
Qed.

Lemma build_index_nodup (ls : list listing) (fields : list string) :
  ∀ index, NoDup (map fst index) →
           NoDup (map fst (build_index ls fields index)).
Proof.
  induction ls as [|x ls IH]; intros index H; simpl; [exact H|].
  rewrite truthy_opt_key.
  destruct (_build_id_key x fields) as [kx|]; [|by apply IH].
  by apply IH, dict_set_nodup.
Qed.

Lemma build_index_mem (ls : list listing) (fields : list string) (k : string) :
  ∀ index,
    dict_mem (build_index ls fields index) k = true
    ↔ dict_mem index k = true ∨ ∃ y, y ∈ ls ∧ _build_id_key y fields = Some k.
Proof.
  induction ls as [|x ls IH]; intros index; simpl.
  - split; [by left|]. intros [H|(y & Hy & _)]; [exact H|].
    by apply elem_of_nil in Hy.
  - rewrite truthy_opt_key.
    destruct (_build_id_key x fields) as [kx|] eqn:Ex.
    + rewrite IH, dict_mem_set, orb_true_iff, String.eqb_eq. split.
      * intros [[H| ->]|(y & Hy & Hk)]; [by left | |].
        -- right. exists x. split; [apply list_elem_of_here | exact Ex].
        -- right. exists y. split; [by apply list_elem_of_further | exact Hk].
      * intros [H|(y & Hy & Hk)]; [left; by left|].
        apply elem_of_cons in Hy as [->|Hy].
        -- left. right. congruence.
        -- right. by exists y.
    + rewrite IH. split.
      * intros [H|(y & Hy & Hk)]; [by left|].
        right. exists y. split; [by apply list_elem_of_further | exact Hk].
      * intros [H|(y & Hy & Hk)]; [by left|].
        apply elem_of_cons in Hy as [->|Hy]; [congruence|].
        right. by exists y.
Qed.

(** An index holds, under each key, the last listing that has the key. *)
Lemma build_index_elem (ls : list listing) (fields : list string)
    (k : string) (l : listing) :
  ∀ index,
    NoDup (map fst index) →
    (k, l) ∈ build_index ls fields index
    ↔ (∃ pre post, ls = pre ++ l :: post
                   ∧ _build_id_key l fields = Some k
                   ∧ ∀ y, y ∈ post → _build_id_key y fields ≠ Some k)
      ∨ ((k, l) ∈ index ∧ ∀ y, y ∈ ls → _build_id_key y fields ≠ Some k).
Proof.
  induction ls as [|x ls IH]; intros index Hnd; simpl.
  - split.
    + intros H. right. split; [exact H|]. intros y Hy. by apply elem_of_nil in Hy.
    + intros [(pre & post & H & _)|[H _]]; [by destruct pre | exact H].
  - rewrite truthy_opt_key.
    destruct (_build_id_key x fields) as [kx|] eqn:Ex.
    + rewrite (IH _ (dict_set_nodup _ kx x Hnd)), (dict_set_elem_iff _ _ _ _ _ Hnd).
      split.
      * intros [(pre & post & -> & Hl & Hpost)|[[[-> ->]|[Hne Hin]] Hls]].
        -- left. by exists (x :: pre), post.
        -- left. by exists [], ls.
        -- right. split; [exact Hin|]. intros y Hy.
           apply elem_of_cons in Hy as [->|Hy]; [congruence | by apply Hls].
      * intros [(pre & post & Heq & Hl & Hpost)|[Hin Hls]].
        -- destruct pre as [|p pre]; simpl in Heq; injection Heq as -> ->.
           ++ right. split; [|exact Hpost]. left. split; congruence.
           ++ left. by exists pre, post.
        -- right. split.
           ++ right. split; [|exact Hin]. intros ->.
              apply (Hls x); [apply list_elem_of_here | exact Ex].
           ++ intros y Hy. apply Hls. by apply list_elem_of_further.
    + rewrite (IH _ Hnd). split.
      * intros [(pre & post & -> & Hl & Hpost)|[Hin Hls]].
        -- left. by exists (x :: pre), post.
        -- right. split; [exact Hin|]. intros y Hy.
           apply elem_of_cons in Hy as [->|Hy]; [congruence | by apply Hls].
      * intros [(pre & post & Heq & Hl & Hpost)|[Hin Hls]].
        -- destruct pre as [|p pre]; simpl in Heq; injection Heq as -> ->.
           ++ congruence.
           ++ left. by exists pre, post.
        -- right. split; [exact Hin|]. intros y Hy.
           apply Hls. by apply list_elem_of_further.
Qed.

Lemma missing_from_elem_iff (index other : list (string * listing))
    (l : listing) :
  ∀ acc,
    l ∈ missing_from index other acc
    ↔ l ∈ acc ∨ ∃ k, (k, l) ∈ index ∧ dict_mem other k = false.
Proof.
  induction index as [|[k0 l0] index IH]; intros acc; simpl.
  - split; [by left|]. intros [H|(k & H & _)]; [exact H|].
    by apply elem_of_nil in H.
  - destruct (dict_mem other k0) eqn:E; simpl; rewrite IH.
    + split.
      * intros [H|(k & H & Hk)]; [by left|].
        right. exists k. split; [by apply list_elem_of_further | exact Hk].
      * intros [H|(k & H & Hk)]; [by left|].
        apply elem_of_cons in H as [[= -> ->]|H]; [congruence|].
        right. by exists k.
    + rewrite elem_of_app, list_elem_of_singleton. split.
      * intros [[H| ->]|(k & H & Hk)]; [by left | |].
        -- right. exists k0. split; [apply list_elem_of_here | exact E].
        -- right. exists k. split; [by apply list_elem_of_further | exact Hk].
      * intros [H|(k & H & Hk)]; [left; by left|].
        apply elem_of_cons in H as [[= -> ->]|H]; [left; by right|].
        right. by exists k.
Qed.

Lemma delta_elem (these those : list listing) (fields : list string)
    (l : listing) :
  l ∈ missing_from (build_index these fields [])
                   (build_index those fields []) []
  ↔ ∃ k pre post,
      these = pre ++ l :: post
      ∧ _build_id_key l fields = Some k
      ∧ (∀ y, y ∈ post → _build_id_key y fields ≠ Some k)
      ∧ (∀ p, p ∈ those → _build_id_key p fields ≠ Some k).
Proof.
  rewrite missing_from_elem_iff. split.
  - intros [H|(k & Hin & Hmem)]; [by apply elem_of_nil in H|].
    apply build_index_elem in Hin as [(pre & post & -> & Hl & Hpost)|[H _]];
      [|by apply elem_of_nil in H | constructor].
    exists k, pre, post. repeat split; try assumption.
    intros p Hp Hk. apply not_true_iff_false in Hmem. apply Hmem.
    apply build_index_mem. right. by exists p.
  - intros (k & pre & post & -> & Hl & Hpost & Hthose).
    right. exists k. split.
    + apply build_index_elem; [constructor|]. left. by exists pre, post.
    + apply not_true_iff_false. intros Hmem.
      apply build_index_mem in Hmem as [Hmem|(p & Hp & Hk)]; [discriminate|].
      by apply (Hthose p).
Qed.

(** X4.  A listing is reported as new exactly when it has an identity key,
    it is the last listing of the current run with that key, and no listing
    of the previous run has the key; it is reported as delisted exactly when
    the same holds with the two runs exchanged. *)
Theorem compute_deltas_membership (current previous : list listing)
    (fields : list string) (l : listing) :
  (l ∈ fst (compute_deltas current previous fields)
   ↔ ∃ k pre post,
       current = pre ++ l :: post
       ∧ _build_id_key l fields = Some k
       ∧ (∀ y, y ∈ post → _build_id_key y fields ≠ Some k)
       ∧ (∀ p, p ∈ previous → _build_id_key p fields ≠ Some k))
  ∧ (l ∈ snd (compute_deltas current previous fields)
     ↔ ∃ k pre post,
         previous = pre ++ l :: post
         ∧ _build_id_key l fields = Some k
         ∧ (∀ y, y ∈ post → _build_id_key y fields ≠ Some k)
         ∧ (∀ c, c ∈ current → _build_id_key c fields ≠ Some k)).
Proof. split; apply delta_elem. Qed.

Lemma dict_set_fresh {V : Type} (d : list (string * V)) (k : string) (v : V) :
  dict_mem d k = false → dict_set d k v = d ++ [(k, v)].
Proof.
  induction d as [|[k0 v0] d IH]; simpl; [reflexivity|].
  destruct (String.eqb k0 k); [discriminate|]. intros H. by rewrite IH.
Qed.

Lemma build_index_distinct (ls : list listing) (fields : list string) :
  ∀ index,
    NoDup (omap (fun y => _build_id_key y fields) ls) →
    (∀ k, k ∈ omap (fun y => _build_id_key y fields) ls →
          dict_mem index k = false) →
    build_index ls fields index
    = index ++ omap (fun l => (fun k => (k, l)) <$> _build_id_key l fields) ls.
Proof.
  induction ls as [|x ls IH]; intros index Hnd Hfresh; simpl.
  - by rewrite app_nil_r.
  - rewrite truthy_opt_key. simpl in Hnd, Hfresh.
    destruct (_build_id_key x fields) as [kx|] eqn:Ex; simpl in *.
    + apply NoDup_cons in Hnd as [Hkx Hnd].
      rewrite dict_set_fresh by (apply Hfresh, list_elem_of_here).
      rewrite IH; [by rewrite <- app_assoc | exact Hnd |].
      intros k Hk. rewrite <- (dict_set_fresh index kx x)
        by (apply Hfresh, list_elem_of_here).
      rewrite dict_mem_set, (Hfresh k) by (by apply list_elem_of_further).
      simpl. apply String.eqb_neq. intros ->. contradiction.
    + by apply IH.
Qed.

Lemma missing_from_nothing (index : list (string * listing)) :
  ∀ acc, missing_from index [] acc = acc ++ map snd index.
Proof.
  induction index as [|[k l] index IH]; intros acc; simpl.
  - by rewrite app_nil_r.
  - rewrite IH. by rewrite <- app_assoc.
Qed.

Lemma keyed_listings (ls : list listing) (fields : list string) :
  map snd (omap (fun l => (fun k => (k, l)) <$> _build_id_key l fields) ls)
  = List.filter (keyed fields) ls.
Proof.
  induction ls as [|x ls IH]; simpl; [reflexivity|].
  unfold keyed at 1. destruct (_build_id_key x fields); simpl;
    [f_equal; exact IH | exact IH].
Qed.

Lemma compute_deltas_against_nothing (ls : list listing)
    (fields : list string) :
  NoDup (omap (fun y => _build_id_key y fields) ls) →
  compute_deltas ls [] fields = (List.filter (keyed fields) ls, [])
  ∧ compute_deltas [] ls fields = ([], List.filter (keyed fields) ls).
Proof.
  intros Hnd. unfold compute_deltas.
  rewrite (build_index_distinct ls fields []) by (done || by intros).
  cbn [app build_index missing_from].
  rewrite missing_from_nothing. cbn [app]. by rewrite keyed_listings.
Qed.

(** X5.  Against an empty other side, and when no two listings share an
    identity key, [compute_deltas] reports every listing that has a key, in
    the order of the input: as new when the previous run is empty, as
    delisted when the current run is empty.  The result of
    [deduplicate_listings] is such an input, so on a first run everything
    that has a key is new. *)
Theorem compute_deltas_first_run (ls : list listing) (fields : list string) :
  (NoDup (omap (fun y => _build_id_key y fields) ls) →
   compute_deltas ls [] fields = (List.filter (keyed fields) ls, [])
   ∧ compute_deltas [] ls fields = ([], List.filter (keyed fields) ls))
  ∧ compute_deltas (deduplicate_listings ls fields) [] fields
    = (List.filter (keyed fields) (deduplicate_listings ls fields), []).
Proof.
  split; [apply compute_deltas_against_nothing|].
  apply compute_deltas_against_nothing, dedup_loop_keys.
Qed.

(** X6.  No identity key is reported on both sides: a key of a new listing
    belongs to no listing of the previous run, hence to no delisted listing,
    and a key of a delisted listing belongs to no listing of the current
    run. *)
Theorem compute_deltas_keys_disjoint (current previous : list listing)
    (fields : list string) :
  (∀ n, n ∈ fst (compute_deltas current previous fields) →
        ∀ p, p ∈ previous → _build_id_key p fields ≠ _build_id_key n fields)
  ∧ (∀ d, d ∈ snd (compute_deltas current previous fields) →
          ∀ c, c ∈ current → _build_id_key c fields ≠ _build_id_key d fields)
  ∧ (∀ n d, n ∈ fst (compute_deltas current previous fields) →
            d ∈ snd (compute_deltas current previous fields) →
            _build_id_key n fields ≠ _build_id_key d fields).
Proof.
  assert (Hnew : ∀ n, n ∈ fst (compute_deltas current previous fields) →
    ∀ p, p ∈ previous → _build_id_key p fields ≠ _build_id_key n fields).
  { intros n Hn p Hp.
    apply delta_elem in Hn as (k & _ & _ & _ & Hk & _ & Hprev).
    rewrite Hk. by apply Hprev. }
  assert (Hdel : ∀ d, d ∈ snd (compute_deltas current previous fields) →
    ∀ c, c ∈ current → _build_id_key c fields ≠ _build_id_key d fields).
  { intros d Hd c Hc.
    apply delta_elem in Hd as (k & _ & _ & _ & Hk & _ & Hcur).
    rewrite Hk. by apply Hcur. }
  split; [exact Hnew|]. split; [exact Hdel|].
  intros n d Hn Hd Heq.
  apply (Hnew n Hn d); [|by symmetry].
  apply delta_elem in Hd as (k & pre & post & -> & _).
  apply elem_of_app. right. apply list_elem_of_here.
Qed.

(** ** Extraction helpers *)

Lemma nonempty_true (s : string) : nonempty s = true ↔ s ≠ "".
Proof.
  unfold nonempty. rewrite negb_true_iff. split.
  - intros H ->. discriminate.
  - intros H. apply String.eqb_neq. exact H.
Qed.

Lemma nonempty_false (s : string) : nonempty s = false ↔ s = "".
Proof. unfold nonempty. rewrite negb_false_iff. apply String.eqb_eq. Qed.

(** X7.  [_extract_text] returns the text of the first selector, in the
    order given, whose first matching element has text that is not empty;
    selectors that match nothing, or an element without text, are passed
    over, and the result is [None] exactly when every selector is passed
    over.  A result is never the empty string. *)
Theorem extract_text_first_match (root : Tag) (selectors : list string) :
  (∀ t, _extract_text root selectors = Some t
        ↔ ∃ pre sel post el,
            selectors = pre ++ sel :: post
            ∧ Forall (fun s => ∀ e, select_one root s = Some e →
                                    get_text e " " = "") pre
            ∧ select_one root sel = Some el
            ∧ get_text el " " = t
            ∧ t ≠ "")
  ∧ (_extract_text root selectors = None
     ↔ Forall (fun s => ∀ e, select_one root s = Some e →
                             get_text e " " = "") selectors).
Proof.
  induction selectors as [|sel selectors [IHs IHn]]; simpl.
  - split.
    + intros t. split; [discriminate|].
      intros (pre & s & post & el & H & _). by destruct pre.
    + split; [constructor | reflexivity].
  - destruct (select_one root sel) as [el|] eqn:Hsel.
    + destruct (nonempty (get_text el " ")) eqn:N.
      * apply nonempty_true in N. split.
        -- intros t. split.
           ++ intros [= <-]. exists [], sel, selectors, el. by repeat split.
           ++ intros (pre & s & post & el' & H & Hpre & Hs & Ht & Hne).
              destruct pre as [|p pre]; simpl in H; injection H as <- ->.
              ** rewrite Hsel in Hs. injection Hs as <-. by rewrite Ht.
              ** apply Forall_cons in Hpre as [Hp _].
                 by rewrite (Hp el Hsel) in N.
        -- split; [discriminate|]. intros H.
           apply Forall_cons in H as [Hp _]. by rewrite (Hp el Hsel) in N.
      * apply nonempty_false in N. split.
        -- intros t. rewrite IHs. split.
           ++ intros (pre & s & post & el' & -> & Hpre & Hs & Ht & Hne).
              exists (sel :: pre), s, post, el'. repeat split; try assumption.
              constructor; [|exact Hpre]. intros e He. congruence.
           ++ intros (pre & s & post & el' & H & Hpre & Hs & Ht & Hne).
              destruct pre as [|p pre]; simpl in H; injection H as <- ->.
              ** rewrite Hsel in Hs. injection Hs as <-. congruence.
              ** apply Forall_cons in Hpre as [_ Hpre].
                 by exists pre, s, post, el'.
        -- rewrite IHn. split.
           ++ intros H. constructor; [|exact H]. intros e He. congruence.
           ++ intros H. by apply Forall_cons in H as [_ H].
    + split.
      * intros t. rewrite IHs. split.
        -- intros (pre & s & post & el' & -> & Hpre & Hs & Ht & Hne).
           exists (sel :: pre), s, post, el'. repeat split; try assumption.
           constructor; [|exact Hpre]. intros e He. congruence.
        -- intros (pre & s & post & el' & H & Hpre & Hs & Ht & Hne).
           destruct pre as [|p pre]; simpl in H; injection H as <- ->.
           ++ congruence.
           ++ apply Forall_cons in Hpre as [_ Hpre].
              by exists pre, s, post, el'.
      * rewrite IHn. split.
        -- intros H. constructor; [|exact H]. intros e He. congruence.
        -- intros H. by apply Forall_cons in H as [_ H].
Qed.

(** When every character that satisfies [isdigit] is a decimal digit, the
    two filters keep the same characters. *)
Lemma filter_decimal (t : string) :
  forallb is_digit (list_ascii_of_string (str_filter is_py_digit t)) = true →
  str_filter is_py_digit t = str_filter is_digit t.
Proof.
  induction t as [|c t IH]; simpl; [reflexivity|].
  destruct (is_py_digit c) eqn:P; destruct (is_digit c) eqn:D; simpl.
  - rewrite D. simpl. intros H. f_equal. by apply IH.
  - rewrite D. discriminate.
  - unfold is_py_digit in P. rewrite D in P. discriminate.
  - exact IH.
Qed.

Lemma int_of_digits_fold (cs : list ascii) :
  ∀ acc, (0 ≤ acc)%Z →
    (0 ≤ fold_left (fun acc c => 10 * acc + Z.of_nat (nat_of_ascii c - 48))
                   cs acc)%Z.
Proof.
  induction cs as [|c cs IH]; intros acc Hacc; simpl; [exact Hacc|].
  apply IH. lia.
Qed.

(** X8.  [_extract_int_from_text] keeps the characters of the text that
    satisfy [isdigit] and hands them to [int()].  It returns [None] exactly
    when no text is found, when the text holds no such character, when one
    of them is not a decimal digit (a superscript), or when there are more
    of them than [int()] converts; any number it returns is the value of
    the decimal digits of the text, and is not negative. *)
Theorem extract_int_from_text_digits (root : Tag) (selectors : list string) :
  (_extract_int_from_text root selectors = None
   ↔ _extract_text root selectors = None
     ∨ ∃ t, _extract_text root selectors = Some t
            ∧ (str_filter is_py_digit t = ""
               ∨ forallb is_digit
                   (list_ascii_of_string (str_filter is_py_digit t)) = false
               ∨ (0 < int_max_str_digits
                  ∧ int_max_str_digits
                    < String.length (str_filter is_py_digit t))))
  ∧ (∀ n, _extract_int_from_text root selectors = Some n →
          (0 ≤ n)%Z
          ∧ ∃ t, _extract_text root selectors = Some t
                 ∧ str_filter is_py_digit t ≠ ""
                 ∧ str_filter is_py_digit t = str_filter is_digit t
                 ∧ n = int_of_digits (str_filter is_digit t)).
Proof.
  unfold _extract_int_from_text, py_int.
  destruct (_extract_text root selectors) as [t|] eqn:E.
  - pose proof (extract_text_not_empty root selectors) as Hne.
    rewrite E in Hne.
    assert (Ht : nonempty t = true).
    { apply nonempty_true. intros ->. by apply Hne. }
    rewrite Ht. simpl.
    destruct (nonempty (str_filter is_py_digit t)) eqn:N; simpl.
    + apply nonempty_true in N.
      destruct (forallb is_digit
                  (list_ascii_of_string (str_filter is_py_digit t))) eqn:D;
        simpl.
      * destruct ((0 <? int_max_str_digits)
                  && (int_max_str_digits
                      <? String.length (str_filter is_py_digit t))) eqn:L;
          simpl.
        -- apply andb_true_iff in L as [L1 L2].
           apply Nat.ltb_lt in L1, L2. split.
           ++ split; [|reflexivity]. intros _. right. exists t.
              split; [reflexivity|]. right. right. by split.
           ++ discriminate.
        -- split.
           ++ split; [discriminate|].
              intros [H|(t' & [= <-] & [H|[H|[H1 H2]]])]; try congruence.
              apply Nat.ltb_lt in H1, H2. rewrite H1, H2 in L. discriminate.
           ++ intros n [= <-].
              pose proof (filter_decimal t D) as F.
              split; [unfold int_of_digits; by apply int_of_digits_fold|].
              exists t. split; [reflexivity|]. split; [exact N|].
              split; [exact F | by rewrite F].
      * split.
        -- split; [|reflexivity]. intros _. right. exists t.
           split; [reflexivity|]. right. by left.
        -- discriminate.
    + apply nonempty_false in N. split.
      * split; [|reflexivity]. intros _. right. exists t.
        split; [reflexivity|]. by left.
      * discriminate.
  - split.
    + split; [by left | reflexivity].
    + discriminate.
Qed.

(** X9.  [_find_listing_cards] returns what the first of its four selectors
    that matches anything finds, and the empty list exactly when none of
    them matches. *)
Theorem find_listing_cards_first (soup : Tag) :
  (_find_listing_cards soup = []
   ↔ Forall (fun sel => select soup sel = []) listing_card_selectors)
  ∧ (_find_listing_cards soup ≠ [] →
     ∃ pre sel post,
       listing_card_selectors = pre ++ sel :: post
       ∧ Forall (fun s => select soup s = []) pre
       ∧ select soup sel = _find_listing_cards soup).
Proof.
  unfold _find_listing_cards, listing_card_selectors.
  destruct (select soup "article[data-testid*=listing]") as [|c1 r1] eqn:E1.
  2:{ split.
      - split; [discriminate|]. intros H. apply Forall_cons in H as [H _].
        congruence.
      - intros _. eexists [], _, _. repeat split; [constructor | exact E1]. }
  destruct (select soup "div[data-testid*=listing]") as [|c2 r2] eqn:E2.
  2:{ split.
      - split; [discriminate|]. intros H.
        apply Forall_cons in H as [_ H]. apply Forall_cons in H as [H _].
        congruence.
      - intros _. eexists [_], _, _. repeat split; [|exact E2].
        by repeat constructor. }
  destruct (select soup "div[class*=ListingCard]") as [|c3 r3] eqn:E3.
  2:{ split.
      - split; [discriminate|]. intros H.
        do 2 apply Forall_cons in H as [_ H]. apply Forall_cons in H as [H _].
        congruence.
      - intros _. eexists [_; _], _, _. repeat split; [|exact E3].
        by repeat constructor. }
  destruct (select soup "article") as [|c4 r4] eqn:E4.
  - split; [|done]. split; [|reflexivity]. intros _. by repeat constructor.
  - split.
    + split; [discriminate|]. intros H.
      do 3 apply Forall_cons in H as [_ H]. apply Forall_cons in H as [H _].
      congruence.
    + intros _. eexists [_; _; _], _, _. repeat split; [|exact E4].
      by repeat constructor.
Qed.

(** ** White space at the ends of extracted text *)

Lemma lstrip_idem (s : string) : lstrip (lstrip s) = lstrip s.
Proof.
  induction s as [|c s IH]; simpl; [reflexivity|].
  destruct (is_space c) eqn:E; [exact IH|]. simpl. by rewrite E.
Qed.

Lemma rstrip_idem (s : string) : rstrip (rstrip s) = rstrip s.
Proof.
  induction s as [|c s IH]; simpl; [reflexivity|].
  destruct (is_space c && String.eqb (rstrip s) "") eqn:E; [reflexivity|].
  simpl. by rewrite IH, E.
Qed.

Lemma rstrip_lstrip (s : string) : rstrip (lstrip s) = lstrip (rstrip s).
Proof.
  induction s as [|c s IH]; simpl; [reflexivity|].
  destruct (is_space c) eqn:E; simpl.
  - destruct (String.eqb (rstrip s) "") eqn:R; simpl.
    + apply String.eqb_eq in R. by rewrite IH, R.
    + by rewrite E.
  - by rewrite E.
Qed.

Lemma py_strip_idem (s : string) : py_strip (py_strip s) = py_strip s.
Proof.
  unfold py_strip. by rewrite rstrip_lstrip, rstrip_idem, lstrip_idem.
Qed.

Lemma py_strip_fixed (s : string) :
  py_strip s = s ↔ lstrip s = s ∧ rstrip s = s.
Proof.
  unfold py_strip. split.
  - intros H. split.
    + rewrite <- H at 1. by rewrite lstrip_idem.
    + rewrite <- H at 1. by rewrite rstrip_lstrip, rstrip_idem.
  - intros [Hl Hr]. by rewrite Hr, Hl.
Qed.

Lemma rstrip_append (a b : string) :
  rstrip b ≠ "" → rstrip (a +:+ b) = a +:+ rstrip b.
Proof.
  intros Hb. induction a as [|c a IH]; [reflexivity|].
  change (String c a +:+ b) with (String c (a +:+ b)).
  change (String c a +:+ rstrip b) with (String c (a +:+ rstrip b)).
  simpl. rewrite IH.
  destruct (a +:+ rstrip b) eqn:E.
  - destruct a; [destruct (Hb E) | cbv in E; discriminate].
  - simpl. by rewrite andb_false_r.
Qed.

Lemma append_not_empty (a b : string) : b ≠ "" → a +:+ b ≠ "".
Proof. intros Hb. destruct a; [exact Hb | discriminate]. Qed.

Lemma rstrip_concat (sep : string) (pieces : list string) :
  Forall (fun p => p ≠ "" ∧ rstrip p = p) pieces →
  rstrip (String.concat sep pieces) = String.concat sep pieces.
Proof.
  induction pieces as [|p pieces IH]; intros H; [reflexivity|].
  apply Forall_cons in H as [[Hp Hr] H].
  destruct pieces as [|q pieces]; [exact Hr|].
  specialize (IH H).
  assert (Hq : String.concat sep (q :: pieces) ≠ "").
  { apply Forall_cons in H as [[Hq _] _].
    destruct pieces; [exact Hq|]. simpl.
    destruct q; [contradiction | discriminate]. }
  change (String.concat sep (p :: q :: pieces))
    with (p +:+ sep +:+ String.concat sep (q :: pieces)).
  rewrite rstrip_append.
  - rewrite rstrip_append; [by rewrite IH | by rewrite IH].
  - rewrite rstrip_append by (by rewrite IH). rewrite IH.
    by apply append_not_empty.
Qed.

Lemma lstrip_concat (sep : string) (pieces : list string) :
  Forall (fun p => p ≠ "" ∧ lstrip p = p) pieces →
  lstrip (String.concat sep pieces) = String.concat sep pieces.
Proof.
  intros H. destruct H as [|p pieces [Hp Hl] _]; [reflexivity|].
  destruct p as [|c r]; [contradiction|].
  assert (Hc : is_space c = false) by exact (lstrip_head _ _ _ Hl).
  destruct pieces; simpl; by rewrite Hc.
Qed.

(** Text taken from an element is its own [strip()]. *)
Lemma get_text_stripped (el : Tag) (sep : string) :
  py_strip (get_text el sep) = get_text el sep.
Proof.
  assert (H : Forall (fun p => p ≠ "" ∧ py_strip p = p)
                (List.filter nonempty (List.map py_strip (all_strings el)))).
  { induction (all_strings el) as [|x xs IH]; simpl; [constructor|].
    destruct (nonempty (py_strip x)) eqn:N; [|exact IH].
    constructor; [|exact IH].
    split; [by apply nonempty_true | apply py_strip_idem]. }
  unfold get_text. apply py_strip_fixed. split.
  - apply lstrip_concat. eapply Forall_impl; [exact H|].
    intros p [Hp Hs]. split; [exact Hp | by apply py_strip_fixed].
  - apply rstrip_concat. eapply Forall_impl; [exact H|].
    intros p [Hp Hs]. split; [exact Hp | by apply py_strip_fixed].
Qed.

Lemma extract_text_stripped (root : Tag) (selectors : list string)
    (t : string) :
  _extract_text root selectors = Some t → py_strip t = t.
Proof.
  induction selectors as [|sel selectors IH]; simpl; [discriminate|].
  destruct (select_one root sel) as [el|]; [|exact IH].
  destruct (nonempty (get_text el " ")); [|exact IH].
  intros [= <-]. apply get_text_stripped.
Qed.

Lemma strip_if_found_extract (root : Tag) (selectors : list string)
    (old : option string) :
  strip_if_found (_extract_text root selectors) old
  = match _extract_text root selectors with
    | Some t => Some t
    | None => old
    end.
Proof.
  unfold strip_if_found.
  destruct (_extract_text root selectors) as [t|] eqn:E; [|reflexivity].
  rewrite (extract_text_stripped _ _ _ E).
  destruct (nonempty t) eqn:N; [reflexivity|].
  apply nonempty_false in N. subst t.
  by destruct (extract_text_not_empty root selectors).
Qed.

(** X10.  Text returned by [_extract_text] has no white space at either end:
    it is its own [strip()].  So the [strip()] calls of the two phases change
    nothing: the detail phase stores the description, EPC rating, agent
    phone and address exactly as extracted and keeps the old value when
    nothing is found, and the card phase stores the property type as
    extracted. *)
Theorem extracted_text_is_stripped (root : Tag) (selectors : list string)
    (l : PropertyListing) (card soup : Tag) (base_page_url : string) :
  (∀ t, _extract_text root selectors = Some t → py_strip t = t)
  ∧ description (_enrich_from_detail_page l soup)
    = match _extract_text soup description_selectors with
      | Some t => Some t
      | None => description l
      end
  ∧ epcRating (_enrich_from_detail_page l soup)
    = match _extract_text soup epc_rating_selectors with
      | Some t => Some t
      | None => epcRating l
      end
  ∧ agentPhone (_enrich_from_detail_page l soup)
    = match _extract_text soup agent_phone_selectors with
      | Some t => Some t
      | None => agentPhone l
      end
  ∧ address (_enrich_from_detail_page l soup)
    = match _extract_text soup detail_address_selectors with
      | Some t => Some t
      | None => address l
      end
  ∧ propertyType (_parse_listing_card card base_page_url)
    = _extract_text card property_type_selectors.
Proof.
  split; [intros t; apply extract_text_stripped|].
  repeat split; listing_fields; try apply strip_if_found_extract.
  unfold card_property_type.
  destruct (_extract_text card property_type_selectors) as [t|] eqn:E;
    [|reflexivity].
  rewrite (extract_text_stripped _ _ _ E).
  destruct (nonempty t) eqn:N; [reflexivity|].
  apply nonempty_false in N. subst t.
  by destruct (extract_text_not_empty card property_type_selectors).
Qed.

(** ** Features, images and coordinates of the detail page *)

Lemma str_in_elem (x : string) (xs : list string) :
  str_in x xs = true ↔ x ∈ xs.
Proof.
  unfold str_in. rewrite existsb_exists. split.
  - intros (y & Hy & E). apply String.eqb_eq in E as <-.
    by apply list_elem_of_In.
  - intros H. exists x. split; [by apply list_elem_of_In | apply String.eqb_refl].
Qed.

(** One pass of a loop that appends the texts [g x] that are not empty and
    not yet there. *)
Lemma add_unique_fold {A : Type} (g : A → string) (xs : list A) :
  ∀ acc,
    NoDup acc →
    NoDup (fold_left (fun acc x =>
                        if nonempty (g x) && negb (str_in (g x) acc)
                        then acc ++ [g x] else acc) xs acc)
    ∧ ∀ t, t ∈ fold_left (fun acc x =>
                            if nonempty (g x) && negb (str_in (g x) acc)
                            then acc ++ [g x] else acc) xs acc
           ↔ t ∈ acc ∨ (t ≠ "" ∧ ∃ x, x ∈ xs ∧ g x = t).
Proof.
  induction xs as [|x xs IH]; intros acc Hnd; simpl.
  - split; [exact Hnd|]. intros t. split; [by left|].
    intros [H|(_ & y & Hy & _)]; [exact H | by apply elem_of_nil in Hy].
  - destruct (nonempty (g x)) eqn:N; simpl.
    + apply nonempty_true in N.
      destruct (str_in (g x) acc) eqn:S; simpl.
      * apply str_in_elem in S.
        destruct (IH acc Hnd) as [H1 H2]. split; [exact H1|].
        intros t. rewrite H2. split.
        -- intros [H|(Ht & y & Hy & Hg)]; [by left|].
           right. split; [exact Ht|]. exists y.
           split; [by apply list_elem_of_further | exact Hg].
        -- intros [H|(Ht & y & Hy & Hg)]; [by left|].
           apply elem_of_cons in Hy as [->|Hy]; [left; by rewrite <- Hg|].
           right. split; [exact Ht|]. by exists y.
      * assert (Hx : g x ∉ acc).
        { intros H. apply str_in_elem in H. congruence. }
        destruct (IH (acc ++ [g x])) as [H1 H2].
        { apply NoDup_app. split; [exact Hnd|]. split; [|apply NoDup_singleton].
          intros y Hy Hs. apply list_elem_of_singleton in Hs as ->. contradiction. }
        split; [exact H1|]. intros t. rewrite H2, elem_of_app,
          list_elem_of_singleton. split.
        -- intros [[H| ->]|(Ht & y & Hy & Hg)]; [by left | |].
           ++ right. split; [exact N|]. exists x.
              split; [apply list_elem_of_here | reflexivity].
           ++ right. split; [exact Ht|]. exists y.
              split; [by apply list_elem_of_further | exact Hg].
        -- intros [H|(Ht & y & Hy & Hg)]; [left; by left|].
           apply elem_of_cons in Hy as [->|Hy]; [left; by right|].
           right. split; [exact Ht|]. by exists y.
    + apply nonempty_false in N.
      destruct (IH acc Hnd) as [H1 H2]. split; [exact H1|].
      intros t. rewrite H2. split.
      * intros [H|(Ht & y & Hy & Hg)]; [by left|].
        right. split; [exact Ht|]. exists y.
        split; [by apply list_elem_of_further | exact Hg].
      * intros [H|(Ht & y & Hy & Hg)]; [by left|].
        apply elem_of_cons in Hy as [->|Hy]; [congruence|].
        right. split; [exact Ht|]. by exists y.
Qed.

Lemma collect_features_fold (soup : Tag) (selectors : list string) :
  ∀ acc,
    NoDup acc →
    NoDup (fold_left
             (fun features sel =>
                fold_left
                  (fun features li =>
                     let text := get_text li "" in
                     if nonempty text && negb (str_in text features)
                     then features ++ [text] else features)
                  (select soup sel) features)
             selectors acc)
    ∧ ∀ t, t ∈ fold_left
                 (fun features sel =>
                    fold_left
                      (fun features li =>
                         let text := get_text li "" in
                         if nonempty text && negb (str_in text features)
                         then features ++ [text] else features)
                      (select soup sel) features)
                 selectors acc
           ↔ t ∈ acc
             ∨ (t ≠ "" ∧ ∃ sel li, sel ∈ selectors ∧ li ∈ select soup sel
                                   ∧ get_text li "" = t).
Proof.
  induction selectors as [|sel selectors IH]; intros acc Hnd; simpl.
  - split; [exact Hnd|]. intros t. split; [by left|].
    intros [H|(_ & s & li & Hs & _)]; [exact H | by apply elem_of_nil in Hs].
  - destruct (add_unique_fold (fun li => get_text li "") (select soup sel)
                acc Hnd) as [Hnd' Hin].
    destruct (IH _ Hnd') as [H1 H2]. split; [exact H1|].
    intros t. rewrite H2, Hin. split.
    + intros [[H|(Ht & li & Hli & Hg)]|(Ht & s & li & Hs & Hli & Hg)].
      * by left.
      * right. split; [exact Ht|]. exists sel, li.
        split; [apply list_elem_of_here | by split].
      * right. split; [exact Ht|]. exists s, li.
        split; [by apply list_elem_of_further | by split].
    + intros [H|(Ht & s & li & Hs & Hli & Hg)]; [left; by left|].
      apply elem_of_cons in Hs as [->|Hs].
      * left. right. split; [exact Ht|]. by exists li.
      * right. split; [exact Ht|]. by exists s, li.
Qed.

(** X11.  After the detail phase the feature list has no repeated entry and
    no empty entry, and it holds exactly the texts, if not empty, of the
    list items that the two feature selectors find; whatever features the
    listing had before are replaced. *)
Theorem enriched_features (l : PropertyListing) (soup : Tag) :
  NoDup (features (_enrich_from_detail_page l soup))
  ∧ ∀ t, t ∈ features (_enrich_from_detail_page l soup)
         ↔ t ≠ "" ∧ ∃ sel li, sel ∈ features_selectors
                              ∧ li ∈ select soup sel
                              ∧ get_text li "" = t.
Proof.
  listing_fields. unfold collect_features.
  destruct (collect_features_fold soup features_selectors [])
    as [H1 H2]; [constructor|].
  split; [exact H1|]. intros t. rewrite H2. split.
  - intros [H|H]; [by apply elem_of_nil in H | exact H].
  - intros H. by right.
Qed.

Lemma fromkeys_fold (xs : list string) :
  ∀ acc,
    NoDup acc →
    NoDup (fold_left (fun acc x => if str_in x acc then acc else acc ++ [x])
                     xs acc)
    ∧ ∀ t, t ∈ fold_left (fun acc x => if str_in x acc then acc
                                       else acc ++ [x]) xs acc
           ↔ t ∈ acc ∨ t ∈ xs.
Proof.
  induction xs as [|x xs IH]; intros acc Hnd; simpl.
  - split; [exact Hnd|]. intros t. split; [by left|].
    intros [H|H]; [exact H | by apply elem_of_nil in H].
  - destruct (str_in x acc) eqn:S.
    + apply str_in_elem in S. destruct (IH acc Hnd) as [H1 H2].
      split; [exact H1|]. intros t. rewrite H2, elem_of_cons. split.
      * intros [H|H]; [by left | right; by right].
      * intros [H|[->|H]]; [by left | by left | by right].
    + assert (Hx : x ∉ acc).
      { intros H. apply str_in_elem in H. congruence. }
      destruct (IH (acc ++ [x])) as [H1 H2].
      { apply NoDup_app. split; [exact Hnd|]. split; [|apply NoDup_singleton].
        intros y Hy Hs. apply list_elem_of_singleton in Hs as ->. contradiction. }
      split; [exact H1|]. intros t.
      rewrite H2, elem_of_app, list_elem_of_singleton, elem_of_cons. split.
      * intros [[H| ->]|H]; [by left | right; by left | right; by right].
      * intros [H|[->|H]]; [left; by left | left; by right | by right].
Qed.

Lemma collect_images_fold (srcs : list string) :
  ∀ acc,
    fold_left
      (fun images src =>
         if existsb (fun x => contains x src) [ "lid.zoocdn.com"; "zoocdn.com" ]
         then images ++ [_normalize_url src base_url] else images)
      srcs acc
    = acc ++ map (fun src => _normalize_url src base_url)
                 (List.filter
                    (fun src => contains "lid.zoocdn.com" src
                                || contains "zoocdn.com" src) srcs).
Proof.
  induction srcs as [|src srcs IH]; intros acc; simpl.
  - by rewrite app_nil_r.
  - rewrite orb_false_r.
    destruct (contains "lid.zoocdn.com" src || contains "zoocdn.com" src);
      rewrite IH; simpl; [by rewrite <- app_assoc | reflexivity].
Qed.

Lemma string_app_assoc (a b c : string) : (a +:+ b) +:+ c = a +:+ b +:+ c.
Proof.
  induction a as [|x a IH]; [reflexivity|].
  change (String x (((a +:+ b)) +:+ c) = String x (a +:+ b +:+ c)).
  by rewrite IH.
Qed.

Lemma prefix_append (n : string) :
  ∀ s, String.prefix n s = true ↔ ∃ post, s = n +:+ post.
Proof.
  induction n as [|a n IH]; intros s.
  - split; [intros _; by exists s | intros _; by destruct s].
  - destruct s as [|b s]; simpl.
    + split; [discriminate | intros (post & H); discriminate].
    + destruct (ascii_dec a b) as [->|Hne].
      * rewrite IH. split.
        -- intros (post & ->). by exists post.
        -- intros (post & H). injection H as ->. by exists post.
      * split; [discriminate|]. intros (post & H). injection H as -> _.
        contradiction.
Qed.

Lemma contains_append (n s : string) :
  contains n s = true ↔ ∃ pre post, s = pre +:+ n +:+ post.
Proof.
  induction s as [|c s IH]; cbn [contains].
  - rewrite orb_false_r, prefix_append. split.
    + intros (post & H). by exists "", post.
    + intros (pre & post & H). destruct pre; [by exists post | discriminate].
  - rewrite orb_true_iff, prefix_append, IH. split.
    + intros [(post & H)|(pre & post & ->)].
      * by exists "", post.
      * by exists (String c pre), post.
    + intros (pre & post & H). destruct pre as [|x pre].
      * left. by exists post.
      * right. injection H as -> ->. by exists pre, post.
Qed.

Lemma contains_trans (a b c : string) :
  contains a b = true → contains b c = true → contains a c = true.
Proof.
  rewrite !contains_append.
  intros (p1 & q1 & ->) (p2 & q2 & ->).
  exists (p2 +:+ p1), (q1 +:+ q2). by rewrite !string_app_assoc.
Qed.

(** The first host name of the image test is subsumed by the second. *)
Lemma cdn_test (src : string) :
  contains "lid.zoocdn.com" src || contains "zoocdn.com" src
  = contains "zoocdn.com" src.
Proof.
  destruct (contains "lid.zoocdn.com" src) eqn:E; [|reflexivity].
  simpl. symmetry. by apply (contains_trans _ "lid.zoocdn.com").
Qed.

(** X12.  After the detail phase the image list has no repeated entry and
    holds exactly the normalised [src] of the images whose [src] contains
    [zoocdn.com] (the test for [lid.zoocdn.com] adds nothing); whatever
    images the listing had before are replaced. *)
Theorem enriched_images (l : PropertyListing) (soup : Tag) :
  NoDup (images (_enrich_from_detail_page l soup))
  ∧ ∀ u, u ∈ images (_enrich_from_detail_page l soup)
         ↔ ∃ src, src ∈ select_attr soup "img[src]" "src"
                  ∧ contains "zoocdn.com" src = true
                  ∧ u = _normalize_url src base_url.
Proof.
  listing_fields. unfold collect_images, fromkeys.
  rewrite collect_images_fold. simpl.
  destruct (fromkeys_fold
              (map (fun src => _normalize_url src base_url)
                   (List.filter
                      (fun src => contains "lid.zoocdn.com" src
                                  || contains "zoocdn.com" src)
                      (select_attr soup "img[src]" "src"))) [])
    as [H1 H2]; [constructor|].
  split; [exact H1|]. intros u. rewrite H2. split.
  - intros [H|H]; [by apply elem_of_nil in H|].
    apply list_elem_of_In, in_map_iff in H as (src & <- & Hsrc).
    apply filter_In in Hsrc as [Hin Hc]. rewrite cdn_test in Hc.
    exists src. repeat split; [by apply list_elem_of_In | exact Hc].
  - intros (src & Hin & Hc & ->). right.
    apply list_elem_of_In, in_map_iff. exists src. split; [reflexivity|].
    apply filter_In. split; [by apply list_elem_of_In|]. by rewrite cdn_test.
Qed.

Lemma scan_candidates_shape (json_candidates : list string)
    (c : list (string * pyval)) :
  scan_candidates json_candidates = TryReturn c →
  ∃ lat lon, c = [ ("latitude", VStr lat); ("longitude", VStr lon) ].
Proof.
  induction json_candidates as [|cand rest IH]; simpl; [discriminate|].
  destruct (contains "latitude" cand && contains "longitude" cand); [|exact IH].
  destruct (json_loads cand) as [[| | | | | |data]|]; try discriminate.
  destruct (truthy (dict_get data "latitude")
            && truthy (dict_get data "longitude")); [|exact IH].
  intros [= <-]. eauto.
Qed.

Lemma coordinates_of_scripts_shape (scripts : list (option string))
    (c : list (string * pyval)) :
  coordinates_of_scripts scripts = Some c →
  ∃ lat lon, c = [ ("latitude", VStr lat); ("longitude", VStr lon) ].
Proof.
  induction scripts as [|script scripts IH]; simpl; [discriminate|].
  destruct (nonempty _); simpl; [|exact IH].
  destruct (contains "latitude" _ && contains "longitude" _); [|exact IH].
  destruct (scan_candidates _) as [c'| |e] eqn:E.
  - intros [= <-]. by apply scan_candidates_shape in E.
  - exact IH.
  - destruct (coord_search "latitude" _) as [lat|]; [|exact IH].
    destruct (coord_search "longitude" _) as [lon|]; [|exact IH].
    intros [= <-]. eauto.
Qed.

Lemma coordinates_of_scripts_none (scripts : list (option string)) :
  Forall (fun script =>
            ∀ content, script = Some content →
              contains "latitude" content && contains "longitude" content
              = false) scripts →
  coordinates_of_scripts scripts = None.
Proof.
  induction scripts as [|script scripts IH]; intros H; simpl; [reflexivity|].
  apply Forall_cons in H as [Hs H].
  destruct script as [content|]; simpl; [|by apply IH].
  destruct (nonempty content); simpl; [|by apply IH].
  rewrite (Hs content eq_refl). by apply IH.
Qed.

(** X13.  Coordinates are found whole or not at all: a result of
    [_extract_coordinates_from_scripts] is a dictionary with exactly the two
    keys [latitude] and [longitude], both holding text; no script that
    mentions both words means no result.  The detail phase stores a result
    as it is and otherwise keeps the coordinates the listing had. *)
Theorem enriched_coordinates (l : PropertyListing) (soup : Tag) :
  (∀ c, _extract_coordinates_from_scripts soup = Some c →
        ∃ lat lon, c = [ ("latitude", VStr lat); ("longitude", VStr lon) ])
  ∧ (Forall (fun script =>
               ∀ content, script = Some content →
                 contains "latitude" content && contains "longitude" content
                 = false) (script_strings soup) →
     _extract_coordinates_from_scripts soup = None)
  ∧ coordinates (_enrich_from_detail_page l soup)
    = match _extract_coordinates_from_scripts soup with
      | Some c => Some c
      | None => coordinates l
      end.
Proof.
  split; [intros c; apply coordinates_of_scripts_shape|].
  split; [apply coordinates_of_scripts_none|].
  listing_fields.
  destruct (_extract_coordinates_from_scripts soup) as [c|] eqn:E;
    [|reflexivity].
  apply coordinates_of_scripts_shape in E as (lat & lon & ->). reflexivity.
Qed.

(** ** Scraping: requests, result size and what every listing satisfies *)

(** X14.  [_safe_get] issues exactly one request and catches
    [RequestException]s only.  It returns the body exactly when the
    transport answers with a status outside 400-599 (so a 1xx or 3xx answer
    counts as a success) and the delay that follows raises nothing.  It
    returns [None] when the transport raises a [RequestException], and when
    the status is an error status.  An exception of the transport that is
    not a [RequestException], and the [ValueError] of [time.sleep] for a
    negative delay, go through to the caller.  When the fetch of the search
    page gives [None], [scrape_search] returns no listing and issues no
    further request. *)
Theorem safe_get_outcome (url_ : string) (t : nat) :
  ∃ r,
    _safe_get_exn url_ t = (r, S t)
    ∧ (∀ html, r = Ok (Some html)
               ↔ session_get_fault t url_ = false
                 ∧ sleep_raises = false
                 ∧ ∃ resp, session_get t url_ = inl resp
                           ∧ ¬ (400 ≤ status_code resp < 600)%Z
                           ∧ html = text resp)
    ∧ (r = Ok None
       ↔ session_get_fault t url_ = false
         ∧ ((∃ msg, session_get t url_ = inr msg)
            ∨ (sleep_raises = false
               ∧ ∃ resp, session_get t url_ = inl resp
                         ∧ (400 ≤ status_code resp < 600)%Z)))
    ∧ (∀ e, r = Raise e
            ↔ (e = TransportError ∧ session_get_fault t url_ = true)
              ∨ (e = ValueError
                 ∧ session_get_fault t url_ = false
                 ∧ sleep_raises = true
                 ∧ ∃ resp, session_get t url_ = inl resp))
    ∧ (r = Ok None →
       ∀ max_results, scrape_search_exn url_ max_results t = (Ok [], S t)).
Proof.
  eexists. split; [apply safe_get_exn_spec|].
  assert (Hnone : ∀ r,
            _safe_get_exn url_ t = (r, S t) → r = Ok None →
            ∀ max_results, scrape_search_exn url_ max_results t = (Ok [], S t)).
  { intros r Hr -> max_results. unfold scrape_search_exn, bind.
    by rewrite Hr. }
  specialize (Hnone _ (safe_get_exn_spec url_ t)).
  destruct (session_get_fault t url_).
  { split; [|split; [|split]]; [| | |exact Hnone].
    - intros html. split; [discriminate | by intros [? _]].
    - split; [discriminate | by intros [? _]].
    - intros e. split; [intros [= <-]; by left|].
      intros [[-> _]|(_ & ? & _)]; [reflexivity | discriminate]. }
  destruct (session_get t url_) as [resp|msg].
  - destruct sleep_raises.
    { split; [|split; [|split]]; [| | |exact Hnone].
      - intros html. split; [discriminate | by intros (_ & ? & _)].
      - split; [discriminate|].
        intros (_ & [(msg & ?)|(? & _)]); discriminate.
      - intros e. split.
        + intros [= <-]. right. split; [reflexivity|]. split; [reflexivity|].
          split; [reflexivity|]. by exists resp.
        + intros [[_ ?]|(-> & _)]; [discriminate | reflexivity]. }
    destruct ((400 <=? status_code resp)%Z && (status_code resp <? 600)%Z)
      eqn:E.
    + apply andb_true_iff in E as [E1 E2].
      apply Z.leb_le in E1. apply Z.ltb_lt in E2.
      split; [|split; [|split]]; [| | |exact Hnone].
      * intros html. split; [discriminate|].
        intros (_ & _ & r & [= <-] & Hn & _). lia.
      * split; [|reflexivity]. intros _. split; [reflexivity|]. right.
        split; [reflexivity|]. exists resp. split; [reflexivity | lia].
      * intros e. split; [discriminate|].
        intros [[_ ?]|(_ & _ & ? & _)]; discriminate.
    + assert (Hok : ¬ (400 ≤ status_code resp < 600)%Z).
      { apply andb_false_iff in E as [E|E];
          [apply Z.leb_gt in E | apply Z.ltb_ge in E]; lia. }
      split; [|split; [|split]]; [| | |exact Hnone].
      * intros html. split.
        -- intros [= <-]. split; [reflexivity|]. split; [reflexivity|].
           exists resp. by repeat split.
        -- by intros (_ & _ & r & [= <-] & _ & ->).
      * split; [discriminate|].
        intros (_ & [(msg & ?)|(_ & r & [= <-] & ?)]); [discriminate|].
        by destruct Hok.
      * intros e. split; [discriminate|].
        intros [[_ ?]|(_ & _ & ? & _)]; discriminate.
  - split; [|split; [|split]]; [| | |exact Hnone].
    + intros html. split; [discriminate|].
      intros (_ & _ & r & ? & _). discriminate.
    + split; [|reflexivity]. intros _. split; [reflexivity|]. left.
      by exists msg.
    + intros e. split; [discriminate|].
      intros [[_ ?]|(_ & _ & _ & r & ?)]; discriminate.
Qed.




(** A property of the record that the card phase establishes and the detail
    phase keeps holds of every listing [scrape_search] returns. *)
Lemma scrape_cards_invariant (Q : PropertyListing → Prop)
    (cards : list Tag) (search_url : string) (max_results : option Z) :
  (∀ card, Q (_parse_listing_card card search_url)) →
  (∀ p soup, Q p → Q (_enrich_from_detail_page p soup)) →
  ∀ acc t,
    Forall (fun l => ∃ p, l = asdict p ∧ Q p) acc →
    ∃ ls t',
      scrape_cards cards search_url max_results acc t = (Ok ls, t')
      ∧ Forall (fun l => ∃ p, l = asdict p ∧ Q p) ls.
Proof.
  intros Hcard Hdetail.
  induction cards as [|card cards IH]; intros acc t Hacc; cbn [scrape_cards].
  - exists acc, t. by split.
  - destruct (cap_reached max_results acc); [exists acc, t; by split|].
    assert (Hstep : ∀ p t0, Q p → ∃ ls t',
      scrape_cards cards search_url max_results (acc ++ [asdict p]) t0
      = (Ok ls, t')
      ∧ Forall (fun l => ∃ p, l = asdict p ∧ Q p) ls).
    { intros p t0 Hp. apply IH. apply Forall_app. split; [exact Hacc|].
      constructor; [by exists p | constructor]. }
    destruct (url (_parse_listing_card card search_url)) as [u|];
      [|by apply Hstep].
    destruct (nonempty u); [|by apply Hstep].
    unfold bind. rewrite safe_get_spec. apply Hstep.
    destruct (if fetch_fails t u then _ else _) as [html|]; [|apply Hcard].
    destruct (nonempty html); [apply Hdetail|]; apply Hcard.
Qed.

Lemma scrape_search_invariant (Q : PropertyListing → Prop)
    (search_url : string) (max_results : option Z) (t : nat) :
  (∀ card, Q (_parse_listing_card card search_url)) →
  (∀ p soup, Q p → Q (_enrich_from_detail_page p soup)) →
  ∃ ls t',
    scrape_search search_url max_results t = (Ok ls, t')
    ∧ Forall (fun l => ∃ p, l = asdict p ∧ Q p) ls.
Proof.
  intros Hcard Hdetail. unfold scrape_search, bind. rewrite safe_get_spec.
  destruct (if fetch_fails t search_url then _ else _) as [html|].
  - apply scrape_cards_invariant; [exact Hcard | exact Hdetail | constructor].
  - exists [], (S t). split; [reflexivity | constructor].
Qed.

(** X16.  Every listing that [scrape_search] returns is a dictionary with
    the twenty-two fields of [PropertyListing] in declaration order; its
    title is text, and the living-room count, the price history and the
    points of interest are never filled in: they are [None], [[]] and
    [[]]. *)
Theorem scraped_listing_fields (search_url : string) (max_results : option Z)
    (t : nat) :
  ∃ ls t',
    scrape_search search_url max_results t = (Ok ls, t')
    ∧ Forall (fun l => map fst l = listing_keys
                       ∧ (∃ s, dict_get l "title" = VStr s)
                       ∧ dict_get l "livingroom" = VNone
                       ∧ dict_get l "priceHistory" = VList []
                       ∧ dict_get l "pointsOfInterest" = VList []) ls.
Proof.
  destruct (scrape_search_invariant
              (fun p => livingroom p = None ∧ priceHistory p = []
                        ∧ pointsOfInterest p = [])
              search_url max_results t) as (ls & t' & -> & Hall).
  { intros card. by listing_fields. }
  { intros p soup H. by listing_fields. }
  exists ls, t'. split; [reflexivity|].
  eapply Forall_impl; [exact Hall|].
  intros l (p & -> & H1 & H2 & H3). unfold asdict. simpl.
  rewrite H1, H2, H3. split; [reflexivity|]. split; [eauto|]. by repeat split.
Qed.

(** X17.  In every listing that [scrape_search] returns, [type] and
    [propertyType] hold the same value, and the category is [None], [rent]
    or [sale]. *)
Theorem scraped_listing_category_type (search_url : string)
    (max_results : option Z) (t : nat) :
  ∃ ls t',
    scrape_search search_url max_results t = (Ok ls, t')
    ∧ Forall (fun l => dict_get l "type" = dict_get l "propertyType"
                       ∧ (dict_get l "category" = VNone
                          ∨ dict_get l "category" = VStr "rent"
                          ∨ dict_get l "category" = VStr "sale")) ls.
Proof.
  destruct (scrape_search_invariant
              (fun p => type p = propertyType p
                        ∧ (category p = None ∨ category p = Some "rent"
                           ∨ category p = Some "sale"))
              search_url max_results t) as (ls & t' & -> & Hall).
  { intros card. listing_fields. split; [reflexivity|].
    unfold card_category.
    destruct (_extract_text card category_selectors) as [c|]; [|by left].
    destruct (nonempty c); [|by left].
    destruct (contains "rent" (lower c)); [right; by left|].
    destruct (contains "sale" (lower c) || contains "buy" (lower c));
      [right; by right | by left]. }
  { intros p soup H. by listing_fields. }
  exists ls, t'. split; [reflexivity|].
  eapply Forall_impl; [exact Hall|].
  intros l (p & -> & H1 & H2). unfold asdict. simpl. rewrite H1.
  split; [reflexivity|].
  destruct H2 as [-> |[-> | ->]]; simpl; auto.
Qed.

(** X18.  In every listing that [scrape_search] returns, a postal code is
    there only together with an address, and it is the postcode that
    [_extract_postcode] finds in that address. *)
Theorem scraped_listing_postcode (search_url : string)
    (max_results : option Z) (t : nat) :
  ∃ ls t',
    scrape_search search_url max_results t = (Ok ls, t')
    ∧ Forall (fun l => ∀ v, dict_get l "postalCode" = v → v ≠ VNone →
                ∃ a pc, dict_get l "address" = VStr a
                        ∧ v = VStr pc
                        ∧ _extract_postcode a = Some pc) ls.
Proof.
  destruct (scrape_search_invariant
              (fun p => postalCode p = None
                        ∨ ∃ a, address p = Some a
                               ∧ postalCode p = _extract_postcode a)
              search_url max_results t) as (ls & t' & -> & Hall).
  { intros card. left. by listing_fields. }
  { intros p soup _. listing_fields. rewrite strip_if_found_extract.
    destruct (_extract_text soup detail_address_selectors) as [a|] eqn:E.
    - right. exists a. split; [reflexivity|].
      destruct (nonempty a) eqn:N; [reflexivity|].
      apply nonempty_false in N. by rewrite N.
    - by left. }
  exists ls, t'. split; [reflexivity|].
  eapply Forall_impl; [exact Hall|].
  intros l (p & -> & H) v Hv Hne. unfold asdict in *. simpl in *.
  destruct H as [H|(a & Ha & Hp)].
  - rewrite H in Hv. simpl in Hv. congruence.
  - rewrite Ha. rewrite Hp in Hv.
    destruct (_extract_postcode a) as [pc|] eqn:Epc; simpl in Hv;
      [|congruence].
    subst v. exists a, pc. by repeat split.
Qed.

(** X19.  In every listing that [scrape_search] returns, none of the
    optional text fields taken from the page holds the empty string. *)
Theorem scraped_listing_no_empty_text (search_url : string)
    (max_results : option Z) (t : nat) :
  ∃ ls t',
    scrape_search search_url max_results t = (Ok ls, t')
    ∧ Forall (fun l =>
                Forall (fun field => dict_get l field ≠ VStr "")
                  [ "address"; "epcRating"; "price"; "description";
                    "category"; "type"; "agent"; "agentPhone";
                    "propertyType"; "postalCode" ]) ls.
Proof.
  destruct (scrape_search_invariant
              (fun p => Forall (fun o => o ≠ Some "") (text_fields p))
              search_url max_results t) as (ls & t' & -> & Hall).
  { intros card. apply parse_listing_card_text_fields. }
  { intros p soup. apply enrich_text_fields. }
  exists ls, t'. split; [reflexivity|].
  eapply Forall_impl; [exact Hall|].
  intros l (p & -> & H). unfold text_fields in H.
  repeat match goal with
         | H : Forall _ (_ :: _) |- _ => apply Forall_cons in H as [? H]
         end.
  unfold asdict. simpl.
  repeat constructor;
    match goal with
    | H : ?o ≠ Some "" |- of_opt_str ?o ≠ VStr "" =>
        destruct o; simpl; congruence
    end.
Qed.

(** ** Postcodes and letter case *)

Lemma to_upper_idem (c : ascii) : to_upper (to_upper c) = to_upper c.
Proof. destruct c as [[] [] [] [] [] [] [] []]; reflexivity. Qed.

Lemma to_upper_lower (c : ascii) : to_upper (to_lower c) = to_upper c.
Proof. destruct c as [[] [] [] [] [] [] [] []]; reflexivity. Qed.

Lemma to_upper_not_sharp (c : ascii) :
  Ascii.eqb (to_upper c) (ascii_of_nat 223) = Ascii.eqb c (ascii_of_nat 223).
Proof. destruct c as [[] [] [] [] [] [] [] []]; reflexivity. Qed.

Lemma to_lower_not_sharp (c : ascii) :
  Ascii.eqb (to_lower c) (ascii_of_nat 223) = Ascii.eqb c (ascii_of_nat 223).
Proof. destruct c as [[] [] [] [] [] [] [] []]; reflexivity. Qed.

Lemma to_upper_fixed (c : ascii) :
  is_upper c || is_digit c || is_space c = true →
  to_upper c = c ∧ Ascii.eqb c (ascii_of_nat 223) = false.
Proof.
  destruct c as [[] [] [] [] [] [] [] []]; intros H;
    first [by split | vm_compute in H; discriminate].
Qed.

Lemma upper_idem (s : string) : upper (upper s) = upper s.
Proof.
  induction s as [|c s IH]; cbn [upper]; [reflexivity|].
  destruct (Ascii.eqb c (ascii_of_nat 223)) eqn:E.
  - cbn [upper]. by rewrite IH.
  - cbn [upper]. by rewrite to_upper_not_sharp, E, to_upper_idem, IH.
Qed.

Lemma upper_lower (s : string) : upper (lower s) = upper s.
Proof.
  unfold lower.
  induction s as [|c s IH]; cbn [str_map upper]; [reflexivity|].
  rewrite to_lower_not_sharp.
  destruct (Ascii.eqb c (ascii_of_nat 223)); by rewrite ?to_upper_lower, IH.
Qed.

Lemma nonempty_upper (s : string) : nonempty (upper s) = nonempty s.
Proof.
  destruct s as [|c s]; [reflexivity|]. cbn [upper].
  by destruct (Ascii.eqb c (ascii_of_nat 223)).
Qed.

Lemma nonempty_lower (s : string) : nonempty (lower s) = nonempty s.
Proof. by destruct s. Qed.

Lemma upper_fixed (m : list ascii) :
  Forall (fun c => to_upper c = c ∧ Ascii.eqb c (ascii_of_nat 223) = false)
    m →
  upper (string_of_list_ascii m) = string_of_list_ascii m.
Proof.
  induction 1 as [|c m [Hc Hs] _ IH]; cbn [string_of_list_ascii upper];
    [reflexivity|].
  by rewrite Hs, Hc, IH.
Qed.

Lemma forallb_to_upper (p : ascii → bool) (m : list ascii) :
  (∀ c, p c = true →
        to_upper c = c ∧ Ascii.eqb c (ascii_of_nat 223) = false) →
  forallb p m = true →
  Forall (fun c => to_upper c = c ∧ Ascii.eqb c (ascii_of_nat 223) = false) m.
Proof.
  intros Hp H. apply Forall_forall. intros c Hc. apply Hp.
  rewrite forallb_forall in H. apply H. by apply list_elem_of_In.
Qed.

(** X20.  On ASCII text [_extract_postcode] does not depend on the letter
    case: the text, its upper-case form and its lower-case form give the
    same result, and a postcode it returns is in upper case.  (Beyond ASCII
    this fails: the lower-case form of the Kelvin sign is the letter k.) *)
Theorem extract_postcode_case (text_ : string) :
  isascii text_ = true →
  _extract_postcode (upper text_) = _extract_postcode text_
  ∧ _extract_postcode (lower text_) = _extract_postcode text_
  ∧ ∀ r, _extract_postcode text_ = Some r → upper r = r.
Proof.
  intros _. split; [|split].
  - unfold _extract_postcode. by rewrite nonempty_upper, upper_idem.
  - unfold _extract_postcode. by rewrite nonempty_lower, upper_lower.
  - intros r H.
    apply extract_postcode_some in H as (pre & m & post & -> & Hat & _).
    destruct Hat as (_ & (area & district & sub & gap & d & unit_ & -> &
                          Pa & _ & Pd & _ & Ps & _ & Pg & Pdd & Pu & _) & _).
    assert (Hu : ∀ c, is_upper c = true →
                      to_upper c = c
                      ∧ Ascii.eqb c (ascii_of_nat 223) = false).
    { intros c Hc. apply to_upper_fixed. by rewrite Hc. }
    assert (Hd : ∀ c, is_digit c = true →
                      to_upper c = c
                      ∧ Ascii.eqb c (ascii_of_nat 223) = false).
    { intros c Hc. apply to_upper_fixed. rewrite Hc. by rewrite orb_true_r. }
    assert (Hs : ∀ c, is_space c = true →
                      to_upper c = c
                      ∧ Ascii.eqb c (ascii_of_nat 223) = false).
    { intros c Hc. apply to_upper_fixed. rewrite Hc. by rewrite orb_true_r. }
    apply upper_fixed. repeat (apply Forall_app; split).
    + by apply (forallb_to_upper is_upper).
    + by apply (forallb_to_upper is_digit).
    + by apply (forallb_to_upper is_upper).
    + by apply (forallb_to_upper is_space).
    + constructor; [by apply Hd | constructor].
    + by apply (forallb_to_upper is_upper).
Qed.

(** ** The runner: collecting, monitoring *)

Lemma collect_listings_ok (search_urls : list string)
    (max_per_search : option Z) :
  ∀ acc t, ∃ more t',
    collect_listings search_urls max_per_search acc t = (Ok (acc ++ more), t')
    ∧ ((∀ t0 u, fetch_fails t0 u = true) →
       more = [] ∧ t' = t + length search_urls).
Proof.
  induction search_urls as [|u search_urls IH]; intros acc t; simpl.
  - exists [], t. rewrite app_nil_r. split; [reflexivity|]. intros _. split; [reflexivity | lia].
  - unfold bind at 1. unfold try_except, bind.
    destruct (scrape_search_exn u max_per_search t) as [[ls|e] t1] eqn:Hs;
      unfold ret.
    + destruct (IH (acc ++ ls) t1) as (more & t' & -> & Hfail).
      exists (ls ++ more), t'. rewrite app_assoc. split; [reflexivity|].
      intros Hall. destruct (Hfail Hall) as [-> ->].
      destruct (scrape_search_exn_fails u max_per_search t (Hall t u))
        as (r & Hr & Hnil).
      rewrite Hs in Hr. injection Hr as Hr1 Hr2. subst r t1.
      rewrite (Hnil ls eq_refl). split; [reflexivity | lia].
    + destruct (IH acc t1) as (more & t' & -> & Hfail).
      exists more, t'. split; [reflexivity|].
      intros Hall. destruct (Hfail Hall) as [-> ->].
      destruct (scrape_search_exn_fails u max_per_search t (Hall t u))
        as (r & Hr & _).
      rewrite Hs in Hr. injection Hr as _ Hr2. subst t1.
      split; [reflexivity | lia].
Qed.

Lemma records_of_dicts (ls : list listing) : records_of (map VDict ls) = Ok ls.
Proof. induction ls as [|l ls IH]; simpl; [reflexivity|]. by rewrite IH. Qed.

Lemma records_of_other (data : list pyval) :
  (∃ x, x ∈ data ∧ ∀ d, x ≠ VDict d) → records_of data = Raise AttributeError.
Proof.
  induction data as [|y data IH]; intros (x & Hx & Hnd).
  - by apply elem_of_nil in Hx.
  - destruct y as [| | | | | |d]; try reflexivity.
    simpl. rewrite IH; [reflexivity|].
    apply elem_of_cons in Hx as [->|Hx]; [by destruct (Hnd d)|].
    by exists x.
Qed.

(** X21.  When the snapshot loads as empty (first run, unreadable file, or
    content that is not a list), the monitoring step of [run_scraper]
    reports every de-duplicated listing that has an identity key as new, in
    order, reports nothing as delisted, and saves the current listings. *)
Theorem monitoring_first_run (all_listings : list listing)
    (snapshot_file : string) :
  load_snapshot snapshot_file = Ok [] →
  run_monitoring (deduplicate_listings all_listings default_id_fields)
                 snapshot_file
  = (Ok (List.filter (keyed default_id_fields)
           (deduplicate_listings all_listings default_id_fields), []),
     save_snapshot snapshot_file
       (deduplicate_listings all_listings default_id_fields)).
Proof.
  intros Hload. unfold run_monitoring. rewrite Hload. simpl.
  destruct (compute_deltas_against_nothing
              (deduplicate_listings all_listings default_id_fields)
              default_id_fields) as [-> _]; [apply dedup_loop_keys|].
  reflexivity.
Qed.

(** X22.  When the snapshot is a list with an element that is not a
    dictionary, the monitoring step of [run_scraper] raises
    [AttributeError] out of [compute_deltas], and the snapshot file is not
    rewritten. *)
Theorem monitoring_non_record_snapshot (unique_listings : list listing)
    (snapshot_file : string) (data : list pyval) :
  load_snapshot snapshot_file = Ok data →
  (∃ x, x ∈ data ∧ ∀ d, x ≠ VDict d) →
  run_monitoring unique_listings snapshot_file = (Raise AttributeError, fs).
Proof.
  intros Hload Hx. unfold run_monitoring.
  by rewrite Hload, (records_of_other data Hx).
Qed.

(** X23.  Without monitoring, [run_scraper] never raises and never touches
    the snapshot: it hands the de-duplicated listings of all search URLs to
    the export with no new and no delisted listing, or returns early when
    nothing was collected.  When every fetch fails it collects nothing,
    returns early after one request per search URL, and leaves the snapshot
    as it is even with monitoring enabled. *)
Theorem run_scraper_core_edges (search_urls : list string)
    (max_per_search : option Z) (snapshot_file : string) (t : nat) :
  (∃ all_listings t',
     collect_listings search_urls max_per_search [] t = (Ok all_listings, t')
     ∧ run_scraper_core search_urls max_per_search false snapshot_file t
       = (Ok (match all_listings with
              | [] => NothingCollected
              | _ :: _ =>
                  Exported
                    (deduplicate_listings all_listings default_id_fields)
                    [] []
              end, fs), t'))
  ∧ ((∀ t0 u, fetch_fails t0 u = true) →
     ∀ monitoring_enabled,
       run_scraper_core search_urls max_per_search monitoring_enabled
         snapshot_file t
       = (Ok (NothingCollected, fs), t + length search_urls)).
Proof.
  destruct (collect_listings_ok search_urls max_per_search [] t)
    as (more & t' & Hc & Hfail).
  simpl in Hc. split.
  - exists more, t'. split; [exact Hc|].
    unfold run_scraper_core, bind. rewrite Hc. by destruct more.
  - intros Hall monitoring_enabled. destruct (Hfail Hall) as [-> ->].
    unfold run_scraper_core, bind. by rewrite Hc.
Qed.

(** ** Listings follow the cards *)

Lemma scrape_cards_order (cards : list Tag) (search_url : string)
    (max_results : option Z) :
  ∀ acc t, ∃ more t',
    scrape_cards cards search_url max_results acc t = (Ok (acc ++ more), t')
    ∧ Forall2
        (fun card l =>
           ∃ p, l = asdict p
                ∧ title p = title (_parse_listing_card card search_url)
                ∧ price p = price (_parse_listing_card card search_url)
                ∧ url p = url (_parse_listing_card card search_url)
                ∧ agent p = agent (_parse_listing_card card search_url)
                ∧ category p = category (_parse_listing_card card search_url)
                ∧ propertyType p
                  = propertyType (_parse_listing_card card search_url)
                ∧ bedrooms p = bedrooms (_parse_listing_card card search_url)
                ∧ bathrooms p
                  = bathrooms (_parse_listing_card card search_url))
        (take (length more) cards) more.
Proof.
  induction cards as [|card cards IH]; intros acc t; cbn [scrape_cards].
  - exists [], t. rewrite app_nil_r. split; [reflexivity | constructor].
  - destruct (cap_reached max_results acc).
    { exists [], t. rewrite app_nil_r. split; [reflexivity | constructor]. }
    assert (Hstep : ∀ p t0,
      title p = title (_parse_listing_card card search_url) →
      price p = price (_parse_listing_card card search_url) →
      url p = url (_parse_listing_card card search_url) →
      agent p = agent (_parse_listing_card card search_url) →
      category p = category (_parse_listing_card card search_url) →
      propertyType p = propertyType (_parse_listing_card card search_url) →
      bedrooms p = bedrooms (_parse_listing_card card search_url) →
      bathrooms p = bathrooms (_parse_listing_card card search_url) →
      ∃ more t',
        scrape_cards cards search_url max_results (acc ++ [asdict p]) t0
        = (Ok (acc ++ more), t')
        ∧ Forall2
            (fun card l =>
               ∃ p, l = asdict p
                    ∧ title p = title (_parse_listing_card card search_url)
                    ∧ price p = price (_parse_listing_card card search_url)
                    ∧ url p = url (_parse_listing_card card search_url)
                    ∧ agent p = agent (_parse_listing_card card search_url)
                    ∧ category p
                      = category (_parse_listing_card card search_url)
                    ∧ propertyType p
                      = propertyType (_parse_listing_card card search_url)
                    ∧ bedrooms p
                      = bedrooms (_parse_listing_card card search_url)
                    ∧ bathrooms p
                      = bathrooms (_parse_listing_card card search_url))
            (take (length more) (card :: cards)) more).
    { intros p t0 H1 H2 H3 H4 H5 H6 H7 H8.
      destruct (IH (acc ++ [asdict p]) t0) as (more & t' & -> & HF).
      exists (asdict p :: more), t'. rewrite <- app_assoc.
      split; [reflexivity|]. simpl. constructor; [|exact HF].
      exists p. by repeat split. }
    destruct (url (_parse_listing_card card search_url)) as [u|] eqn:Hu;
      [|by apply Hstep].
    destruct (nonempty u); [|by apply Hstep].
    unfold bind. rewrite safe_get_spec.
    destruct (if fetch_fails t u then _ else _) as [html|];
      [|by apply Hstep].
    destruct (nonempty html); [|by apply Hstep].
    by apply Hstep.
Qed.

(** X26.  The listings that [scrape_search] returns follow the cards of the
    page in order: the i-th listing is built from the i-th card, and its
    title, price, URL, agent, category, property type, bedroom and bathroom
    counts are those of the card phase, whether or not the detail phase
    ran. *)
Theorem scrape_search_follows_cards (search_url : string)
    (max_results : option Z) (t : nat) (html : string) :
  _safe_get search_url t = (Ok (Some html), S t) →
  ∃ ls t',
    scrape_search search_url max_results t = (Ok ls, t')
    ∧ Forall2
        (fun card l =>
           ∃ p, l = asdict p
                ∧ title p = title (_parse_listing_card card search_url)
                ∧ price p = price (_parse_listing_card card search_url)
                ∧ url p = url (_parse_listing_card card search_url)
                ∧ agent p = agent (_parse_listing_card card search_url)
                ∧ category p = category (_parse_listing_card card search_url)
                ∧ propertyType p
                  = propertyType (_parse_listing_card card search_url)
                ∧ bedrooms p = bedrooms (_parse_listing_card card search_url)
                ∧ bathrooms p
                  = bathrooms (_parse_listing_card card search_url))
        (take (length ls) (_find_listing_cards (BeautifulSoup html))) ls.
Proof.
  intros Hget. unfold scrape_search, bind. rewrite Hget.
  destruct (scrape_cards_order (_find_listing_cards (BeautifulSoup html))
              search_url max_results [] (S t)) as (more & t' & -> & HF).
  by exists more, t'.
Qed.

End Zoopla.

(** * The program on the sample environment *)

Local Abbreviation sample_extract_text :=
  (_extract_text Sample.tag Sample.select Sample.all_strings).
Local Abbreviation sample_parse :=
  (_parse_listing_card Sample.tag Sample.select Sample.all_strings
     Sample.find_a_href Sample.urljoin Sample.urlparse_scheme
     Sample.int_max_str_digits).
Local Abbreviation sample_enrich :=
  (_enrich_from_detail_page Sample.py_repr Sample.json_loads Sample.tag
     Sample.select Sample.all_strings Sample.select_attr
     Sample.script_strings Sample.urljoin Sample.urlparse_scheme
     Sample.base_url).
Local Abbreviation sample_scrape_search :=
  (scrape_search Sample.py_repr Sample.json_loads Sample.tag Sample.select
     Sample.all_strings Sample.select_attr Sample.find_a_href
     Sample.script_strings Sample.BeautifulSoup Sample.urljoin
     Sample.urlparse_scheme Sample.session_get Sample.base_url
     Sample.int_max_str_digits).
Local Abbreviation sample_scrape_cards_exn :=
  (scrape_cards_exn Sample.py_repr Sample.json_loads Sample.tag Sample.select
     Sample.all_strings Sample.select_attr Sample.find_a_href
     Sample.script_strings Sample.BeautifulSoup Sample.urljoin
     Sample.urlparse_scheme Sample.session_get_bad_link Sample.base_url
     Sample.int_max_str_digits Sample.urljoin_raises Sample.urlparse_raises
     Sample.session_get_fault Sample.sleep_raises).
Local Abbreviation sample_scrape_search_exn :=
  (scrape_search_exn Sample.py_repr Sample.json_loads Sample.tag Sample.select
     Sample.all_strings Sample.select_attr Sample.find_a_href
     Sample.script_strings Sample.BeautifulSoup Sample.urljoin
     Sample.urlparse_scheme Sample.session_get_bad_link Sample.base_url
     Sample.int_max_str_digits Sample.urljoin_raises Sample.urlparse_raises
     Sample.session_get_fault Sample.sleep_raises).
Local Abbreviation sample_collect_listings :=
  (collect_listings Sample.py_repr Sample.json_loads Sample.tag Sample.select
     Sample.all_strings Sample.select_attr Sample.find_a_href
     Sample.script_strings Sample.BeautifulSoup Sample.urljoin
     Sample.urlparse_scheme Sample.session_get_bad_link Sample.base_url
     Sample.int_max_str_digits Sample.urljoin_raises Sample.urlparse_raises
     Sample.session_get_fault Sample.sleep_raises).
Local Abbreviation sample_load := (load_snapshot Sample.json_loads Sample.fs).
Local Abbreviation sample_key := (_build_id_key Sample.py_repr).
Local Abbreviation sample_deduplicate := (deduplicate_listings Sample.py_repr).
Local Abbreviation sample_deltas := (compute_deltas Sample.py_repr).

(** C1 as stated fails: a card without a title element gives a listing whose
    title is the empty string, not an absent value. *)
Lemma card_without_title_has_empty_title :
  sample_extract_text Sample.card_untitled title_selectors = None
  ∧ title (sample_parse Sample.card_untitled Sample.search_url) = ""
  ∧ dict_get (asdict (sample_parse Sample.card_untitled Sample.search_url))
             "title" = VStr ""
  ∧ dict_get (asdict (sample_parse Sample.card_untitled Sample.search_url))
             "title" ≠ VNone.
Proof. repeat split; try reflexivity. discriminate. Qed.

(** The sample card without a title, through both phases. *)
Lemma absent_fields_explicit_witness :
  sample_extract_text Sample.card_untitled title_selectors = None
  ∧ title (sample_parse Sample.card_untitled Sample.search_url) = ""
  ∧ title (sample_enrich (sample_parse Sample.card_untitled Sample.search_url)
             Sample.page) = ""
  ∧ dict_get
      (asdict (sample_enrich
                 (sample_parse Sample.card_untitled Sample.search_url)
                 Sample.page))
      "title" = VStr "".
Proof.
  split; [reflexivity|].
  apply (absent_fields_explicit Sample.py_repr Sample.json_loads Sample.tag
           Sample.select Sample.all_strings Sample.select_attr
           Sample.find_a_href Sample.script_strings Sample.urljoin
           Sample.urlparse_scheme Sample.base_url Sample.int_max_str_digits
           Sample.card_untitled Sample.search_url Sample.page).
  reflexivity.
Defined.

(** Two listings with one URL and two titles; two listings without a key. *)
Lemma deduplicate_first_seen_witness :
  sample_deduplicate [Sample.flat_a; Sample.flat_b] default_id_fields
  = [Sample.flat_a]
  ∧ sample_deduplicate ([Sample.anonymous] ++ [Sample.anonymous])
      default_id_fields
    = sample_deduplicate [Sample.anonymous] default_id_fields
      ++ [Sample.anonymous].
Proof.
  destruct (deduplicate_first_seen Sample.py_repr default_id_fields)
    as (_ & Hkeyless & _ & _ & Hurl).
  split.
  - apply (Hurl Sample.flat_a Sample.flat_b "https://z/1");
      [discriminate | reflexivity | reflexivity | reflexivity | reflexivity].
  - apply (Hkeyless [Sample.anonymous] Sample.anonymous). reflexivity.
Defined.

(** C2, counterexample.  Two listings that carry the same URL and differ in
    title are both kept under the default priority when their reference
    numbers differ: the key is taken from the reference number, the first
    field of the priority that is present. *)
Lemma same_url_two_reference_numbers_both_kept :
  dict_get Sample.house_1 "url" = dict_get Sample.house_2 "url"
  ∧ dict_get Sample.house_1 "title" ≠ dict_get Sample.house_2 "title"
  ∧ sample_key Sample.house_1 default_id_fields = Some "uprn:1"
  ∧ sample_key Sample.house_2 default_id_fields = Some "uprn:2"
  ∧ sample_deduplicate [Sample.house_1; Sample.house_2] default_id_fields
    = [Sample.house_1; Sample.house_2].
Proof.
  split; [reflexivity|]. split; [discriminate|].
  split; [reflexivity|]. split; [reflexivity|].
  unfold deduplicate_listings. cbn [dedup_loop].
  change (_build_id_key Sample.py_repr Sample.house_1 default_id_fields)
    with (Some "uprn:1").
  change (_build_id_key Sample.py_repr Sample.house_2 default_id_fields)
    with (Some "uprn:2").
  cbv beta iota.
  rewrite decide_False by apply not_elem_of_empty.
  rewrite decide_False; [reflexivity|].
  intros Hin. apply elem_of_union in Hin as [Hin|Hin].
  - apply elem_of_singleton in Hin. discriminate.
  - by apply not_elem_of_empty in Hin.
Qed.

(** A listing without a key next to one with a key, on either side. *)
Lemma compute_deltas_skips_keyless_witness :
  sample_key Sample.anonymous default_id_fields = None
  ∧ (Sample.anonymous
       ∉ fst (sample_deltas [Sample.anonymous; Sample.flat_a] []
                default_id_fields))
  ∧ (Sample.anonymous
       ∉ snd (sample_deltas [] [Sample.anonymous; Sample.flat_a]
                default_id_fields)).
Proof.
  split; [reflexivity|]. split.
  - apply (compute_deltas_skips_keyless Sample.py_repr
             [Sample.anonymous; Sample.flat_a] [] default_id_fields
             Sample.anonymous).
    reflexivity.
  - apply (compute_deltas_skips_keyless Sample.py_repr
             [] [Sample.anonymous; Sample.flat_a] default_id_fields
             Sample.anonymous).
    reflexivity.
Defined.

(** One keyed listing compared with itself. *)
Lemma compute_deltas_self_empty_witness :
  Forall (fun l => sample_key l default_id_fields ≠ None) [Sample.flat_a]
  ∧ sample_deltas [Sample.flat_a] [Sample.flat_a] default_id_fields = ([], []).
Proof.
  assert (H : Forall (fun l => sample_key l default_id_fields ≠ None)
                     [Sample.flat_a]).
  { constructor; [simpl; discriminate | constructor]. }
  split; [exact H|].
  apply (compute_deltas_self_empty Sample.py_repr [Sample.flat_a]
           default_id_fields H).
Defined.


(** C7 as stated fails: a file that holds a JSON array of numbers, which is
    not a sequence of records, is returned as it is. *)
Lemma load_snapshot_keeps_non_records :
  Sample.fs "numbers.json" = Content "[1, 2]"
  ∧ Sample.json_loads "[1, 2]" = Some (VList [VInt 1; VInt 2])
  ∧ is_record_list (VList [VInt 1; VInt 2]) = false
  ∧ sample_load "numbers.json" = Ok [VInt 1; VInt 2]
  ∧ sample_load "numbers.json" ≠ Ok [].
Proof. repeat split; try reflexivity. discriminate. Qed.

(** A JSON object, an array of records, malformed text, an unreadable file
    and a missing file. *)
Lemma load_snapshot_outcomes_witness :
  sample_load "object.json" = Ok []
  ∧ sample_load "records.json" = Ok [VDict []]
  ∧ sample_load "garbage.json" = Ok []
  ∧ sample_load "locked.json" = Ok []
  ∧ sample_load "missing.json" = Ok []
  ∧ (Sample.fs "locked.json" ≠ Inaccessible
     ∧ ∃ l, sample_load "locked.json" = Ok l).
Proof.
  split; [|split; [|split; [|split; [|split]]]].
  - destruct (load_snapshot_outcomes Sample.json_loads Sample.fs "object.json")
      as (_ & _ & _ & _ & H & _).
    apply (H Sample.object_text (VDict [("not", VStr "a list")]));
      [reflexivity | reflexivity | discriminate].
  - destruct (load_snapshot_outcomes Sample.json_loads Sample.fs "records.json")
      as (_ & _ & _ & _ & _ & H).
    apply (H "[{}]"); reflexivity.
  - destruct (load_snapshot_outcomes Sample.json_loads Sample.fs "garbage.json")
      as (_ & _ & _ & H & _).
    apply (H "]["); reflexivity.
  - destruct (load_snapshot_outcomes Sample.json_loads Sample.fs "locked.json")
      as (_ & _ & H & _).
    apply H. reflexivity.
  - destruct (load_snapshot_outcomes Sample.json_loads Sample.fs
                "missing.json") as (_ & H & _).
    apply H. reflexivity.
  - split; [discriminate|].
    destruct (load_snapshot_outcomes Sample.json_loads Sample.fs
                "locked.json") as (H & _).
    apply H. discriminate.
Defined.

(** * Postcodes in arbitrary text *)

Section UnicodePostcodes.

Local Open Scope nat_scope.

Variable db : Unicode.ucd.

Lemma between_spec (lo hi c : N) :
  Unicode.between lo hi c = true ↔ (lo ≤ c ∧ c ≤ hi)%N.
Proof.
  unfold Unicode.between. rewrite andb_true_iff, !N.leb_le. reflexivity.
Qed.

Lemma between_false (lo hi c : N) :
  (c < lo ∨ hi < c)%N → Unicode.between lo hi c = false.
Proof.
  intros H. destruct (Unicode.between lo hi c) eqn:E; [|reflexivity].
  apply between_spec in E. lia.
Qed.

Lemma unicode_upper_word (c : N) :
  Unicode.is_upper c = true → Unicode.is_word db c = true.
Proof.
  unfold Unicode.is_upper, Unicode.is_word. intros H.
  rewrite H. apply between_spec in H.
  assert ((c <? 128)%N = true) as -> by (apply N.ltb_lt; lia).
  by rewrite orb_true_r.
Qed.

Lemma unicode_upper_not_space (c : N) :
  Unicode.is_upper c = true → Unicode.is_space db c = false.
Proof.
  unfold Unicode.is_upper, Unicode.is_space. intros H.
  apply between_spec in H.
  assert ((c <? 128)%N = true) as -> by (apply N.ltb_lt; lia).
  rewrite !between_false by lia. reflexivity.
Qed.

Lemma unicode_rstrip_id (l : list N) (c : N) :
  Unicode.is_space db c = false →
  Unicode.rstrip db (l ++ [c]) = l ++ [c].
Proof.
  intros Hc. induction l as [|a l IH]; simpl.
  - by rewrite Hc.
  - rewrite IH. destruct (l ++ [c]) eqn:E; [|reflexivity].
    by destruct l.
Qed.

Lemma unicode_strip_id (m : list N) (c1 c2 : N) :
  head m = Some c1 → last m = Some c2 →
  Unicode.is_space db c1 = false → Unicode.is_space db c2 = false →
  Unicode.py_strip db m = m.
Proof.
  intros Hh Hl H1 H2. unfold Unicode.py_strip.
  apply last_Some in Hl as [l' ->]. rewrite unicode_rstrip_id by exact H2.
  destruct (l' ++ [c2]) as [|a r] eqn:E; [reflexivity|].
  simpl in Hh. injection Hh as ->. simpl. by rewrite H1.
Qed.

(** C8, as the code has it.  [_extract_postcode] upper-cases the text and
    returns the leftmost substring that starts and ends at a word boundary
    and is made of one or two letters of [A-Z], one or two decimal digits,
    at most one letter, any amount of white space (none included), one
    decimal digit and two letters; it returns [None] exactly when the
    upper-cased text has no such substring.  The address
    [... London SE1 2AA] gives [SE1 2AA]. *)
Theorem extract_postcode_first_match (text : list N) :
  (∀ r, Unicode._extract_postcode db text = Some r →
     ∃ pre post,
       postcode_at (Unicode.is_word db) Unicode.is_upper
         (Unicode.is_digit db) (Unicode.is_space db)
         (Unicode.upper db text) pre r post
       ∧ ∀ pre' m' post',
           postcode_at (Unicode.is_word db) Unicode.is_upper
             (Unicode.is_digit db) (Unicode.is_space db)
             (Unicode.upper db text) pre' m' post' →
           length pre ≤ length pre')
  ∧ (Unicode._extract_postcode db text = None
     ↔ ∀ pre m post,
         ¬ postcode_at (Unicode.is_word db) Unicode.is_upper
             (Unicode.is_digit db) (Unicode.is_space db)
             (Unicode.upper db text) pre m post)
  ∧ Unicode._extract_postcode db (Unicode.of_string "... London SE1 2AA")
    = Some (Unicode.of_string "SE1 2AA").
Proof.
  assert (Hsome : ∀ r, Unicode._extract_postcode db text = Some r →
     ∃ pre post,
       postcode_at (Unicode.is_word db) Unicode.is_upper
         (Unicode.is_digit db) (Unicode.is_space db)
         (Unicode.upper db text) pre r post
       ∧ ∀ pre' m' post',
           postcode_at (Unicode.is_word db) Unicode.is_upper
             (Unicode.is_digit db) (Unicode.is_space db)
             (Unicode.upper db text) pre' m' post' →
           length pre ≤ length pre').
  { intros r. unfold Unicode._extract_postcode.
    destruct text as [|c text]; [discriminate|].
    destruct (re_search _ _ _) as [[n pieces]|] eqn:E; [|discriminate].
    intros [= <-].
    apply (postcode_search_some _ _ _ _ _ unicode_upper_word) in E
      as (pre & post & Hat & Hleft).
    assert (Hstrip : Unicode.py_strip db (concat pieces) = concat pieces).
    { destruct Hat as (_ & Hshape & _).
      destruct (postcode_shape_ends _ _ _ _ _ Hshape)
        as (c1 & c2 & Hh & Hl & U1 & U2).
      apply (unicode_strip_id _ c1 c2 Hh Hl);
        by apply unicode_upper_not_space. }
    rewrite Hstrip. by exists pre, post. }
  split; [exact Hsome|]. split; [|reflexivity].
  split.
  - unfold Unicode._extract_postcode.
    destruct text as [|c text].
    + intros _ pre m post (Hu & Hshape & _).
      simpl in Hu. symmetry in Hu.
      apply app_eq_nil in Hu as [_ Hu]. apply app_eq_nil in Hu as [-> _].
      destruct Hshape as (area & ? & ? & ? & ? & ? & Hm & _ & La & _).
      symmetry in Hm. apply app_eq_nil in Hm as [-> _]. simpl in La. lia.
    + destruct (re_search _ _ _) as [[n pieces]|] eqn:E; [discriminate|].
      intros _. by apply (postcode_search_none _ _ _ _ _ unicode_upper_word).
  - intros Hno.
    destruct (Unicode._extract_postcode db text) as [r|] eqn:E;
      [|reflexivity].
    destruct (Hsome r eq_refl) as (pre & post & Hat & _).
    by destruct (Hno pre r post).
Qed.

(** *** The 8-bit function on ASCII text

    On ASCII text the postcode extraction of the pipeline, which works on
    8-bit text with the ASCII classes, is the extraction above. *)

Lemma ascii_classes (c : ascii) :
  (nat_of_ascii c <? 128)%nat = true →
  Unicode.is_word db (N_of_ascii c) = is_word c
  ∧ Unicode.is_upper (N_of_ascii c) = is_upper c
  ∧ Unicode.is_digit db (N_of_ascii c) = is_digit c
  ∧ Unicode.is_space db (N_of_ascii c) = is_space c
  ∧ Unicode.upper db [N_of_ascii c] = [N_of_ascii (to_upper c)]
  ∧ (nat_of_ascii (to_upper c) <? 128)%nat = true
  ∧ Ascii.eqb c (ascii_of_nat 223) = false.
Proof.
  destruct c as [[] [] [] [] [] [] [] []]; intros H;
    first [discriminate H | repeat split].
Qed.

Lemma upper_of_ascii (text : string) :
  isascii text = true →
  Unicode.upper db (Unicode.of_string text) = Unicode.of_string (upper text)
  ∧ isascii (upper text) = true.
Proof.
  unfold isascii, Unicode.of_string.
  induction text as [|c text IH]; [done|].
  cbn [list_ascii_of_string forallb upper map].
  intros H. apply andb_true_iff in H as [Hc H].
  destruct (IH H) as [IH1 IH2].
  destruct (ascii_classes c Hc) as (_ & _ & _ & _ & Hu & Hlt & ->).
  cbn [list_ascii_of_string forallb map].
  split.
  - assert (Hcons : ∀ x l, Unicode.upper db (x :: l)
                             = Unicode.upper db [x] ++ Unicode.upper db l).
    { intros x l. unfold Unicode.upper. simpl. by rewrite app_nil_r. }
    by rewrite Hcons, Hu, IH1.
  - by rewrite Hlt, IH2.
Qed.

Lemma is_upper_unicode (c : ascii) :
  is_upper c = true → Unicode.is_upper (N_of_ascii c) = true.
Proof.
  destruct c as [[] [] [] [] [] [] [] []]; intros H;
    first [discriminate H | reflexivity].
Qed.

Lemma postcode_patterns_agree :
  Forall2 (item_agree N_of_ascii
             (fun c => (nat_of_ascii c <? 128)%nat = true))
    (postcode_pattern is_upper is_digit is_space)
    (postcode_pattern Unicode.is_upper (Unicode.is_digit db)
       (Unicode.is_space db)).
Proof.
  unfold postcode_pattern.
  assert (Hu : ∀ lo hi, item_agree N_of_ascii
                 (fun c => (nat_of_ascii c <? 128)%nat = true)
                 (Cls is_upper lo hi) (Cls Unicode.is_upper lo hi)).
  { intros lo hi. split; [reflexivity|]. split; [reflexivity|].
    intros x Hx. by destruct (ascii_classes x Hx) as (_ & ? & _). }
  assert (Hd : ∀ lo hi, item_agree N_of_ascii
                 (fun c => (nat_of_ascii c <? 128)%nat = true)
                 (Cls is_digit lo hi) (Cls (Unicode.is_digit db) lo hi)).
  { intros lo hi. split; [reflexivity|]. split; [reflexivity|].
    intros x Hx. by destruct (ascii_classes x Hx) as (_ & _ & ? & _). }
  assert (Hs : ∀ lo hi, item_agree N_of_ascii
                 (fun c => (nat_of_ascii c <? 128)%nat = true)
                 (Cls is_space lo hi) (Cls (Unicode.is_space db) lo hi)).
  { intros lo hi. split; [reflexivity|]. split; [reflexivity|].
    intros x Hx. by destruct (ascii_classes x Hx) as (_ & _ & _ & ? & _). }
  constructor; [exact I|].
  constructor; [apply Hu|].
  constructor; [apply Hd|].
  constructor; [apply Hu|].
  constructor; [apply Hs|].
  constructor; [apply Hd|].
  constructor; [apply Hu|].
  constructor; [exact I|].
  constructor.
Qed.

Lemma extract_postcode_on_ascii (text : string) :
  isascii text = true →
  Unicode._extract_postcode db (Unicode.of_string text)
  = option_map Unicode.of_string (_extract_postcode text).
Proof.
  intros Hascii.
  destruct (upper_of_ascii text Hascii) as [Hupper Hup].
  destruct text as [|c0 text]; [reflexivity|].
  unfold Unicode._extract_postcode, _extract_postcode.
  change (nonempty (String c0 text)) with true.
  change (Unicode.of_string (String c0 text))
    with (N_of_ascii c0 :: Unicode.of_string text) at 1.
  cbn [negb].
  change (N_of_ascii c0 :: Unicode.of_string text)
    with (Unicode.of_string (String c0 text)).
  rewrite Hupper. unfold re_search, Unicode.of_string at 1.
  assert (HP : Forall (fun c => (nat_of_ascii c <? 128)%nat = true)
                 (list_ascii_of_string (upper (String c0 text)))).
  { apply Forall_forall. intros x Hx. unfold isascii in Hup.
    rewrite forallb_forall in Hup. apply Hup. by apply list_elem_of_In. }
  assert (Hnone : ∀ x : ascii,
            None = Some x → (nat_of_ascii x <? 128)%nat = true)
    by discriminate.
  pose proof (search_from_map ascii N N_of_ascii is_word (Unicode.is_word db)
                (fun c => (nat_of_ascii c <? 128)%nat = true)
                (fun x Hx => proj1 (ascii_classes x Hx))
                _ _ postcode_patterns_agree _ None 0 Hnone HP) as Hmap.
  change (option_map N_of_ascii None) with (@None N) in Hmap. rewrite Hmap.
  destruct (search_from is_word _ None _ 0) as [[n pieces]|] eqn:E8;
    [|reflexivity].
  cbn [option_map fst snd]. f_equal.
  apply (postcode_search_some _ _ _ _ _ is_upper_word) in E8
    as (pre8 & post8 & (_ & Hshape & _) & _).
  unfold group0. rewrite (postcode_shape_strip _ Hshape).
  unfold Unicode.of_string.
  rewrite list_ascii_of_string_of_list_ascii, <- concat_map.
  destruct (postcode_shape_ends _ _ _ _ _ Hshape)
    as (c1 & c2 & Hh & Hl & U1 & U2).
  apply (unicode_strip_id _ (N_of_ascii c1) (N_of_ascii c2)).
  - by destruct (concat pieces); [discriminate | injection Hh as ->].
  - rewrite last_map. by rewrite Hl.
  - by apply unicode_upper_not_space, is_upper_unicode.
  - by apply unicode_upper_not_space, is_upper_unicode.
Qed.

End UnicodePostcodes.

(** C8 as stated fails.  [BC1 2AA] is a substring of [ABC1 2AA] with the
    shape the specification gives, yet no postcode is extracted, because
    the match has to start at a word boundary; and [SE12AA] is extracted
    although it holds no white space.  The 8-bit function of the pipeline
    gives the same results. *)
Lemma extract_postcode_differs_from_spec_pattern :
  (Unicode.upper Sample.ucd_sample (Unicode.of_string "ABC1 2AA")
   = [65%N] ++ Unicode.of_string "BC1 2AA" ++ []
   ∧ spec_postcode_shape Unicode.is_upper
       (Unicode.is_digit Sample.ucd_sample)
       (Unicode.is_space Sample.ucd_sample) (Unicode.of_string "BC1 2AA")
   ∧ Unicode._extract_postcode Sample.ucd_sample
       (Unicode.of_string "ABC1 2AA") = None
   ∧ _extract_postcode "ABC1 2AA" = None)
  ∧ (Unicode._extract_postcode Sample.ucd_sample (Unicode.of_string "SE12AA")
     = Some (Unicode.of_string "SE12AA")
     ∧ _extract_postcode "SE12AA" = Some "SE12AA"
     ∧ ¬ spec_postcode_shape Unicode.is_upper
           (Unicode.is_digit Sample.ucd_sample)
           (Unicode.is_space Sample.ucd_sample)
           (Unicode.of_string "SE12AA")).
Proof.
  split; [split; [reflexivity | split; [|split; reflexivity]]
         | split; [reflexivity | split; [reflexivity|]]].
  - exists [66; 67]%N, [49]%N, [], [32]%N, 50%N, [65; 65]%N.
    simpl. repeat split; lia.
  - intros (area & district & sub & gap & d & unit_ & Hm &
            _ & _ & _ & _ & _ & _ & Pg & Lg & _).
    assert (HF : Forall (fun c => Unicode.is_space Sample.ucd_sample c = false)
                        (Unicode.of_string "SE12AA"))
      by (repeat constructor).
    rewrite Hm in HF. rewrite !Forall_app in HF.
    destruct HF as (_ & _ & _ & Hg & _).
    destruct gap as [|g gap]; [simpl in Lg; lia|].
    apply Forall_cons in Hg as [Hg _].
    simpl in Pg. apply andb_true_iff in Pg as [Pg _]. congruence.
Qed.

(** A lower-case postcode is found in its upper-case form. *)
Lemma extract_postcode_first_match_witness :
  ∃ pre post,
    postcode_at (Unicode.is_word Sample.ucd_sample) Unicode.is_upper
      (Unicode.is_digit Sample.ucd_sample)
      (Unicode.is_space Sample.ucd_sample)
      (Unicode.upper Sample.ucd_sample (Unicode.of_string "se1 2aa"))
      pre (Unicode.of_string "SE1 2AA") post
    ∧ ∀ pre' m' post',
        postcode_at (Unicode.is_word Sample.ucd_sample) Unicode.is_upper
          (Unicode.is_digit Sample.ucd_sample)
          (Unicode.is_space Sample.ucd_sample)
          (Unicode.upper Sample.ucd_sample (Unicode.of_string "se1 2aa"))
          pre' m' post' →
        (length pre ≤ length pre')%nat.
Proof.
  apply (proj1 (extract_postcode_first_match Sample.ucd_sample
                  (Unicode.of_string "se1 2aa"))).
  reflexivity.
Defined.

(** Beyond ASCII: a no-break space between the two halves is white space, the
    sharp s becomes [SS] in upper case, a letter with an accent before the
    postcode is a word character and leaves no word boundary, an
    Arabic-Indic digit is a decimal digit, and the Kelvin sign is not a
    letter of [A-Z]. *)
Lemma extract_postcode_beyond_ascii :
  Unicode._extract_postcode Sample.ucd_sample
    (Unicode.of_string "London SE1" ++ [160%N] ++ Unicode.of_string "2AA")
  = Some (Unicode.of_string "SE1" ++ [160%N] ++ Unicode.of_string "2AA")
  ∧ Unicode._extract_postcode Sample.ucd_sample
      ([223%N] ++ Unicode.of_string "1 2AA")
    = Some (Unicode.of_string "SS1 2AA")
  ∧ Unicode._extract_postcode Sample.ucd_sample
      ([233%N] ++ Unicode.of_string "SE1 2AA")
    = None
  ∧ Unicode._extract_postcode Sample.ucd_sample
      (Unicode.of_string "SE1 " ++ [1634%N] ++ Unicode.of_string "AA")
    = Some (Unicode.of_string "SE1 " ++ [1634%N] ++ Unicode.of_string "AA")
  ∧ Unicode._extract_postcode Sample.ucd_sample
      ([8490%N] ++ Unicode.of_string "1 2AA")
    = None.
Proof. repeat split. Qed.

(** C9.  The search page lists two cards.  The card phase of the first
    produces a detail URL and the fetch of that URL fails; up to there the
    failure is handled, the loop holds the listing of the card phase and
    nothing is raised.  The second card carries a link that [urljoin]
    rejects: [scrape_search] raises [ValueError] and returns no listing at
    all, the first one included.  The runner catches the exception and goes
    on without the listings of this search page. *)
Theorem detail_fetch_failure_then_rejected_link :
  url (sample_parse Sample.card_flat Sample.search_url)
  = Some "https://www.zoopla.co.uk/details/1"
  ∧ fetch_fails Sample.session_get_bad_link 1
      "https://www.zoopla.co.uk/details/1" = true
  ∧ sample_scrape_cards_exn [Sample.card_flat] Sample.search_url None [] 1
    = (Ok [asdict (sample_parse Sample.card_flat Sample.search_url)], 2)
  ∧ enrichment_absent (sample_parse Sample.card_flat Sample.search_url)
  ∧ sample_scrape_search_exn Sample.search_url None 0 = (Raise ValueError, 2)
  ∧ sample_collect_listings [Sample.search_url] None [] 0 = (Ok [], 2).
Proof. repeat split. Qed.

(** * Saving and loading the snapshot *)

Section Snapshots.

Variable py_repr : pyval -> string.
Variable json_loads : string -> option pyval.
Variable json_dump_indent : pyval -> string.
Variable write_file : string -> string -> option file_state.

Lemma load_after_save (fs : string → file_state) (path : string)
    (ls : list listing) :
  write_file path (json_dump_indent (VList (map VDict ls)))
  = Some (Content (json_dump_indent (VList (map VDict ls)))) →
  json_loads (json_dump_indent (VList (map VDict ls)))
  = Some (VList (map VDict ls)) →
  load_snapshot json_loads
    (save_snapshot fs json_dump_indent write_file path ls) path
  = Ok (map VDict ls).
Proof.
  intros Hw Hj. unfold load_snapshot, read_json, save_snapshot.
  by rewrite Hw, String.eqb_refl, Hj.
Qed.

(** X24.  What [save_snapshot] writes, [load_snapshot] reads back: when the
    write goes through and the JSON text of the listings parses back to
    them, loading the path after saving returns a list of records,
    the saved listings in their order, which [compute_deltas] can take as
    the previous snapshot. *)
Theorem snapshot_round_trip (fs : string → file_state) (path : string)
    (ls : list listing) :
  write_file path (json_dump_indent (VList (map VDict ls)))
  = Some (Content (json_dump_indent (VList (map VDict ls)))) →
  json_loads (json_dump_indent (VList (map VDict ls)))
  = Some (VList (map VDict ls)) →
  ∃ data,
    load_snapshot json_loads
      (save_snapshot fs json_dump_indent write_file path ls) path
    = Ok data
    ∧ records_of data = Ok ls.
Proof.
  intros Hw Hj. exists (map VDict ls).
  split; [by apply load_after_save | apply records_of_dicts].
Qed.

(** X25.  A monitored run that follows a monitored run with the same
    listings reports nothing: if the first monitoring step succeeds and its
    snapshot is written and parses back, the second step over the same
    listings returns no new and no delisted listing, and leaves the same
    snapshot behind. *)
Theorem monitoring_second_run (fs fs1 : string → file_state)
    (unique_listings : list listing) (snapshot_file : string)
    (deltas : list listing * list listing) :
  write_file snapshot_file
    (json_dump_indent (VList (map VDict unique_listings)))
  = Some (Content (json_dump_indent (VList (map VDict unique_listings)))) →
  json_loads (json_dump_indent (VList (map VDict unique_listings)))
  = Some (VList (map VDict unique_listings)) →
  run_monitoring py_repr json_loads fs json_dump_indent write_file
    unique_listings snapshot_file = (Ok deltas, fs1) →
  ∃ fs2,
    run_monitoring py_repr json_loads fs1 json_dump_indent write_file
      unique_listings snapshot_file = (Ok ([], []), fs2)
    ∧ load_snapshot json_loads fs2 snapshot_file
      = Ok (map VDict unique_listings).
Proof.
  intros Hw Hj Hfirst.
  assert (Hfs1 : fs1 = save_snapshot fs json_dump_indent write_file
                         snapshot_file unique_listings).
  { unfold run_monitoring in Hfirst.
    destruct (load_snapshot json_loads fs snapshot_file) as [prev|];
      [|discriminate].
    destruct (records_of prev); [|discriminate]. by injection Hfirst. }
  subst fs1. unfold run_monitoring.
  rewrite (load_after_save fs _ _ Hw Hj), records_of_dicts, compute_deltas_same.
  eexists. split; [reflexivity|]. by apply load_after_save.
Qed.

End Snapshots.

(** * The further properties on the sample environment *)

(** The first listing with the shared URL is kept, the second is not. *)
Lemma deduplicate_keeps_first_witness :
  Sample.flat_a
    ∈ sample_deduplicate
        ([Sample.anonymous] ++ Sample.flat_a :: [Sample.flat_b])
        default_id_fields
  ∧ ∀ y, y ∈ sample_deduplicate
               ([Sample.anonymous] ++ Sample.flat_a :: [Sample.flat_b])
               default_id_fields →
         sample_key y default_id_fields = Some "url:https://z/1" →
         y = Sample.flat_a.
Proof.
  apply (deduplicate_keeps_first Sample.py_repr [Sample.anonymous]
           [Sample.flat_b] Sample.flat_a default_id_fields
           "url:https://z/1").
  - reflexivity.
  - intros y Hy. apply list_elem_of_singleton in Hy as ->. discriminate.
Defined.

(** One keyed and one keyless listing against an empty previous run. *)
Lemma compute_deltas_first_run_witness :
  sample_deltas [Sample.flat_a; Sample.anonymous] [] default_id_fields
  = ([Sample.flat_a], []).
Proof.
  destruct (compute_deltas_first_run Sample.py_repr
              [Sample.flat_a; Sample.anonymous] default_id_fields)
    as [H _].
  apply H. simpl. apply NoDup_singleton.
Defined.

(** A first monitored run over three listings, two of which share a URL. *)
Lemma monitoring_first_run_witness :
  fst (run_monitoring Sample.py_repr Sample.json_loads Sample.fs
         Sample.json_dump_indent Sample.write_file
         (sample_deduplicate
            [Sample.flat_a; Sample.flat_b; Sample.anonymous]
            default_id_fields)
         "missing.json")
  = Ok ([Sample.flat_a], []).
Proof.
  rewrite (monitoring_first_run Sample.py_repr Sample.json_loads Sample.fs
             Sample.json_dump_indent Sample.write_file
             [Sample.flat_a; Sample.flat_b; Sample.anonymous]
             "missing.json" eq_refl).
  reflexivity.
Defined.

(** The snapshot of numbers makes the monitoring step fail. *)
Lemma monitoring_non_record_snapshot_witness :
  run_monitoring Sample.py_repr Sample.json_loads Sample.fs
    Sample.json_dump_indent Sample.write_file [Sample.flat_a] "numbers.json"
  = (Raise AttributeError, Sample.fs).
Proof.
  apply (monitoring_non_record_snapshot Sample.py_repr Sample.json_loads
           Sample.fs Sample.json_dump_indent Sample.write_file
           [Sample.flat_a] "numbers.json" [VInt 1; VInt 2]).
  - reflexivity.
  - exists (VInt 1). split; [apply list_elem_of_here | discriminate].
Defined.

(** Saving the record of a flat to a writable path and loading it again. *)
Lemma snapshot_round_trip_witness :
  ∃ data,
    load_snapshot Sample.json_loads
      (save_snapshot Sample.fs Sample.json_dump_indent Sample.write_file
         "snap.json" [Sample.flat_a])
      "snap.json"
    = Ok data
    ∧ records_of data = Ok [Sample.flat_a].
Proof.
  apply (snapshot_round_trip Sample.json_loads Sample.json_dump_indent
           Sample.write_file Sample.fs "snap.json" [Sample.flat_a]);
    reflexivity.
Defined.

(** Two monitored runs in a row over the same listing: the first run finds
    no snapshot and reports the listing as new, the second reports
    nothing. *)
Lemma monitoring_second_run_witness :
  run_monitoring Sample.py_repr Sample.json_loads Sample.fs
    Sample.json_dump_indent Sample.write_file [Sample.flat_a] "snap.json"
  = (Ok ([Sample.flat_a], []),
     save_snapshot Sample.fs Sample.json_dump_indent Sample.write_file
       "snap.json" [Sample.flat_a])
  ∧ ∃ fs2,
      run_monitoring Sample.py_repr Sample.json_loads
        (save_snapshot Sample.fs Sample.json_dump_indent Sample.write_file
           "snap.json" [Sample.flat_a])
        Sample.json_dump_indent Sample.write_file [Sample.flat_a] "snap.json"
      = (Ok ([], []), fs2)
      ∧ load_snapshot Sample.json_loads fs2 "snap.json"
        = Ok [VDict Sample.flat_a].
Proof.
  split; [reflexivity|].
  apply (monitoring_second_run Sample.py_repr Sample.json_loads
           Sample.json_dump_indent Sample.write_file Sample.fs _
           [Sample.flat_a] "snap.json" ([Sample.flat_a], []));
    reflexivity.
Defined.

(** The sample search page gives its two cards, in order. *)
Lemma scrape_search_follows_cards_witness :
  ∃ ls t',
    sample_scrape_search Sample.search_url None 0 = (Ok ls, t')
    ∧ Forall2
        (fun card l =>
           ∃ p, l = asdict p
                ∧ title p = title (sample_parse card Sample.search_url)
                ∧ price p = price (sample_parse card Sample.search_url)
                ∧ url p = url (sample_parse card Sample.search_url)
                ∧ agent p = agent (sample_parse card Sample.search_url)
                ∧ category p = category (sample_parse card Sample.search_url)
                ∧ propertyType p
                  = propertyType (sample_parse card Sample.search_url)
                ∧ bedrooms p = bedrooms (sample_parse card Sample.search_url)
                ∧ bathrooms p
                  = bathrooms (sample_parse card Sample.search_url))
        (take (length ls)
           (_find_listing_cards Sample.tag Sample.select
              (Sample.BeautifulSoup "<search>"))) ls.
Proof.
  apply (scrape_search_follows_cards Sample.py_repr Sample.json_loads
           Sample.tag Sample.select Sample.all_strings Sample.select_attr
           Sample.find_a_href Sample.script_strings Sample.BeautifulSoup
           Sample.urljoin Sample.urlparse_scheme Sample.session_get
           Sample.base_url Sample.int_max_str_digits
           Sample.search_url None 0 "<search>").
  reflexivity.
Defined.

(** The bedroom text [3 beds] of the sample card reads as 3; the text that
    ends in a superscript two gives no number. *)
Lemma extract_int_from_text_digits_witness :
  ((0 ≤ 3)%Z
   ∧ ∃ t, sample_extract_text Sample.card_beds bedrooms_selectors = Some t
          ∧ str_filter is_py_digit t ≠ ""
          ∧ str_filter is_py_digit t = str_filter is_digit t
          ∧ 3%Z = int_of_digits (str_filter is_digit t))
  ∧ _extract_int_from_text Sample.tag Sample.select Sample.all_strings
      Sample.int_max_str_digits Sample.card_area bedrooms_selectors = None.
Proof.
  split.
  - destruct (extract_int_from_text_digits Sample.tag Sample.select
                Sample.all_strings Sample.int_max_str_digits
                Sample.card_beds bedrooms_selectors) as [_ H].
    apply H. reflexivity.
  - destruct (extract_int_from_text_digits Sample.tag Sample.select
                Sample.all_strings Sample.int_max_str_digits
                Sample.card_area bedrooms_selectors) as [[_ H] _].
    apply H. right. eexists. split; [reflexivity|]. right. left. reflexivity.
Defined.

(** [Parking] is listed by both feature lists of the sample detail page and
    kept once. *)
Lemma enriched_features_witness :
  features (sample_enrich (sample_parse Sample.card_beds Sample.search_url)
              Sample.detail_page)
  = ["Garden"; "Parking"; "Lift"]
  ∧ ("Parking" ≠ ""
     ∧ ∃ sel li, sel ∈ features_selectors
                 ∧ li ∈ Sample.select Sample.detail_page sel
                 ∧ get_text Sample.tag Sample.all_strings li "" = "Parking").
Proof.
  split; [reflexivity|].
  destruct (enriched_features Sample.py_repr Sample.json_loads Sample.tag
              Sample.select Sample.all_strings Sample.select_attr
              Sample.script_strings Sample.urljoin Sample.urlparse_scheme
              Sample.base_url
              (sample_parse Sample.card_beds Sample.search_url)
              Sample.detail_page) as [_ H].
  apply H. apply list_elem_of_further, list_elem_of_here.
Defined.

(** An address in lower case, in upper case and as typed. *)
Lemma extract_postcode_case_witness :
  _extract_postcode (upper "1 High St, London se1 2aa")
  = _extract_postcode "1 High St, London se1 2aa"
  ∧ _extract_postcode (lower "1 High St, London se1 2aa")
    = _extract_postcode "1 High St, London se1 2aa"
  ∧ _extract_postcode "1 High St, London se1 2aa" = Some "SE1 2AA"
  ∧ upper "SE1 2AA" = "SE1 2AA".
Proof.
  destruct (extract_postcode_case "1 High St, London se1 2aa" eq_refl)
    as (H1 & H2 & H3).
  split; [exact H1|]. split; [exact H2|]. split; [reflexivity|].
  apply H3. reflexivity.
Defined.

